(** * V2I security pipeline: queue, validator, result combiner, analyzer score

    Shallow embedding of the parts of the repository that the specification
    makes testable claims about:

    - [message_queue.py]   : [PriorityMessageQueue] and its statistics;
    - [message_handler.py] : [MessageValidator];
    - [api_gateway.py]     : [ApiGateway._process_single_message] and
                             [ApiGateway._combine_results];
    - [analyzer.py]        : [DataAnalyzer._calculate_anomaly_score].

    Further modules embed more of the same files and of [detector.py]: the
    sweeps and the batch of the queue, the constraint functions, the
    security validator and the processor of [message_handler.py], the
    request handler of the gateway, and the buffers and the recommendation
    of the detector.

    Conventions.  Python [int] is [Z].  A [datetime] is the number of
    microseconds since an arbitrary origin (a [Z]); [datetime.now()] is an
    explicit argument of every operation that reads the clock.  Python
    dictionaries are stdpp [gmap]s.  An operation that can raise or suspend
    returns an [outcome] together with the state it leaves behind.  A
    Python [float] is the rational it denotes and float arithmetic is exact
    arithmetic; where the rounding of the source can decide a comparison,
    the statements keep away from the bound.  A method that the source
    calls but defines nowhere is a failing attribute lookup. *)

From Stdlib Require Import ZArith QArith Qminmax String Ascii List Lia.
From stdpp Require Import gmap strings list fin_maps.
From Stdlib Require Import Sorted Lqa.

Local Open Scope Z_scope.

(** ** Outcomes of Python calls *)

Inductive exn : Type :=
| KeyError
| TypeError
| AttributeError.

Inductive outcome (A : Type) : Type :=
| Returned (a : A)
| Raised (e : exn)
| Suspended.
Arguments Returned {A} a.
Arguments Raised {A} e.
Arguments Suspended {A}.

(** ** message_queue.py *)

Module MessageQueue.

(** [class MessagePriority(Enum)]: the members in definition order, which is
    the order in which [for priority in MessagePriority] visits them. *)
Inductive MessagePriority : Type := CRITICAL | HIGH | MEDIUM | LOW.

Definition value (p : MessagePriority) : Z :=
  match p with CRITICAL => 0 | HIGH => 1 | MEDIUM => 2 | LOW => 3 end.

Definition all_priorities : list MessagePriority :=
  [CRITICAL; HIGH; MEDIUM; LOW].

#[global] Instance MessagePriority_eq_dec : EqDecision MessagePriority.
Proof. solve_decision. Defined.

#[global] Instance MessagePriority_countable : Countable MessagePriority.
Proof.
  refine (inj_countable' (fun p => Z.to_nat (value p))
            (fun n => match n with
                      | O => CRITICAL | 1%nat => HIGH
                      | 2%nat => MEDIUM | _ => LOW end) _).
  intros []; reflexivity.
Defined.

(** [class MessageState(Enum)] *)
Inductive MessageState : Type :=
| PENDING | PROCESSING | COMPLETED | FAILED | RETRYING.

#[global] Instance MessageState_eq_dec : EqDecision MessageState.
Proof. solve_decision. Defined.

#[global] Instance MessageState_countable : Countable MessageState.
Proof.
  refine (inj_countable'
            (fun s => match s with
                      | PENDING => 0 | PROCESSING => 1 | COMPLETED => 2
                      | FAILED => 3 | RETRYING => 4 end)%nat
            (fun n => match n with
                      | O => PENDING | 1%nat => PROCESSING
                      | 2%nat => COMPLETED | 3%nat => FAILED
                      | _ => RETRYING end) _).
  intros []; reflexivity.
Defined.

(** The queue never inspects the content of a message. *)
Definition Content : Type := gmap string string.

(** [@dataclass class QueueMessage] *)
Record QueueMessage : Type := mkQueueMessage {
  id : string;
  content : Content;
  priority : MessagePriority;
  timestamp : Z;
  retries : Z;
  processing_started : option Z;
  processing_completed : option Z;
  error : option string
}.

Definition set_processing_started (t : Z) (m : QueueMessage) : QueueMessage :=
  mkQueueMessage (id m) (content m) (priority m) (timestamp m) (retries m)
    (Some t) (processing_completed m) (error m).

Definition set_processing_completed (t : Z) (m : QueueMessage) : QueueMessage :=
  mkQueueMessage (id m) (content m) (priority m) (timestamp m) (retries m)
    (processing_started m) (Some t) (error m).

Definition set_error (e : string) (m : QueueMessage) : QueueMessage :=
  mkQueueMessage (id m) (content m) (priority m) (timestamp m) (retries m)
    (processing_started m) (processing_completed m) (Some e).

Definition incr_retries (m : QueueMessage) : QueueMessage :=
  mkQueueMessage (id m) (content m) (priority m) (timestamp m) (retries m + 1)
    (processing_started m) (processing_completed m) (error m).

(** A [defaultdict(int)]: reading a missing key yields 0, and [d[k] += n]
    stores the key. *)
Definition dd_get `{Countable K} (d : gmap K Z) (k : K) : Z :=
  default 0 (d !! k).

Definition dd_add `{Countable K} (k : K) (n : Z) (d : gmap K Z) : gmap K Z :=
  <[k := dd_get d k + n]> d.

(** [class QueueStats].  A duration is kept in microseconds. *)
Record QueueStats : Type := mkQueueStats {
  total_received : Z;
  total_processed : Z;
  total_failed : Z;
  total_retried : Z;
  processing_times : list Z;
  states : gmap MessageState Z;
  priority_counts : gmap MessagePriority Z
}.

Definition QueueStats_init : QueueStats :=
  mkQueueStats 0 0 0 0 [] ∅ ∅.

(** [QueueStats.update_processing_time]: append, and drop the oldest sample
    once more than 1000 are held. *)
Definition update_processing_time (duration : Z) (s : QueueStats) : QueueStats :=
  let times := processing_times s ++ [duration] in
  let times' := if 1000 <? Z.of_nat (length times) then tail times else times in
  mkQueueStats (total_received s) (total_processed s) (total_failed s)
    (total_retried s) times' (states s) (priority_counts s).

Definition set_states (st : gmap MessageState Z) (s : QueueStats) : QueueStats :=
  mkQueueStats (total_received s) (total_processed s) (total_failed s)
    (total_retried s) (processing_times s) st (priority_counts s).

Definition incr_total_processed (s : QueueStats) : QueueStats :=
  mkQueueStats (total_received s) (total_processed s + 1) (total_failed s)
    (total_retried s) (processing_times s) (states s) (priority_counts s).

Definition incr_total_failed (s : QueueStats) : QueueStats :=
  mkQueueStats (total_received s) (total_processed s) (total_failed s + 1)
    (total_retried s) (processing_times s) (states s) (priority_counts s).

Definition incr_total_retried (s : QueueStats) : QueueStats :=
  mkQueueStats (total_received s) (total_processed s) (total_failed s)
    (total_retried s + 1) (processing_times s) (states s) (priority_counts s).

(** The three statistics updates that close [enqueue]. *)
Definition record_received (p : MessagePriority) (s : QueueStats) : QueueStats :=
  mkQueueStats (total_received s + 1) (total_processed s) (total_failed s)
    (total_retried s) (processing_times s)
    (dd_add PENDING 1 (states s)) (dd_add p 1 (priority_counts s)).

(** An item of an [asyncio.PriorityQueue]: the tuple
    [(priority.value, message_id)]. *)
Definition entry : Type := (Z * string)%type.

(** Tuple order of Python: first components, then the strings. *)
Definition entry_leb (a b : entry) : bool :=
  if a.1 <? b.1 then true
  else if b.1 <? a.1 then false
  else String.leb a.2 b.2.

(** [heapq.heappop] through its contract: the smallest item leaves the heap.
    The heap is kept as the list of its items. *)
Fixpoint heappop (h : list entry) : option (entry * list entry) :=
  match h with
  | [] => None
  | e :: h' =>
      match heappop h' with
      | None => Some (e, [])
      | Some (m, r) =>
          if entry_leb e m then Some (e, h') else Some (m, e :: r)
      end
  end.

(** [class PriorityMessageQueue] *)
Record PriorityMessageQueue : Type := mkPMQ {
  max_size : Z;
  max_retries : Z;
  processing_timeout : Z;
  batch_size : Z;
  queues : MessagePriority -> list entry;
  messages : gmap string QueueMessage;
  message_states : gmap string MessageState;
  stats : QueueStats
}.

(** [PriorityMessageQueue.__init__] *)
Definition init (max_size max_retries processing_timeout batch_size : Z)
  : PriorityMessageQueue :=
  mkPMQ max_size max_retries processing_timeout batch_size
    (fun _ => []) ∅ ∅ QueueStats_init.

(** The defaults of [__init__]. *)
Definition init_default : PriorityMessageQueue := init 10000 3 30 10.

Definition set_queue (p : MessagePriority) (h : list entry)
    (q : PriorityMessageQueue) : PriorityMessageQueue :=
  mkPMQ (max_size q) (max_retries q) (processing_timeout q) (batch_size q)
    (fun p' => if decide (p' = p) then h else queues q p')
    (messages q) (message_states q) (stats q).

Definition set_message (mid : string) (m : QueueMessage)
    (q : PriorityMessageQueue) : PriorityMessageQueue :=
  mkPMQ (max_size q) (max_retries q) (processing_timeout q) (batch_size q)
    (queues q) (<[mid := m]> (messages q)) (message_states q) (stats q).

Definition set_stats (s : QueueStats)
    (q : PriorityMessageQueue) : PriorityMessageQueue :=
  mkPMQ (max_size q) (max_retries q) (processing_timeout q) (batch_size q)
    (queues q) (messages q) (message_states q) s.

(** [asyncio.Queue.full]: a [maxsize] of zero or less means unbounded. *)
Definition full (q : PriorityMessageQueue) (p : MessagePriority) : bool :=
  (0 <? max_size q) && (max_size q <=? Z.of_nat (length (queues q p))).

(** [await self.queues[p].put(e)]: suspends while the queue is full. *)
Definition put (p : MessagePriority) (e : entry)
    (q : PriorityMessageQueue) : option PriorityMessageQueue :=
  if full q p then None else Some (set_queue p (queues q p ++ [e]) q).

(** [PriorityMessageQueue._update_message_state] *)
Definition _update_message_state (message_id : string) (new_state : MessageState)
    (q : PriorityMessageQueue) : PriorityMessageQueue :=
  let st1 :=
    match message_states q !! message_id with
    | Some old_state => dd_add old_state (-1) (states (stats q))
    | None => states (stats q)
    end in
  mkPMQ (max_size q) (max_retries q) (processing_timeout q) (batch_size q)
    (queues q) (messages q)
    (<[message_id := new_state]> (message_states q))
    (set_states (dd_add new_state 1 st1) (stats q)).

(** [PriorityMessageQueue.enqueue].  The identifier
    [str(abs(hash(f"{message}{datetime.now()}")))] is produced by the salted
    string hash of the interpreter, so it is an input here. *)
Definition enqueue (message_id : string) (message : Content)
    (priority : MessagePriority) (now : Z) (q : PriorityMessageQueue)
  : outcome string * PriorityMessageQueue :=
  let queue_message :=
    mkQueueMessage message_id message priority now 0 None None None in
  let q1 :=
    mkPMQ (max_size q) (max_retries q) (processing_timeout q) (batch_size q)
      (queues q) (<[message_id := queue_message]> (messages q))
      (<[message_id := PENDING]> (message_states q)) (stats q) in
  match put priority (value priority, message_id) q1 with
  | None => (Suspended, q1)
  | Some q2 => (Returned message_id, set_stats (record_received priority (stats q2)) q2)
  end.

(** The loop of [PriorityMessageQueue.dequeue] over the remaining priorities.
    A [KeyError] from [self.messages[message_id]] is caught and logged, the
    popped item is gone, and the loop goes on with the next priority. *)
Fixpoint dequeue_loop (ps : list MessagePriority) (now : Z)
    (q : PriorityMessageQueue) : option QueueMessage * PriorityMessageQueue :=
  match ps with
  | [] => (None, q)
  | p :: ps' =>
      match heappop (queues q p) with
      | None => dequeue_loop ps' now q
      | Some ((_, message_id), rest) =>
          let q1 := set_queue p rest q in
          match messages q1 !! message_id with
          | None => dequeue_loop ps' now q1
          | Some message =>
              let q2 := _update_message_state message_id PROCESSING q1 in
              let message' := set_processing_started now message in
              (Some message', set_message message_id message' q2)
          end
      end
  end.

(** [PriorityMessageQueue.dequeue] *)
Definition dequeue (now : Z) (q : PriorityMessageQueue)
  : option QueueMessage * PriorityMessageQueue :=
  dequeue_loop all_priorities now q.

(** [PriorityMessageQueue.mark_completed].  The end stamp is written before
    the duration is computed; [datetime - None] raises [TypeError]. *)
Definition mark_completed (message_id : string) (now : Z)
    (q : PriorityMessageQueue) : outcome unit * PriorityMessageQueue :=
  match messages q !! message_id with
  | None => (Returned tt, q)
  | Some message =>
      let message' := set_processing_completed now message in
      let q1 := set_message message_id message' q in
      match processing_started message' with
      | None => (Raised TypeError, q1)
      | Some started =>
          let processing_time := now - started in
          let q2 :=
            set_stats
              (incr_total_processed
                 (update_processing_time processing_time (stats q1))) q1 in
          (Returned tt, _update_message_state message_id COMPLETED q2)
      end
  end.

(** [PriorityMessageQueue.mark_failed] *)
Definition mark_failed (message_id : string) (err : string)
    (q : PriorityMessageQueue) : outcome unit * PriorityMessageQueue :=
  match messages q !! message_id with
  | None => (Returned tt, q)
  | Some message =>
      let message1 := set_error err message in
      if retries message1 <? max_retries q then
        let message2 := incr_retries message1 in
        let q1 := set_message message_id message2 q in
        let q2 := _update_message_state message_id RETRYING q1 in
        match put (priority message2) (value (priority message2), message_id) q2 with
        | None => (Suspended, q2)
        | Some q3 => (Returned tt, set_stats (incr_total_retried (stats q3)) q3)
        end
      else
        let q1 := set_message message_id message1 q in
        let q2 := _update_message_state message_id FAILED q1 in
        (Returned tt, set_stats (incr_total_failed (stats q2)) q2)
  end.

(** [PriorityMessageQueue.dequeue_batch]: at most [batch_size] dequeues. *)
Fixpoint dequeue_batch_loop (fuel : nat) (now : Z) (q : PriorityMessageQueue)
  : list QueueMessage * PriorityMessageQueue :=
  match fuel with
  | O => ([], q)
  | S fuel' =>
      match dequeue now q with
      | (None, q1) => ([], q1)
      | (Some message, q1) =>
          let '(batch, q2) := dequeue_batch_loop fuel' now q1 in
          (message :: batch, q2)
      end
  end.

Definition dequeue_batch (now : Z) (q : PriorityMessageQueue)
  : list QueueMessage * PriorityMessageQueue :=
  dequeue_batch_loop (Z.to_nat (batch_size q)) now q.

(** *** Call sequences

    A client drives the queue through four entry points.  Every call carries
    the clock reading it makes. *)
Inductive op : Type :=
| Enqueue (message_id : string) (message : Content)
    (priority : MessagePriority) (now : Z)
| Dequeue (now : Z)
| MarkCompleted (message_id : string) (now : Z)
| MarkFailed (message_id : string) (err : string).

(** The state a call leaves behind when it finishes, by returning or by
    raising; [None] when it suspends on a full queue. *)
Definition finished {A : Type} (r : outcome A * PriorityMessageQueue)
  : option PriorityMessageQueue :=
  match r.1 with
  | Suspended => None
  | _ => Some r.2
  end.

Definition exec (o : op) (q : PriorityMessageQueue)
  : option PriorityMessageQueue :=
  match o with
  | Enqueue message_id message priority now =>
      finished (enqueue message_id message priority now q)
  | Dequeue now => Some (dequeue now q).2
  | MarkCompleted message_id now => finished (mark_completed message_id now q)
  | MarkFailed message_id err => finished (mark_failed message_id err q)
  end.

(** Three assumptions on the client.  [FreshIds]: the identifier drawn by
    [enqueue] is not the one of a tracked message.  [Worker]: moreover
    [mark_completed] and [mark_failed] are called by the worker that holds
    the message, that is, on a message in state [PROCESSING].  [WorkerOf x]:
    as [FreshIds], and the calls that close message [x] are made while [x]
    is in state [PROCESSING]; the other messages are closed at any time. *)
Inductive discipline : Type :=
| FreshIds
| Worker
| WorkerOf (x : string).

Definition is_processing (q : PriorityMessageQueue) (mid : string) : bool :=
  bool_decide (message_states q !! mid = Some PROCESSING).

Definition allowed (d : discipline) (q : PriorityMessageQueue) (o : op) : bool :=
  match o with
  | Enqueue message_id _ _ _ => bool_decide (messages q !! message_id = None)
  | Dequeue _ => true
  | MarkCompleted message_id _ | MarkFailed message_id _ =>
      match d with
      | FreshIds => true
      | Worker => is_processing q message_id
      | WorkerOf x =>
          if decide (message_id = x) then is_processing q message_id else true
      end
  end.

Definition step (d : discipline) (o : op) (q : PriorityMessageQueue)
  : option PriorityMessageQueue :=
  if allowed d q o then exec o q else None.

Fixpoint run (d : discipline) (ops : list op) (q : PriorityMessageQueue)
  : option PriorityMessageQueue :=
  match ops with
  | [] => Some q
  | o :: ops' =>
      match step d o q with
      | None => None
      | Some q' => run d ops' q'
      end
  end.

Inductive reachable (d : discipline) : PriorityMessageQueue -> Prop :=
| reachable_init (ms mr pt bs : Z) : reachable d (init ms mr pt bs)
| reachable_step (q q' : PriorityMessageQueue) (o : op) :
    reachable d q -> step d o q = Some q' -> reachable d q'.

(** The identifiers waiting in the four queues. *)
Definition queued (q : PriorityMessageQueue) : list string :=
  concat (map (fun p => (queues q p).*2) all_priorities).

(** The number of tracked messages in a given state. *)
Definition count_state (s : MessageState) (ms : gmap string MessageState) : Z :=
  Z.of_nat (size (filter (fun kv => kv.2 = s) ms)).

(** Messages that are neither completed nor failed. *)
Definition in_flight (q : PriorityMessageQueue) : Z :=
  count_state PENDING (message_states q)
  + count_state PROCESSING (message_states q)
  + count_state RETRYING (message_states q).

(** *** Invariants *)

(** Every waiting identifier designates a tracked message. *)
Definition all_tracked (q : PriorityMessageQueue) : Prop :=
  forall p e, e ∈ queues q p -> is_Some (messages q !! e.2).

(** Kept by every call sequence that draws fresh identifiers. *)
Record wf (q : PriorityMessageQueue) : Prop := mk_wf {
  wf_entry : forall p e, e ∈ queues q p ->
    e.1 = value p /\ exists m, messages q !! e.2 = Some m /\ priority m = p;
  wf_id : forall x m, messages q !! x = Some m -> id m = x;
  wf_dom : forall x, messages q !! x = None <-> message_states q !! x = None;
  wf_census : forall s,
    dd_get (states (stats q)) s = count_state s (message_states q)
}.

(** Kept when, in addition, only the worker holding a message closes it. *)
Record wf_worker (q : PriorityMessageQueue) : Prop := mk_wf_worker {
  ww_waiting : forall x, x ∈ queued q <->
    (message_states q !! x = Some PENDING \/ message_states q !! x = Some RETRYING);
  ww_nodup : NoDup (queued q);
  ww_started : forall x m, messages q !! x = Some m ->
    message_states q !! x <> Some PENDING -> is_Some (processing_started m);
  ww_balance :
    total_received (stats q)
    = total_processed (stats q) + total_failed (stats q) + in_flight q
}.

(** A message that is COMPLETED has been taken by a worker. *)
Definition completed_have_started (q : PriorityMessageQueue) : Prop :=
  forall x, message_states q !! x = Some COMPLETED ->
    exists m started,
      messages q !! x = Some m /\ processing_started m = Some started.

(** *** Vocabulary of the lifecycle claims *)

Definition state_of (q : PriorityMessageQueue) (mid : string)
  : option MessageState := message_states q !! mid.

Definition retries_of (q : PriorityMessageQueue) (mid : string) : option Z :=
  retries <$> messages q !! mid.

(** The transitions the specification lists. *)
Definition spec_transition (s s' : MessageState) : bool :=
  match s, s' with
  | PENDING, PROCESSING
  | PROCESSING, COMPLETED
  | PROCESSING, RETRYING
  | RETRYING, PENDING
  | PROCESSING, FAILED => true
  | _, _ => false
  end.

(** The transitions the code makes under the worker protocol. *)
Inductive lifecycle : MessageState -> MessageState -> Prop :=
| take_pending : lifecycle PENDING PROCESSING
| take_retrying : lifecycle RETRYING PROCESSING
| complete : lifecycle PROCESSING COMPLETED
| retry : lifecycle PROCESSING RETRYING
| fail : lifecycle PROCESSING FAILED.

(** The transitions of message [x] that the code makes when call [o] takes
    the queue from [q] to [q'] under the worker protocol, each with the call
    that makes it and what happens to the retry count. *)
Definition worker_transition (q q' : PriorityMessageQueue) (o : op)
    (x : string) (s s' : MessageState) : Prop :=
  match s, s' with
  | PENDING, PROCESSING | RETRYING, PROCESSING =>
      (exists now m, o = Dequeue now /\ (dequeue now q).1 = Some m /\ id m = x)
      /\ retries_of q' x = retries_of q x
  | PROCESSING, COMPLETED =>
      (exists now, o = MarkCompleted x now)
      /\ retries_of q' x = retries_of q x
  | PROCESSING, RETRYING =>
      (exists err, o = MarkFailed x err)
      /\ exists r, retries_of q x = Some r /\ r < max_retries q
                   /\ retries_of q' x = Some (r + 1) /\ x ∈ queued q'
  | PROCESSING, FAILED =>
      (exists err, o = MarkFailed x err)
      /\ exists r, retries_of q x = Some r /\ max_retries q <= r
                   /\ retries_of q' x = Some r /\ x ∉ queued q'
  | _, _ => False
  end.

Definition is_mark_failed (x : string) (o : op) : bool :=
  match o with
  | MarkFailed mid _ => bool_decide (mid = x)
  | _ => false
  end.

Definition is_mark_completed (x : string) (o : op) : bool :=
  match o with
  | MarkCompleted mid _ => bool_decide (mid = x)
  | _ => false
  end.

(** How many processing attempts of [x] ended in [mark_failed]. *)
Fixpoint failures (x : string) (ops : list op) : Z :=
  match ops with
  | [] => 0
  | o :: ops' => (if is_mark_failed x o then 1 else 0) + failures x ops'
  end.

(** By how much the calls [mark_failed x] of a call sequence moved the
    counter [f]; the moves of all other calls are left out. *)
Fixpoint charged (f : QueueStats -> Z) (x : string) (ops : list op)
    (q : PriorityMessageQueue) : Z :=
  match ops with
  | [] => 0
  | o :: ops' =>
      match step (WorkerOf x) o q with
      | None => 0
      | Some q' =>
          (if is_mark_failed x o then f (stats q') - f (stats q) else 0)
          + charged f x ops' q'
      end
  end.

(** How many times [x] waits in the queues. *)
Definition waiting (x : string) (q : PriorityMessageQueue) : nat :=
  length (filter (fun y => y = x) (queued q)).

(** Message [x] has seen [k] failed attempts: what its state, its retry
    count and its place in the queues are then. *)
Definition tracking (x : string) (q : PriorityMessageQueue) (k : Z) : Prop :=
  exists m, messages q !! x = Some m /\ 0 <= k /\
    match message_states q !! x with
    | Some PENDING => k = 0 /\ retries m = 0 /\ waiting x q = 1%nat
    | Some PROCESSING =>
        retries m = k /\ k <= max_retries q /\ waiting x q = 0%nat
    | Some RETRYING =>
        retries m = k /\ k <= max_retries q /\ waiting x q = 1%nat
    | Some FAILED =>
        k = max_retries q + 1 /\ retries m = max_retries q
        /\ waiting x q = 0%nat
    | _ => False
    end.

(** *** Scenarios *)

(** The state a call sequence ends in (the start state when a call of the
    sequence is not allowed or suspends). *)
Definition after (d : discipline) (ops : list op) (q : PriorityMessageQueue)
  : PriorityMessageQueue :=
  default q (run d ops q).

(** Two LOW messages; the identifiers are outputs of
    [str(abs(hash(...)))]. *)
Definition two_low : list op :=
  [Enqueue "7090113732254520430" ∅ LOW 0;
   Enqueue "1215047144078695196" ∅ LOW 1].

(** A LOW message followed by a CRITICAL one. *)
Definition low_then_critical : list op :=
  [Enqueue "7090113732254520430" ∅ LOW 0;
   Enqueue "8215047144078695196" ∅ CRITICAL 1].

(** One message, processed and completed. *)
Definition completed_once : list op :=
  [Enqueue "7090113732254520430" ∅ MEDIUM 0;
   Dequeue 10;
   MarkCompleted "7090113732254520430" 25].

(** One message, failed once and waiting for its second attempt. *)
Definition failed_once : list op :=
  [Enqueue "7090113732254520430" ∅ MEDIUM 0;
   Dequeue 10;
   MarkFailed "7090113732254520430" "oracle error"].

(** One attempt: the worker takes the message and the attempt fails. *)
Definition failed_attempt : list op :=
  [Dequeue 10; MarkFailed "7090113732254520430" "oracle error"].

(** Four attempts, all failing: one more than the default [max_retries]. *)
Definition always_failing : list op :=
  failed_attempt ++ failed_attempt ++ failed_attempt ++ failed_attempt.

End MessageQueue.

(** ** message_handler.py *)

Module MessageHandler.

(** [class MessageType(Enum)] *)
Inductive MessageType : Type :=
| POSITION_UPDATE
| EMERGENCY_ALERT
| TRAFFIC_INFO
| INFRASTRUCTURE_STATUS
| SAFETY_WARNING
| CONTROL_COMMAND.

#[global] Instance MessageType_eq_dec : EqDecision MessageType.
Proof. solve_decision. Defined.

(** [@dataclass class MessageMetadata] *)
Record MessageMetadata : Type := mkMetadata {
  message_id : string;
  sender_id : string;
  timestamp : Z;
  message_type : MessageType;
  priority : Z;
  hop_count : Z;
  signature : option string;
  previous_hop : option string
}.

(** The values a message dictionary holds, as far as the validators of the
    class look at them: numbers (exact rationals stand for [int] and
    [float]; the validators only compare them), strings, anything else. *)
Inductive pyvalue : Type :=
| PyNum (x : Q)
| PyStr (s : string)
| PyOther.

Definition Message : Type := gmap string pyvalue.

(** A validation verdict [(ok, reason)]. *)
Definition verdict : Type := (bool * string)%type.

(** [class MessageValidator]: the attributes set by [__init__]. *)
Record MessageValidator : Type := mkValidator {
  max_message_age : Z;
  message_cache : gmap string Z
}.

(** [MessageValidator.__init__], with its default of 5000 ms. *)
Definition init (max_message_age : Z) : MessageValidator :=
  mkValidator max_message_age ∅.

Definition init_default : MessageValidator := init 5000.

Section Rendering.

(** What an f-string prints for an interpolated value: for an age given in
    microseconds the [float] of its milliseconds, a set of field names, a
    message value.  An identifier is printed as it is. *)
Variable fmt_age : Z -> string.
Variable fmt_fields : gset string -> string.
Variable fmt_value : pyvalue -> string.

(** [MessageValidator._validate_timing].  With times in microseconds,
    [(now - timestamp).total_seconds() * 1000 > max_message_age] is
    [now - timestamp > 1000 * max_message_age] in exact arithmetic.  The
    source computes the age in floats, and the two roundings can carry an
    age that is equal to the bound, or within the rounding error of it,
    across the bound. *)
Definition _validate_timing (now : Z) (v : MessageValidator)
    (metadata : MessageMetadata) : verdict :=
  let message_age := now - timestamp metadata in
  if 1000 * max_message_age v <? message_age then
    (false, "Message too old: " +:+ fmt_age message_age +:+ "ms")
  else if now <? timestamp metadata then
    (false, "Future timestamp detected")
  else (true, "").

(** The table [required_fields] of [_validate_structure]. *)
Definition required_fields (t : MessageType) : gset string :=
  match t with
  | POSITION_UPDATE => {["position"; "speed"; "direction"]}
  | EMERGENCY_ALERT => {["alert_type"; "severity"; "location"]}
  | TRAFFIC_INFO => {["road_id"; "congestion_level"; "average_speed"]}
  | INFRASTRUCTURE_STATUS => {["device_id"; "status"; "health"]}
  | SAFETY_WARNING => {["warning_type"; "affected_area"; "duration"]}
  | CONTROL_COMMAND => {["command_type"; "parameters"; "target_id"]}
  end.

(** [MessageValidator._validate_structure]; every member of the enumeration
    is a key of the table. *)
Definition _validate_structure (message : Message) (t : MessageType) : verdict :=
  let missing_fields := required_fields t ∖ dom message in
  if decide (missing_fields = ∅) then (true, "")
  else (false, "Missing required fields: " +:+ fmt_fields missing_fields).

(** [MessageValidator._validate_duplicates].  With times in microseconds,
    [(timestamp - cached_time).total_seconds() < 1.0] is
    [timestamp - cached_time < 1000000]. *)
Definition _validate_duplicates (v : MessageValidator)
    (metadata : MessageMetadata) : verdict :=
  match message_cache v !! message_id metadata with
  | Some cached_time =>
      let time_diff := timestamp metadata - cached_time in
      if time_diff <? 1000000 then
        (false, "Duplicate message detected: " +:+ message_id metadata)
      else (true, "")
  | None => (true, "")
  end.

(** [MessageValidator._validate_sequence]: the branch on
    ['sequence_number'] is [pass]. *)
Definition _validate_sequence (message : Message)
    (metadata : MessageMetadata) : verdict :=
  (true, "").

(** Python's chained comparison [lo <= x <= hi] on a message value; a value
    that is not a number cannot be compared with an [int]. *)
Definition between (lo hi : Q) (x : pyvalue) : outcome bool :=
  match x with
  | PyNum n => Returned (Qle_bool lo n && Qle_bool n hi)
  | _ => Raised TypeError
  end.

(** [MessageValidator._validate_position_constraints] *)
Definition _validate_position_constraints (message : Message) : outcome verdict :=
  let speed := default (PyNum 0) (message !! "speed") in
  match between 0 200 speed with
  | Returned false => Returned (false, "Invalid speed value: " +:+ fmt_value speed)
  | Returned true =>
      let direction := default (PyNum 0) (message !! "direction") in
      match between 0 360 direction with
      | Returned false =>
          Returned (false, "Invalid direction value: " +:+ fmt_value direction)
      | Returned true => Returned (true, "")
      | Raised e => Raised e
      | Suspended => Suspended
      end
  | Raised e => Raised e
  | Suspended => Suspended
  end.

(** A bound validator method. *)
Definition validator : Type := Message -> outcome verdict.

(** The names that [_validate_constraints] reads off [self], in the order
    of its dictionary display. *)
Definition constraint_methods : list (MessageType * string) :=
  [(POSITION_UPDATE, "_validate_position_constraints");
   (EMERGENCY_ALERT, "_validate_emergency_constraints");
   (TRAFFIC_INFO, "_validate_traffic_constraints");
   (INFRASTRUCTURE_STATUS, "_validate_infrastructure_constraints");
   (SAFETY_WARNING, "_validate_safety_constraints");
   (CONTROL_COMMAND, "_validate_control_constraints")].

(** Attribute lookup [self.<name>] for those names.  The body of
    [class MessageValidator] ends with [_validate_position_constraints]
    (line 137).  The five definitions that follow (lines 139 to 256) start
    in the first column: they are functions of the module, not attributes
    of the class or of its instances. *)
Definition getattr (name : string) : option validator :=
  if String.eqb name "_validate_position_constraints"
  then Some _validate_position_constraints
  else None.

(** Evaluation of the dictionary display
    [{MessageType.POSITION_UPDATE: self._validate_position_constraints, ...}]:
    every value is looked up before the dictionary exists, and a failing
    lookup raises [AttributeError]. *)
Fixpoint build_constraints (lookup : string -> option validator)
    (entries : list (MessageType * string))
  : outcome (list (MessageType * validator)) :=
  match entries with
  | [] => Returned []
  | (t, name) :: entries' =>
      match lookup name with
      | None => Raised AttributeError
      | Some f =>
          match build_constraints lookup entries' with
          | Returned table => Returned ((t, f) :: table)
          | Raised e => Raised e
          | Suspended => Suspended
          end
      end
  end.

Fixpoint table_lookup (t : MessageType) (table : list (MessageType * validator))
  : option validator :=
  match table with
  | [] => None
  | (t', f) :: table' => if decide (t' = t) then Some f else table_lookup t table'
  end.

(** [MessageValidator._validate_constraints], for a given attribute
    lookup. *)
Definition _validate_constraints_with (lookup : string -> option validator)
    (message : Message) (metadata : MessageMetadata) : outcome verdict :=
  match build_constraints lookup constraint_methods with
  | Returned constraints =>
      match table_lookup (message_type metadata) constraints with
      | Some f => f message
      | None => Returned (true, "")
      end
  | Raised e => Raised e
  | Suspended => Suspended
  end.

(** [" | ".join(reasons)] *)
Fixpoint join (reasons : list string) : string :=
  match reasons with
  | [] => ""
  | [r] => r
  | r :: reasons' => r +:+ " | " +:+ join reasons'
  end.

(** [MessageValidator.validate_message], for a given attribute lookup.  The
    five checks are the items of a list display and are evaluated in order;
    an exception in one of them leaves the call before the cache is
    touched. *)
Definition validate_message_with (lookup : string -> option validator)
    (now : Z) (message : Message) (metadata : MessageMetadata)
    (v : MessageValidator) : outcome verdict * MessageValidator :=
  let r1 := _validate_timing now v metadata in
  let r2 := _validate_structure message (message_type metadata) in
  let r3 := _validate_duplicates v metadata in
  let r4 := _validate_sequence message metadata in
  match _validate_constraints_with lookup message metadata with
  | Returned r5 =>
      let validations := [r1; r2; r3; r4; r5] in
      let failed_validations :=
        map snd (List.filter (fun r : verdict => negb r.1) validations) in
      match failed_validations with
      | [] =>
          (Returned (true, "Message valid"),
           mkValidator (max_message_age v)
             (<[message_id metadata := timestamp metadata]> (message_cache v)))
      | _ => (Returned (false, join failed_validations), v)
      end
  | Raised e => (Raised e, v)
  | Suspended => (Suspended, v)
  end.

(** [MessageValidator.validate_message] as the class defines it. *)
Definition validate_message (now : Z) (message : Message)
    (metadata : MessageMetadata) (v : MessageValidator)
  : outcome verdict * MessageValidator :=
  validate_message_with getattr now message metadata v.

End Rendering.

(** A position update with speed 50 and direction 90. *)
Definition position_update : Message :=
  {[ "position" := PyOther; "speed" := PyNum 50; "direction" := PyNum 90 ]}.

(** The same update without its speed and direction. *)
Definition incomplete_update : Message := {[ "position" := PyOther ]}.

Definition metadata_at (message_id : string) (timestamp : Z) : MessageMetadata :=
  mkMetadata message_id "VEH_1" timestamp POSITION_UPDATE 3 0 None None.

End MessageHandler.

(** ** api_gateway.py *)

Module ApiGateway.

(** Scores are Python floats.  The gateway only compares them and takes
    their maximum; both are exact on floats that are numbers, so a score is
    modelled by the rational it denotes. *)
Definition py_gt (a b : Q) : bool := negb (Qle_bool a b).

(** [max(a, b)] of Python: the first argument unless the second is
    greater. *)
Definition py_max (a b : Q) : Q := if py_gt b a then b else a.

(** [a or b] on [Optional[str]]: [None] and the empty string are falsy. *)
Definition py_or (a b : option string) : option string :=
  match a with
  | Some s => if String.eqb s "" then b else a
  | None => b
  end.

(** An opaque dictionary produced by a scoring stage. *)
Definition Dict : Type := gmap string string.

(** [class V2IMessage(BaseModel)]; the priority is one of the strings of the
    gateway's own [MessagePriority]. *)
Record V2IMessage : Type := mkV2IMessage {
  message_id : string;
  sender_id : string;
  message_type : string;
  timestamp : Z;
  priority : string;
  content : Dict;
  signature : option string
}.

(** [detector.DetectionResult] *)
Record DetectionResult : Type := mkDetectionResult {
  d_timestamp : Z;
  threat_detected : bool;
  confidence : Q;
  threat_type : option string;
  affected_nodes : list string;
  evidence : Dict;
  recommendation : string
}.

(** [analyzer.AnalysisResult] *)
Record AnalysisResult : Type := mkAnalysisResult {
  a_timestamp : Z;
  anomaly_score : Q;
  anomaly_type : option string;
  a_confidence : Q;
  feature_importance : Dict;
  temporal_pattern : Dict;
  spatial_correlation : Dict;
  context_analysis : Dict
}.

(** The keys of [self.config] that the pipeline reads. *)
Record Config : Type := mkConfig {
  analysis_threshold : Q;
  transform_threshold : Q;
  threat_threshold : Q;
  max_sequence_length : Z;
  recommendation_templates : gmap string (list string)
}.

(** An entry of [self.active_sessions]. *)
Record Session : Type := mkSession {
  session_messages : list (Z * Dict);
  last_update : Z
}.

(** The dictionary [_prepare_sequence] hands to the transformer; a session
    message is kept with its ['timestamp']. *)
Record Sequence : Type := mkSequence {
  seq_messages : list (Z * Dict);
  seq_sender_id : string;
  session_start : Z
}.

(** What a stage contributed to the evidence. *)
Inductive stage_output : Type :=
| DetectorEvidence (e : Dict)
| AnalyzerContext (c : Dict)
| TransformOutput (t : Dict).

(** The dictionary built by [_combine_results]. *)
Record Combined : Type := mkCombined {
  c_threat_detected : bool;
  c_confidence : Q;
  c_threat_type : option string;
  c_evidence : gmap string stage_output
}.

(** [class DetectionResponse(BaseModel)] *)
Record DetectionResponse : Type := mkDetectionResponse {
  status : string;
  r_threat_detected : bool;
  r_confidence : Q;
  r_threat_type : option string;
  recommendations : list string;
  r_timestamp : Z
}.

(** [ApiGateway._combine_results] *)
Definition _combine_results (config : Config) (detection : DetectionResult)
    (analysis : AnalysisResult) (transform : Dict) : Combined :=
  mkCombined
    (threat_detected detection
     || py_gt (anomaly_score analysis) (threat_threshold config))
    (py_max (confidence detection) (anomaly_score analysis))
    (py_or (threat_type detection) (anomaly_type analysis))
    {[ "detection" := DetectorEvidence (evidence detection);
       "analysis" := AnalyzerContext (context_analysis analysis);
       "transform" := TransformOutput transform ]}.

(** The float that the literal [0.9] denotes. *)
Definition float_0_9 : Q := 8106479329266893 # 9007199254740992.

(** [ApiGateway._generate_recommendations] *)
Definition _generate_recommendations (config : Config) (result : Combined)
  : list string :=
  if c_threat_detected result then
    (if py_gt (c_confidence result) float_0_9
     then ["URGENT: Immediate action required"] else [])
    ++ match c_threat_type result with
       | Some t => default [] (recommendation_templates config !! t)
       | None => []
       end
  else [].

(** [ApiGateway._create_response] on a dictionary. *)
Definition _create_response (config : Config) (now : Z) (result : Combined)
  : DetectionResponse :=
  mkDetectionResponse "success" (c_threat_detected result)
    (c_confidence result) (c_threat_type result)
    (_generate_recommendations config result) now.

(** [ApiGateway._prepare_sequence]: the session is created on first use and
    loses its oldest message when it holds more than
    [max_sequence_length]. *)
Definition _prepare_sequence (config : Config) (now : Z) (sender : string)
    (sessions : gmap string Session) : Sequence * gmap string Session :=
  let session := default (mkSession [] now) (sessions !! sender) in
  let msgs :=
    if max_sequence_length config <? Z.of_nat (length (session_messages session))
    then tail (session_messages session) else session_messages session in
  (mkSequence msgs sender
     match msgs with
     | (t, _) :: _ => t
     | [] => now
     end,
   <[sender := mkSession msgs (last_update session)]> sessions).

Section Pipeline.

(** The three scoring oracles handed to [ApiGateway.__init__]. *)
Variable detector : V2IMessage -> DetectionResult.
Variable analyzer : DetectionResult -> V2IMessage -> AnalysisResult.
Variable transformer : Sequence -> Dict.

(** Which stages run for a message. *)
Definition analyzer_runs (config : Config) (message : V2IMessage) : bool :=
  py_gt (confidence (detector message)) (analysis_threshold config).

Definition transformer_runs (config : Config) (message : V2IMessage) : bool :=
  analyzer_runs config message
  && py_gt (anomaly_score (analyzer (detector message) message))
       (transform_threshold config).

(** [ApiGateway._process_single_message].  When a stage is skipped the
    method hands the [DetectionResult] object itself to [_create_response],
    which subscripts it: a dataclass instance is not subscriptable. *)
Definition _process_single_message (config : Config) (now : Z)
    (message : V2IMessage) (sessions : gmap string Session)
  : outcome (Combined * DetectionResponse) * gmap string Session :=
  let detection_result := detector message in
  if py_gt (confidence detection_result) (analysis_threshold config) then
    let analysis_result := analyzer detection_result message in
    if py_gt (anomaly_score analysis_result) (transform_threshold config) then
      let '(sequence, sessions') :=
        _prepare_sequence config now (sender_id message) sessions in
      let transform_result := transformer sequence in
      let final_result :=
        _combine_results config detection_result analysis_result
          transform_result in
      (Returned (final_result, _create_response config now final_result),
       sessions')
    else (Raised TypeError, sessions)
  else (Raised TypeError, sessions).

End Pipeline.

(** *** The combination rule in the words of the specification *)

(** "threatType from detector if present else from analyzer's
    classification"; a type is present when it is a non-empty string. *)
Definition spec_threat_type (detector_type analyzer_type : option string)
  : option string :=
  match detector_type with
  | Some s => if decide (s = "") then analyzer_type else Some s
  | None => analyzer_type
  end.

(** "threatDetected = detectorSaysThreat OR anomalyScore > threatThreshold" *)
Definition spec_threat_detected (detector_says_threat : bool)
    (anomaly_score threat_threshold : Q) : Prop :=
  detector_says_threat = true \/ (threat_threshold < anomaly_score)%Q.

(** An escalating message of the specification's scenario: the detector
    reports 0.8, the analyzer 0.9. *)
Definition scenario_config : Config :=
  mkConfig (75 # 100) (85 # 100) (5 # 10) 50 ∅.

Definition scenario_message : V2IMessage :=
  mkV2IMessage "m-1" "VEH_1" "position_update" 0 "medium" ∅ None.

Definition scenario_detector (m : V2IMessage) : DetectionResult :=
  mkDetectionResult 0 true (8 # 10) (Some "position_spoofing")
    [sender_id m] {[ "threat_probability" := "0.8" ]} "".

Definition scenario_analyzer (d : DetectionResult) (m : V2IMessage)
  : AnalysisResult :=
  mkAnalysisResult 0 (9 # 10) (Some "temporal") (9 # 10) ∅ ∅ ∅
    {[ "network_state" := "congested" ]}.

Definition scenario_transformer (s : Sequence) : Dict :=
  {[ "classification" := "attack" ]}.

End ApiGateway.

(** ** analyzer.py *)

Module Analyzer.

Local Open Scope Q_scope.

(** Scores are Python floats; the arithmetic of the analyzer is modelled in
    exact rationals, that is, up to the rounding of each float operation. *)

Definition Qsum (l : list Q) : Q := fold_right Qplus 0 l.

(** [np.mean] *)
Definition np_mean (l : list Q) : Q := Qsum l / inject_Z (Z.of_nat (length l)).

(** [np.var]: the mean of the squared deviations from the mean. *)
Definition np_var (l : list Q) : Q :=
  np_mean (map (fun x => (x - np_mean l) * (x - np_mean l)) l).

Definition np_maximum (a b : Q) : Q := if Qle_bool a b then b else a.
Definition np_minimum (a b : Q) : Q := if Qle_bool a b then a else b.

(** [np.clip(x, lo, hi)] is [minimum(maximum(x, lo), hi)]. *)
Definition np_clip (x lo hi : Q) : Q := np_minimum (np_maximum x lo) hi.

Fixpoint dot (xs ws : list Q) : Q :=
  match xs, ws with
  | x :: xs', w :: ws' => x * w + dot xs' ws'
  | _, _ => 0
  end.

(** [np.average(a, weights=w)] without an axis: a [TypeError] when the two
    shapes differ. *)
Definition np_average (xs ws : list Q) : outcome Q :=
  if Nat.eqb (length xs) (length ws)
  then Returned (dot xs ws / Qsum ws)
  else Raised TypeError.


(** The keys that [_calculate_temporal_factor] looks for, each with the
    name of the method that it applies to the entry, in the order of the
    [if]s. *)
Definition temporal_methods : list (string * string) :=
  [("periodicity", "_evaluate_periodicity");
   ("trend", "_evaluate_trend");
   ("seasonality", "_evaluate_seasonality")].

(** The same for [_calculate_context_factor]. *)
Definition context_methods : list (string * string) :=
  [("environmental_factors", "_evaluate_environmental_impact");
   ("network_state", "_evaluate_network_impact");
   ("threat_context", "_evaluate_threat_impact");
   ("historical_context", "_evaluate_historical_impact")].

(** Attribute lookup [self.<name>] for those seven names.  The body of
    [class DataAnalyzer] (lines 48 to 527) defines none of them, the class
    has no base class and [__init__] sets no attribute of such a name, and
    no other file of the repository defines them: every lookup fails. *)
Definition getattr {V : Type} (name : string) : option (V -> Q) := None.

(** [if key in d: scores.append(self.method(d[key]))], one key after the
    other.  The method is looked up on the analyzer only when the key is
    present, and a failing lookup raises [AttributeError]. *)
Fixpoint evaluate_present {V : Type} (lookup : string -> option (V -> Q))
    (d : gmap string V) (entries : list (string * string))
  : outcome (list Q) :=
  match entries with
  | [] => Returned []
  | (key, method) :: entries' =>
      match d !! key with
      | None => evaluate_present lookup d entries'
      | Some value =>
          match lookup method with
          | None => Raised AttributeError
          | Some evaluate =>
              match evaluate_present lookup d entries' with
              | Returned scores => Returned (evaluate value :: scores)
              | Raised e => Raised e
              | Suspended => Suspended
              end
          end
      end
  end.

(** Whether a dictionary holds one of the keys looked for. *)
Definition has_entry {V : Type} (d : gmap string V)
    (entries : list (string * string)) : bool :=
  existsb (fun entry => bool_decide (is_Some (d !! entry.1))) entries.

(** Whether a lookup finds every method of the list. *)
Definition defines {V : Type} (lookup : string -> option (V -> Q))
    (entries : list (string * string)) : bool :=
  forallb (fun entry => bool_decide (is_Some (lookup entry.2))) entries.

Section Oracles.

(** The feature vector and the label ([1] or [-1]) that
    [IsolationForest.fit_predict] gives it. *)
Variable Features : Type.
Variable fit_predict : Features -> Z.

(** The values of the pattern and context dictionaries. *)
Variable Pattern : Type.
Variable Context : Type.

(** [DataAnalyzer._calculate_feature_based_score] *)
Definition _calculate_feature_based_score (features : Features) : Q :=
  1 - (inject_Z (fit_predict features) + 1) / 2.

(** [DataAnalyzer._calculate_temporal_factor], for a given attribute
    lookup. *)
Definition _calculate_temporal_factor_with
    (lookup : string -> option (Pattern -> Q))
    (temporal_patterns : gmap string Pattern) : outcome Q :=
  match evaluate_present lookup temporal_patterns temporal_methods with
  | Returned [] => Returned 0
  | Returned scores => Returned (np_mean scores)
  | Raised e => Raised e
  | Suspended => Suspended
  end.

(** [DataAnalyzer._calculate_temporal_factor] as the class defines it. *)
Definition _calculate_temporal_factor
    (temporal_patterns : gmap string Pattern) : outcome Q :=
  _calculate_temporal_factor_with getattr temporal_patterns.

(** [DataAnalyzer._calculate_spatial_factor] *)
Definition _calculate_spatial_factor (spatial_correlations : gmap string Q) : Q :=
  let values := (map_to_list spatial_correlations).*2 in
  match values with
  | [] => 0
  | _ =>
      let avg_correlation := np_mean values in
      let correlation_var := np_var values in
      np_clip ((1 - avg_correlation) * (1 + correlation_var)) 0 1
  end.

(** [DataAnalyzer._calculate_context_factor], for a given attribute
    lookup. *)
Definition _calculate_context_factor_with
    (lookup : string -> option (Context -> Q))
    (context : gmap string Context) : outcome Q :=
  match evaluate_present lookup context context_methods with
  | Returned [] => Returned 0
  | Returned factors => np_average factors [3 # 10; 2 # 10; 3 # 10; 2 # 10]
  | Raised e => Raised e
  | Suspended => Suspended
  end.

(** [DataAnalyzer._calculate_context_factor] as the class defines it. *)
Definition _calculate_context_factor (context : gmap string Context)
  : outcome Q :=
  _calculate_context_factor_with getattr context.

(** [DataAnalyzer._calculate_anomaly_score], for given attribute lookups.
    The four factors are computed in the order of the statements, and an
    exception in one of them ends the call. *)
Definition _calculate_anomaly_score_with
    (pattern_lookup : string -> option (Pattern -> Q))
    (context_lookup : string -> option (Context -> Q))
    (features : Features)
    (temporal_patterns : gmap string Pattern)
    (spatial_correlations : gmap string Q)
    (context : gmap string Context) : outcome Q :=
  let base_score := _calculate_feature_based_score features in
  match _calculate_temporal_factor_with pattern_lookup temporal_patterns with
  | Returned temporal_factor =>
      let spatial_factor := _calculate_spatial_factor spatial_correlations in
      match _calculate_context_factor_with context_lookup context with
      | Returned context_factor =>
          let final_score :=
            (4 # 10) * base_score + (3 # 10) * temporal_factor
            + (2 # 10) * spatial_factor + (1 # 10) * context_factor in
          Returned (np_clip final_score 0 1)
      | Raised e => Raised e
      | Suspended => Suspended
      end
  | Raised e => Raised e
  | Suspended => Suspended
  end.

(** [DataAnalyzer._calculate_anomaly_score] as the class defines it. *)
Definition _calculate_anomaly_score (features : Features)
    (temporal_patterns : gmap string Pattern)
    (spatial_correlations : gmap string Q)
    (context : gmap string Context) : outcome Q :=
  _calculate_anomaly_score_with getattr getattr features temporal_patterns
    spatial_correlations context.

End Oracles.

(** *** The score in the words of the specification *)

(** "clipped to [0,1]" *)
Definition clipped_to_unit (x : Q) : Q :=
  if Qlt_le_dec x 0 then 0 else if Qlt_le_dec 1 x then 1 else x.

(** "fixed weights 0.4 base + 0.3 temporal + 0.2 spatial + 0.1 context,
    clipped to [0,1]" *)
Definition spec_anomaly_score (base temporal spatial context : Q) : Q :=
  clipped_to_unit
    ((4 # 10) * base + (3 # 10) * temporal + (2 # 10) * spatial
     + (1 # 10) * context).

(** *** Scenarios *)

(** The isolation forest labels every sample -1: base score 1. *)
Definition outlier (features : unit) : Z := (-1)%Z.

(** A lookup that finds, under every name, a method answering 1/2: the
    class with its seven evaluation methods filled in. *)
Definition completed (name : string) : option (unit -> Q) :=
  Some (fun _ => 1 # 2).

(** The dictionaries that [analyze_detection] passes on for a node with
    history: the patterns of [_analyze_temporal_patterns], one neighbour,
    and the four entries of [_analyze_context]. *)
Definition patterns : gmap string unit :=
  {[ "periodicity" := tt; "trend" := tt; "seasonality" := tt;
     "anomaly_scores" := tt ]}.

Definition neighbours : gmap string Q := {[ "RSU_1" := 1 # 2 ]}.

Definition full_context : gmap string unit :=
  {[ "environmental_factors" := tt; "network_state" := tt;
     "threat_context" := tt; "historical_context" := tt ]}.

End Analyzer.

(** ** message_queue.py: the sweeps and the latency window *)

Module QueueMaintenance.
Import MessageQueue.

(** A sequence of calls of [QueueStats.update_processing_time]. *)
Definition record_times (durations : list Z) (s : QueueStats) : QueueStats :=
  foldl (fun s d => update_processing_time d s) s durations.

(** [timedelta(hours=1)] in microseconds. *)
Definition one_hour : Z := 3600000000.

(** [list(self.message_states.items())].  A Python dictionary yields its
    keys in insertion order, which the finite map does not record: the
    order is the argument [order]. *)
Definition items (order : list string) (ms : gmap string MessageState)
  : list (string * MessageState) :=
  omap (fun k => (fun s => (k, s)) <$> ms !! k) order.

(** [del self.messages[message_id]] followed by
    [del self.message_states[message_id]]: each raises [KeyError] on a key
    that is absent. *)
Definition forget (message_id : string) (q : PriorityMessageQueue)
  : outcome unit * PriorityMessageQueue :=
  match messages q !! message_id with
  | None => (Raised KeyError, q)
  | Some _ =>
      let q1 :=
        mkPMQ (max_size q) (max_retries q) (processing_timeout q)
          (batch_size q) (queues q) (delete message_id (messages q))
          (message_states q) (stats q) in
      match message_states q1 !! message_id with
      | None => (Raised KeyError, q1)
      | Some _ =>
          (Returned tt,
           mkPMQ (max_size q1) (max_retries q1) (processing_timeout q1)
             (batch_size q1) (queues q1) (messages q1)
             (delete message_id (message_states q1)) (stats q1))
      end
  end.

(** The first loop of [_cleanup_loop]: completed messages whose end stamp
    is before the cutoff are forgotten.  [None < datetime] raises
    [TypeError]. *)
Fixpoint purge_completed (snapshot : list (string * MessageState))
    (completed_cutoff : Z) (q : PriorityMessageQueue)
  : outcome unit * PriorityMessageQueue :=
  match snapshot with
  | [] => (Returned tt, q)
  | (message_id, state) :: snapshot' =>
      if decide (state = COMPLETED) then
        match messages q !! message_id with
        | None => (Raised KeyError, q)
        | Some message =>
            match processing_completed message with
            | None => (Raised TypeError, q)
            | Some completed =>
                if completed <? completed_cutoff then
                  match forget message_id q with
                  | (Returned _, q') =>
                      purge_completed snapshot' completed_cutoff q'
                  | r => r
                  end
                else purge_completed snapshot' completed_cutoff q
            end
        end
      else purge_completed snapshot' completed_cutoff q
  end.

(** The second loop of [_cleanup_loop]: messages that have been processing
    since before the cutoff are failed with the reason
    ["Processing timeout"]. *)
Fixpoint fail_stuck (snapshot : list (string * MessageState))
    (processing_cutoff : Z) (q : PriorityMessageQueue)
  : outcome unit * PriorityMessageQueue :=
  match snapshot with
  | [] => (Returned tt, q)
  | (message_id, state) :: snapshot' =>
      if decide (state = PROCESSING) then
        match messages q !! message_id with
        | None => (Raised KeyError, q)
        | Some message =>
            match processing_started message with
            | None => (Raised TypeError, q)
            | Some started =>
                if started <? processing_cutoff then
                  match mark_failed message_id "Processing timeout" q with
                  | (Returned _, q') =>
                      fail_stuck snapshot' processing_cutoff q'
                  | r => r
                  end
                else fail_stuck snapshot' processing_cutoff q
            end
        end
      else fail_stuck snapshot' processing_cutoff q
  end.

(** One pass of the body of [_cleanup_loop], up to the [sleep].  An
    exception is caught by the loop, which logs it and goes on after five
    seconds with the state as it is then. *)
Definition cleanup_pass (order : list string) (now : Z)
    (q : PriorityMessageQueue) : outcome unit * PriorityMessageQueue :=
  match purge_completed (items order (message_states q)) (now - one_hour) q with
  | (Returned _, q1) =>
      fail_stuck (items order (message_states q1))
        (now - 1000000 * processing_timeout q1) q1
  | r => r
  end.

(** A completed message that the retention sweep removes. *)
Definition expired (cutoff : Z) (q : PriorityMessageQueue) (x : string) : bool :=
  match message_states q !! x, messages q !! x with
  | Some COMPLETED, Some m =>
      match processing_completed m with
      | Some completed => completed <? cutoff
      | None => false
      end
  | _, _ => false
  end.

(** A message that has been processing since before the cutoff. *)
Definition stuck (cutoff : Z) (q : PriorityMessageQueue) (x : string) : bool :=
  match message_states q !! x, messages q !! x with
  | Some PROCESSING, Some m =>
      match processing_started m with
      | Some started => started <? cutoff
      | None => false
      end
  | _, _ => false
  end.

(** The two tracking dictionaries have the same keys. *)
Definition tracked_agree (q : PriorityMessageQueue) : Prop :=
  forall x, messages q !! x = None <-> message_states q !! x = None.

(** A message that is COMPLETED carries its end stamp, a message that is
    PROCESSING carries its start stamp, and a message that is PENDING has
    never been taken. *)
Definition stamps_agree (q : PriorityMessageQueue) : Prop :=
  forall x m, messages q !! x = Some m ->
    (message_states q !! x = Some COMPLETED ->
       is_Some (processing_completed m))
    /\ (message_states q !! x = Some PROCESSING ->
          is_Some (processing_started m))
    /\ (message_states q !! x = Some PENDING -> processing_started m = None).

(** The number of entries in the four queues. *)
Definition depth (q : PriorityMessageQueue) : nat := length (queued q).

(** No bounded queue holds more than [max_size] entries. *)
Definition within_capacity (q : PriorityMessageQueue) : Prop :=
  0 < max_size q ->
  forall p, Z.of_nat (length (queues q p)) <= max_size q.

(** The messages counted per priority class. *)
Definition counted_by_priority (s : QueueStats) : Z :=
  foldr Z.add 0 (map (dd_get (priority_counts s)) all_priorities).

(** What call sequences with fresh identifiers keep, besides [wf]. *)
Record sound (q : PriorityMessageQueue) : Prop := mk_sound {
  sound_times : (length (processing_times (stats q)) <= 1000)%nat;
  sound_capacity : within_capacity q;
  sound_stamps : stamps_agree q;
  sound_priorities : counted_by_priority (stats q) = total_received (stats q)
}.

(** [order] lists the keys of [message_states], each once; a key that is
    not in the dictionary is skipped by [items]. *)
Definition lists_keys (order : list string) (q : PriorityMessageQueue) : Prop :=
  NoDup order /\ dom (message_states q) ⊆ (list_to_set order : gset string).

(** The states a timed out message is left in. *)
Definition failed_or_retrying (q : PriorityMessageQueue) (x : string) : Prop :=
  message_states q !! x = Some RETRYING \/ message_states q !! x = Some FAILED.

(** Every class has room for [n] more entries. *)
Definition room (n : nat) (q : PriorityMessageQueue) : Prop :=
  max_size q <= 0
  \/ forall p, Z.of_nat (length (queues q p) + n) <= max_size q.

(** The calls [mark_failed] that the second loop of [_cleanup_loop] makes:
    one for each stuck message of the snapshot, in the order of the
    snapshot. *)
Definition timeouts (cutoff : Z) (q : PriorityMessageQueue)
    (snapshot : list (string * MessageState)) : list op :=
  map (fun x => MarkFailed x "Processing timeout")
    (filter (fun x => stuck cutoff q x = true) snapshot.*1).

(** A queue of capacity one per class, holding one LOW message. *)
Definition one_slot_taken : PriorityMessageQueue :=
  after FreshIds [Enqueue "7090113732254520430" ∅ LOW 0] (init 1 3 30 10).

(** The priority classes that [dequeue] visits after class [p]. *)
Definition classes_after (p : MessagePriority) : list MessagePriority :=
  filter (fun p' => value p < value p') all_priorities.

(** Two messages taken by workers, the HIGH one at 10 microseconds and the
    MEDIUM one at 40 seconds. *)
Definition two_taken : PriorityMessageQueue :=
  after Worker
    [Enqueue "7090113732254520430" ∅ MEDIUM 0;
     Enqueue "1215047144078695196" ∅ HIGH 1;
     Dequeue 10;
     Dequeue 40000000]
    init_default.

(** A message that failed once, was queued again and was then reported as
    completed while it waited for its second attempt. *)
Definition completed_while_waiting : list op :=
  [Enqueue "7090113732254520430" ∅ MEDIUM 0;
   Dequeue 10;
   MarkFailed "7090113732254520430" "oracle error";
   MarkCompleted "7090113732254520430" 25].

(** The same queue two hours later: the retention sweep has run, and a
    second MEDIUM message has arrived. *)
Definition stale_then_fresh : PriorityMessageQueue :=
  let q0 := after FreshIds completed_while_waiting init_default in
  let q1 := (cleanup_pass ["7090113732254520430"] 7200000000 q0).2 in
  (enqueue "8215047144078695196" ∅ MEDIUM 7200000001 q1).2.

End QueueMaintenance.

(** ** message_handler.py: the functions after the validator class, the
    security validator and the processor *)

Module MessageRouting.
Import MessageHandler.

(** *** The constraint functions of the module (lines 139 to 256) *)

(** A value of a message dictionary that may itself be a dictionary, as
    [message['parameters']] is expected to be. *)
Inductive field : Type :=
| Scalar (v : pyvalue)
| Mapping (d : gmap string pyvalue).

Definition Command : Type := gmap string field.

(** Python's chained comparison [lo < x <= hi] on a message value. *)
Definition above_upto (lo hi : Q) (x : pyvalue) : outcome bool :=
  match x with
  | PyNum n => Returned (negb (Qle_bool n lo) && Qle_bool n hi)
  | _ => Raised TypeError
  end.

(** [message[key]]: a missing key raises [KeyError]. *)
Definition subscript {V : Type} (message : gmap string V) (key : string)
  : outcome V :=
  match message !! key with
  | Some v => Returned v
  | None => Raised KeyError
  end.

Section Rendering.

Variable fmt_value : pyvalue -> string.
Variable fmt_field : field -> string.
Variable fmt_optional : option pyvalue -> string.

(** [_validate_traffic_constraints] (lines 165 to 183). *)
Definition _validate_traffic_constraints (message : Message) : outcome verdict :=
  match subscript message "congestion_level" with
  | Returned congestion_level =>
      match between 0 100 congestion_level with
      | Returned false =>
          Returned (false, "Invalid congestion level: "
                           +:+ fmt_value congestion_level)
      | Returned true =>
          match subscript message "average_speed" with
          | Returned average_speed =>
              match between 0 200 average_speed with
              | Returned false =>
                  Returned (false, "Invalid average speed: "
                                   +:+ fmt_value average_speed)
              | Returned true =>
                  match message !! "segment_length" with
                  | Some segment_length =>
                      match above_upto 0 10000 segment_length with
                      | Returned false =>
                          Returned (false, "Invalid segment length: "
                                           +:+ fmt_value segment_length)
                      | Returned true => Returned (true, "")
                      | Raised e => Raised e
                      | Suspended => Suspended
                      end
                  | None => Returned (true, "")
                  end
              | Raised e => Raised e
              | Suspended => Suspended
              end
          | Raised e => Raised e
          | Suspended => Suspended
          end
      | Raised e => Raised e
      | Suspended => Suspended
      end
  | Raised e => Raised e
  | Suspended => Suspended
  end.

(** [valid_commands] of [_validate_control_constraints]. *)
Definition valid_commands : list string :=
  ["SPEED_LIMIT"; "LANE_CHANGE"; "ROUTE_CHANGE"; "STOP"].

(** [x in valid_commands] and [x == 'SPEED_LIMIT']: only a string equals a
    string. *)
Definition is_string (x : field) (s : string) : bool :=
  match x with
  | Scalar (PyStr s') => String.eqb s' s
  | _ => false
  end.

Definition is_valid_command (x : field) : bool :=
  existsb (is_string x) valid_commands.

(** [params.get(key, fallback)]: only a dictionary has the method. *)
Definition get (params : field) (key : string) (fallback : pyvalue)
  : outcome pyvalue :=
  match params with
  | Mapping d => Returned (default fallback (d !! key))
  | Scalar _ => Raised AttributeError
  end.

(** [params.get(key)], whose default is [None]. *)
Definition get_optional (params : field) (key : string)
  : outcome (option pyvalue) :=
  match params with
  | Mapping d => Returned (d !! key)
  | Scalar _ => Raised AttributeError
  end.

(** The check of one numeric parameter in [_validate_control_constraints]:
    [if not lo <= params.get(key, fallback) <= hi: return False, f'...']. *)
Definition check_parameter (params : field) (key : string) (fallback : pyvalue)
    (lo hi : Q) (label : string) : outcome verdict :=
  match get params key fallback with
  | Returned x =>
      match between lo hi x with
      | Returned true => Returned (true, "")
      | Returned false =>
          match get_optional params key with
          | Returned shown => Returned (false, label +:+ fmt_optional shown)
          | Raised e => Raised e
          | Suspended => Suspended
          end
      | Raised e => Raised e
      | Suspended => Suspended
      end
  | Raised e => Raised e
  | Suspended => Suspended
  end.

(** [_validate_control_constraints] (lines 236 to 256). *)
Definition _validate_control_constraints (message : Command) : outcome verdict :=
  match subscript message "command_type" with
  | Returned command_type =>
      if negb (is_valid_command command_type) then
        Returned (false, "Invalid command type: " +:+ fmt_field command_type)
      else
        match subscript message "parameters" with
        | Returned params =>
            if is_string command_type "SPEED_LIMIT" then
              check_parameter params "speed" (PyNum (-1)) 0 130
                "Invalid speed limit: "
            else if is_string command_type "LANE_CHANGE" then
              check_parameter params "lane_offset" (PyNum (-4)) (-3) 3
                "Invalid lane offset: "
            else Returned (true, "")
        | Raised e => Raised e
        | Suspended => Suspended
        end
  | Raised e => Raised e
  | Suspended => Suspended
  end.

End Rendering.

(** *** [class SecurityValidator] *)

Record SecurityValidator : Type := mkSecurityValidator {
  trusted_keys : gmap string string;
  revocation_list : gset string;
  threat_patterns : list Message
}.

(** [SecurityValidator.__init__] *)
Definition SecurityValidator_init : SecurityValidator :=
  mkSecurityValidator ∅ ∅ [].

(** Truth value of an [Optional[str]]: [None] and the empty string are
    false. *)
Definition truthy (s : option string) : bool :=
  match s with
  | Some s' => negb (String.eqb s' "")
  | None => false
  end.

(** [SecurityValidator._validate_authentication] *)
Definition _validate_authentication (sv : SecurityValidator)
    (metadata : MessageMetadata) : bool :=
  if decide (sender_id metadata ∈ revocation_list sv) then false
  else if decide (trusted_keys sv !! sender_id metadata = None) then false
  else if negb (truthy (signature metadata)) then false
  else true.

(** A pattern matcher [_match_pattern(message, metadata, pattern)]. *)
Definition matcher : Type :=
  Message -> MessageMetadata -> Message -> outcome bool.

(** Attribute lookup [self._match_pattern]: the class (lines 258 to 321)
    defines [validate_security], [_validate_authentication],
    [_validate_integrity], [_check_attack_patterns] and
    [_check_rate_limits], and has no base class. *)
Definition match_pattern_attribute : option matcher := None.

(** [SecurityValidator._check_attack_patterns], for a given attribute
    lookup: the attribute is read once for every pattern. *)
Fixpoint _check_attack_patterns_with (lookup : option matcher)
    (message : Message) (metadata : MessageMetadata)
    (patterns : list Message) : outcome bool :=
  match patterns with
  | [] => Returned true
  | pattern :: patterns' =>
      match lookup with
      | None => Raised AttributeError
      | Some _match_pattern =>
          match _match_pattern message metadata pattern with
          | Returned true => Returned false
          | Returned false =>
              _check_attack_patterns_with lookup message metadata patterns'
          | Raised e => Raised e
          | Suspended => Suspended
          end
      end
  end.

Definition _check_attack_patterns (sv : SecurityValidator)
    (message : Message) (metadata : MessageMetadata) : outcome bool :=
  _check_attack_patterns_with match_pattern_attribute message metadata
    (threat_patterns sv).

(** [SecurityValidator._check_rate_limits] *)
Definition _check_rate_limits (metadata : MessageMetadata) : bool := true.

Section Oracles.

(** [json.dumps(message, sort_keys=True)], which raises [TypeError] on a
    value it cannot serialize. *)
Variable dumps : Message -> outcome string.

(** [SecurityValidator._validate_integrity]: the digest is computed and
    dropped. *)
Definition _validate_integrity (message : Message)
    (metadata : MessageMetadata) : outcome bool :=
  match dumps message with
  | Returned _ => Returned true
  | Raised e => Raised e
  | Suspended => Suspended
  end.

(** [SecurityValidator.validate_security] *)
Definition validate_security (sv : SecurityValidator) (message : Message)
    (metadata : MessageMetadata) : outcome verdict :=
  if negb (_validate_authentication sv metadata) then
    Returned (false, "Authentication failed")
  else
    match _validate_integrity message metadata with
    | Returned intact =>
        if negb intact then Returned (false, "Integrity check failed")
        else
          match _check_attack_patterns sv message metadata with
          | Returned clean =>
              if negb clean then
                Returned (false, "Suspicious message pattern detected")
              else if negb (_check_rate_limits metadata) then
                Returned (false, "Rate limit exceeded")
              else Returned (true, "")
          | Raised e => Raised e
          | Suspended => Suspended
          end
    | Raised e => Raised e
    | Suspended => Suspended
    end.

(** *** [class MessageProcessor] *)

(** A registered handler; what it does to the world outside the processor
    is not modelled. *)
Definition handler : Type := Message -> MessageMetadata -> outcome unit.

Record MessageProcessor : Type := mkMessageProcessor {
  message_validator : MessageValidator;
  security_validator : SecurityValidator;
  message_handlers : MessageType -> option handler
}.

(** [MessageProcessor.__init__] *)
Definition MessageProcessor_init : MessageProcessor :=
  mkMessageProcessor init_default SecurityValidator_init (fun _ => None).

Variable fmt_age : Z -> string.
Variable fmt_fields : gset string -> string.
Variable fmt_value : pyvalue -> string.
Variable fmt_exn : exn -> string.

(** [MessageProcessor.process_message], for a given attribute lookup of
    the message validator. *)
Definition process_message_with (lookup : string -> option validator)
    (now : Z) (message : Message) (metadata : MessageMetadata)
    (p : MessageProcessor) : outcome verdict * MessageProcessor :=
  let r :=
    validate_message_with fmt_age fmt_fields lookup now message metadata
      (message_validator p) in
  let p1 :=
    mkMessageProcessor r.2 (security_validator p) (message_handlers p) in
  match r.1 with
  | Returned (valid, reason) =>
      if negb valid then
        (Returned (false, "Validation failed: " +:+ reason), p1)
      else
        match validate_security (security_validator p) message metadata with
        | Returned (secure, reason') =>
            if negb secure then
              (Returned (false, "Security check failed: " +:+ reason'), p1)
            else
              match message_handlers p (message_type metadata) with
              | Some handle =>
                  match handle message metadata with
                  | Returned _ =>
                      (Returned (true, "Message processed successfully"), p1)
                  | Raised e =>
                      (Returned (false, "Processing error: " +:+ fmt_exn e), p1)
                  | Suspended => (Suspended, p1)
                  end
              | None => (Returned (false, "No handler for message type"), p1)
              end
        | Raised e => (Raised e, p1)
        | Suspended => (Suspended, p1)
        end
  | Raised e => (Raised e, p1)
  | Suspended => (Suspended, p1)
  end.

(** [MessageProcessor.process_message] with the validator class as it is
    defined. *)
Definition process_message (now : Z) (message : Message)
    (metadata : MessageMetadata) (p : MessageProcessor)
  : outcome verdict * MessageProcessor :=
  process_message_with (getattr fmt_value) now message metadata p.

End Oracles.

(** *** Vocabulary *)

(** What the timing, structure and duplicate checks ask of a message. *)
Definition acceptable (now : Z) (v : MessageValidator) (message : Message)
    (metadata : MessageMetadata) : Prop :=
  (timestamp metadata <= now
   /\ now <= timestamp metadata + 1000 * max_message_age v)
  /\ required_fields (message_type metadata) ⊆ dom message
  /\ forall cached, message_cache v !! message_id metadata = Some cached ->
       cached + 1000000 <= timestamp metadata.

(** The validator after it has accepted a message. *)
Definition remember (metadata : MessageMetadata) (v : MessageValidator)
  : MessageValidator :=
  mkValidator (max_message_age v)
    (<[message_id metadata := timestamp metadata]> (message_cache v)).

(** *** Scenarios *)

(** A rendering of interpolated values that prints nothing. *)
Definition silent {A : Type} (x : A) : string := "".

(** An attribute lookup under which every constraint method exists and is
    the position check. *)
Definition lenient_lookup (fmt_value : pyvalue -> string) (name : string)
  : option validator :=
  Some (_validate_position_constraints fmt_value).

(** A security validator that trusts vehicle VEH_1. *)
Definition trusting : SecurityValidator :=
  mkSecurityValidator {[ "VEH_1" := "key-1" ]} ∅ [].

(** A processor with a handler for position updates. *)
Definition routing : MessageProcessor :=
  mkMessageProcessor init_default trusting
    (fun t => if decide (t = POSITION_UPDATE)
              then Some (fun _ _ => Returned tt) else None).

Definition signed_metadata (message_id : string) (timestamp : Z)
  : MessageMetadata :=
  mkMetadata message_id "VEH_1" timestamp POSITION_UPDATE 3 0
    (Some "signature") None.

(** A speed limit command without its speed. *)
Definition speed_limit_without_speed : Command :=
  {[ "command_type" := Scalar (PyStr "SPEED_LIMIT");
     "parameters" := Mapping ∅;
     "target_id" := Scalar (PyStr "VEH_1") ]}.

(** A traffic report, and one without its congestion level. *)
Definition traffic_report : Message :=
  {[ "road_id" := PyStr "A4"; "congestion_level" := PyNum 40;
     "average_speed" := PyNum 70 ]}.

Definition traffic_report_without_level : Message :=
  {[ "road_id" := PyStr "A4"; "average_speed" := PyNum 70 ]}.

(** An attribute lookup under which the traffic check is the function of
    the module and the other checks accept. *)
Definition traffic_lookup (fmt_value : pyvalue -> string) (name : string)
  : option validator :=
  if String.eqb name "_validate_traffic_constraints"
  then Some (_validate_traffic_constraints fmt_value)
  else Some (fun _ => Returned (true, "")).

Definition traffic_metadata (message_id : string) (timestamp : Z)
  : MessageMetadata :=
  mkMetadata message_id "RSU_1" timestamp TRAFFIC_INFO 3 0 None None.

End MessageRouting.

(** ** api_gateway.py: the request handler and the sessions *)

Module GatewayService.
Import ApiGateway.

(** What a request can raise: an exception of the interpreter,
    [jwt.InvalidTokenError] (or one of its subclasses), or the
    [HTTPException] of FastAPI. *)
Inductive raised : Type :=
| PythonError (e : exn)
| InvalidTokenError
| HTTPException (status_code : Z) (detail : string).

Inductive reply (A : Type) : Type :=
| Answered (a : A)
| Failed (e : raised)
| Waiting.
Arguments Answered {A} a.
Arguments Failed {A} e.
Arguments Waiting {A}.

(** The attributes of the gateway that a request reads or writes. *)
Record Gateway : Type := mkGateway {
  active_sessions : gmap string Session;
  message_queue : list V2IMessage
}.

(** The state [__init__] sets up: no session, an empty queue. *)
Definition Gateway_init : Gateway := mkGateway ∅ [].

(** No session holds a message. *)
Definition no_history (sessions : gmap string Session) : Prop :=
  forall sender session,
    sessions !! sender = Some session -> session_messages session = [].

(** Truth value of [message.signature]. *)
Definition has_signature (message : V2IMessage) : option string :=
  match signature message with
  | Some s => if String.eqb s "" then None else Some s
  | None => None
  end.

Section Service.

Variable detector : V2IMessage -> DetectionResult.
Variable analyzer : DetectionResult -> V2IMessage -> AnalysisResult.
Variable transformer : Sequence -> Dict.

(** [jwt.decode(signature, self.config['jwt_secret'], algorithms=['HS256'])]:
    [None] when the call returns, the exception otherwise. *)
Variable jwt_decode : string -> option raised.

(** [self.system_metrics.update_message_processed()]; the class
    [SystemMetrics] is not part of the sources. *)
Variable update_message_processed : option raised.

(** [str(e)] *)
Variable str : raised -> string.

(** The sessions after a series of requests, each with its clock reading,
    has gone through [_process_single_message]. *)
Fixpoint serve (config : Config) (requests : list (Z * V2IMessage))
    (sessions : gmap string Session) : gmap string Session :=
  match requests with
  | [] => sessions
  | (now, message) :: requests' =>
      serve config requests'
        (_process_single_message detector analyzer transformer config now
           message sessions).2
  end.

(** [ApiGateway._validate_message] *)
Definition _validate_message (message : V2IMessage) : reply unit :=
  match has_signature message with
  | Some s =>
      match jwt_decode s with
      | None => Answered tt
      | Some InvalidTokenError =>
          Failed (HTTPException 401 "Invalid message signature")
      | Some e => Failed e
      end
  | None => Answered tt
  end.

(** The handler of [except Exception as e] in [handle_message]. *)
Definition internal_error {A : Type} (e : raised) : reply A :=
  Failed (HTTPException 500 (str e)).

(** [ApiGateway.handle_message].  The queue of the gateway is unbounded, so
    [put] does not wait. *)
Definition handle_message (config : Config) (now : Z) (message : V2IMessage)
    (g : Gateway) : reply DetectionResponse * Gateway :=
  match _validate_message message with
  | Answered _ =>
      let g1 := mkGateway (active_sessions g) (message_queue g ++ [message]) in
      let r :=
        _process_single_message detector analyzer transformer config now
          message (active_sessions g1) in
      let g2 := mkGateway r.2 (message_queue g1) in
      match r.1 with
      | Returned (_, detection_result) =>
          match update_message_processed with
          | None => (Answered detection_result, g2)
          | Some e => (internal_error e, g2)
          end
      | Raised e => (internal_error (PythonError e), g2)
      | Suspended => (Waiting, g2)
      end
  | Failed e => (internal_error e, g)
  | Waiting => (Waiting, g)
  end.

End Service.

(** *** Scenarios *)

(** A decoder that rejects every token. *)
Definition rejecting (s : string) : option raised := Some InvalidTokenError.

Definition render (e : raised) : string :=
  match e with
  | HTTPException _ detail => detail
  | InvalidTokenError => "invalid token"
  | PythonError _ => "error"
  end.

Definition signed_message : V2IMessage :=
  mkV2IMessage "m-2" "VEH_1" "position_update" 0 "medium" ∅ (Some "token").

(** A detector below the analysis threshold of the scenario. *)
Definition calm_detector (m : V2IMessage) : DetectionResult :=
  mkDetectionResult 0 false (1 # 10) None [] ∅ "".

End GatewayService.

(** ** detector.py: the message buffers, the feature rows and the
    recommendation *)

Module Detector.
Import MessageHandler.

Local Open Scope Q_scope.

(** Scores, frequencies and severities are Python floats, modelled by the
    rationals they denote; the literals are the floats nearest to the
    decimals.  A quotient is the exact one: the float quotient of the
    source can differ from it in the last place, which matters only for a
    frequency that is equal to a threshold. *)
Definition float_0_3 : Q := 5404319552844595 # 18014398509481984.
Definition float_0_6 : Q := 5404319552844595 # 9007199254740992.
Definition float_0_8 : Q := 3602879701896397 # 4503599627370496.
Definition float_0_9 : Q := 8106479329266893 # 9007199254740992.

(** [a > b] on floats that are numbers. *)
Definition gt (a b : Q) : bool := negb (Qle_bool a b).

Section Oracles.

(** The message dictionary and the feature tensor of one message. *)
Variable Msg : Type.
Variable Row : Type.

(** [torch.zeros(self.feature_dim)] *)
Variable zeros : Row.


(** An entry of a message buffer; the time is in microseconds. *)
Record Buffered : Type := mkBuffered {
  b_message : Msg;
  b_metadata : MessageMetadata;
  b_timestamp : Z
}.

(** [class IntrusionDetector]: the attributes that [process_message] and
    [_check_message_flooding] read or write.  A detector is any value of
    the record: what is proved of it holds of every object of the class,
    however it came to its attributes. *)
Record IntrusionDetector : Type := mkDetector {
  feature_dim : Z;
  sequence_length : Z;
  detection_threshold : Q;
  message_buffers : gmap string (list Buffered)
}.

(** [self.message_buffers[sender]] on a [defaultdict(list)]. *)
Definition buffer (d : IntrusionDetector) (sender : string) : list Buffered :=
  default [] (message_buffers d !! sender).







(** [_check_message_flooding]: messages per second over the span of the
    buffer.  A buffer of ten entries or more has a first and a last
    one. *)
Definition _check_message_flooding (sender : string) (d : IntrusionDetector)
  : Q :=
  let recent_messages := buffer d sender in
  if (Z.of_nat (length recent_messages) <? 10)%Z then 0
  else
    match head recent_messages, last recent_messages with
    | Some first, Some final =>
        let time_window :=
          inject_Z (b_timestamp final - b_timestamp first) / 1000000 in
        let msg_frequency :=
          if gt time_window 0
          then inject_Z (Z.of_nat (length recent_messages)) / time_window
          else 0 in
        if gt msg_frequency 100 then float_0_9
        else if gt msg_frequency 50 then float_0_6
        else if gt msg_frequency 20 then float_0_3
        else 0
    | _, _ => 0
    end.

End Oracles.

(** *** The recommendation *)

(** The keys of the table [recommendations]. *)
Definition threat_types : list string :=
  ["position_spoofing"; "message_flooding"; "data_injection";
   "replay_attack"; "impersonation"].

(** The table [recommendations] of [_generate_recommendation]. *)
Definition recommendations (threat_type : string) : option (list string) :=
  if String.eqb threat_type "position_spoofing" then
    Some ["Initiate position verification protocol";
          "Flag vehicle for enhanced monitoring";
          "Request additional position confirmations"]
  else if String.eqb threat_type "message_flooding" then
    Some ["Implement rate limiting for affected node";
          "Temporarily increase message filtering threshold";
          "Monitor network bandwidth consumption"]
  else if String.eqb threat_type "data_injection" then
    Some ["Isolate affected message streams";
          "Increase validation strictness";
          "Deploy additional data sanity checks"]
  else if String.eqb threat_type "replay_attack" then
    Some ["Refresh session keys";
          "Enhance timestamp validation";
          "Monitor message sequence numbers"]
  else if String.eqb threat_type "impersonation" then
    Some ["Initiate node re-authentication";
          "Revoke suspected compromised credentials";
          "Deploy additional identity verification measures"]
  else None.

(** The evidence dictionary, as far as [_generate_recommendation] reads
    it: its values are dictionaries or anything else. *)
Definition Evidence : Type := gmap string MessageRouting.field.

(** [evidence['risk_assessment']['severity']]: a missing key raises
    [KeyError], and a value that is not a dictionary cannot be subscripted
    with a string. *)
Definition severity_of (evidence : Evidence) : outcome pyvalue :=
  match MessageRouting.subscript evidence "risk_assessment" with
  | Returned (MessageRouting.Mapping risk_assessment) =>
      MessageRouting.subscript risk_assessment "severity"
  | Returned (MessageRouting.Scalar _) => Raised TypeError
  | Raised e => Raised e
  | Suspended => Suspended
  end.

(** [severity > bound] for a float [bound]: a value that is not a number
    cannot be compared with a float. *)
Definition exceeds (severity : pyvalue) (bound : Q) : outcome bool :=
  match severity with
  | PyNum s => Returned (gt s bound)
  | _ => Raised TypeError
  end.

(** The second definition of [_generate_recommendation] (lines 383 to
    432), which replaces the first. *)
Definition _generate_recommendation (is_threat : bool)
    (threat_type : option string) (evidence : Evidence) : outcome string :=
  if negb is_threat then
    Returned "No immediate action required. Continue normal monitoring."
  else
    let base_recs :=
      default ["Initiate general security measures"]
        (threat_type ≫= recommendations) in
    match severity_of evidence with
    | Returned severity =>
        match exceeds severity float_0_8 with
        | Returned true =>
            Returned
              (MessageHandler.join
                 (base_recs ++ ["URGENT: Consider immediate node isolation"]))
        | Returned false =>
            match exceeds severity float_0_6 with
            | Returned true =>
                Returned
                  (MessageHandler.join
                     (base_recs ++ ["Increase monitoring frequency"]))
            | Returned false => Returned (MessageHandler.join base_recs)
            | Raised e => Raised e
            | Suspended => Suspended
            end
        | Raised e => Raised e
        | Suspended => Suspended
        end
    | Raised e => Raised e
    | Suspended => Suspended
    end.

(** *** Scenarios *)

Definition vehicle (message_id : string) : MessageMetadata :=
  mkMetadata message_id "VEH_1" 0 POSITION_UPDATE 3 0 None None.


(** A detector whose buffer for VEH_1 holds ten messages, one every
    hundredth of a second. *)
Definition flooded : IntrusionDetector unit :=
  mkDetector unit 64 50 (3 # 4)
    {[ "VEH_1" :=
         map (fun i => mkBuffered unit tt (vehicle "a") (10000 * Z.of_nat i))
           (seq 0 10) ]}.

(** Evidence with a severity of 0.7. *)
Definition grave : Evidence :=
  {[ "risk_assessment" :=
       MessageRouting.Mapping {[ "severity" := PyNum (7 # 10) ]} ]}.

End Detector.

(** * Theorems *)

(** ** Python string order

    [str.__lt__] compares code points lexicographically; on the byte strings
    used here this is [String.compare]. *)

Lemma ascii_compare_refl (a : ascii) : Ascii.compare a a = Eq.
Proof. unfold Ascii.compare. apply N.compare_refl. Qed.

Lemma ascii_compare_lt_trans (a b c : ascii) :
  Ascii.compare a b = Lt -> Ascii.compare b c = Lt -> Ascii.compare a c = Lt.
Proof.
  unfold Ascii.compare. rewrite !N.compare_lt_iff. apply N.lt_trans.
Qed.

Lemma string_compare_refl (s : string) : String.compare s s = Eq.
Proof.
  induction s as [|a s IH]; simpl; [reflexivity|].
  now rewrite ascii_compare_refl.
Qed.

Lemma string_compare_lt_trans (s t u : string) :
  String.compare s t = Lt -> String.compare t u = Lt ->
  String.compare s u = Lt.
Proof.
  revert t u. induction s as [|a s IH]; intros [|b t] [|c u]; simpl;
    try congruence.
  destruct (Ascii.compare a b) eqn:Hab; try congruence;
    destruct (Ascii.compare b c) eqn:Hbc; try congruence; intros Hst Htu.
  - apply Ascii.compare_eq_iff in Hab, Hbc. subst.
    rewrite ascii_compare_refl. eauto.
  - apply Ascii.compare_eq_iff in Hab. subst. now rewrite Hbc.
  - apply Ascii.compare_eq_iff in Hbc. subst. now rewrite Hab.
  - now rewrite (ascii_compare_lt_trans a b c).
Qed.

Lemma string_leb_refl (s : string) : String.leb s s = true.
Proof. unfold String.leb. now rewrite string_compare_refl. Qed.

Lemma string_leb_trans (s t u : string) :
  String.leb s t = true -> String.leb t u = true -> String.leb s u = true.
Proof.
  unfold String.leb.
  destruct (String.compare s t) eqn:Hst; try discriminate;
    destruct (String.compare t u) eqn:Htu; try discriminate; intros _ _.
  - apply String.compare_eq_iff in Hst, Htu. subst.
    now rewrite string_compare_refl.
  - apply String.compare_eq_iff in Hst. subst. now rewrite Htu.
  - apply String.compare_eq_iff in Htu. subst. now rewrite Hst.
  - now rewrite (string_compare_lt_trans s t u).
Qed.


(** ** The priority queue *)

Module QueueProofs.
Import MessageQueue.

Lemma entry_leb_refl (a : entry) : entry_leb a a = true.
Proof.
  unfold entry_leb. rewrite Z.ltb_irrefl. apply string_leb_refl.
Qed.

Lemma entry_leb_trans (a b c : entry) :
  entry_leb a b = true -> entry_leb b c = true -> entry_leb a c = true.
Proof.
  unfold entry_leb.
  destruct (Z.ltb_spec a.1 b.1), (Z.ltb_spec b.1 a.1),
    (Z.ltb_spec b.1 c.1), (Z.ltb_spec c.1 b.1),
    (Z.ltb_spec a.1 c.1), (Z.ltb_spec c.1 a.1);
    try discriminate; try lia; auto.
  apply string_leb_trans.
Qed.

Lemma entry_leb_total (a b : entry) :
  entry_leb a b = false -> entry_leb b a = true.
Proof.
  unfold entry_leb.
  destruct (Z.ltb_spec a.1 b.1), (Z.ltb_spec b.1 a.1);
    try discriminate; try lia; auto.
  intros Hab. destruct (String.leb_total a.2 b.2) as [Hba|Hba]; congruence.
Qed.

Lemma heappop_None (h : list entry) : heappop h = None <-> h = [].
Proof.
  destruct h as [|e h]; simpl; [tauto|].
  split; [|discriminate].
  destruct (heappop h) as [[m r]|]; [|discriminate].
  destruct (entry_leb e m); discriminate.
Qed.

Lemma heappop_Some (h : list entry) (m : entry) (r : list entry) :
  heappop h = Some (m, r) ->
  h ≡ₚ m :: r /\ forall e, e ∈ h -> entry_leb m e = true.
Proof.
  revert m r. induction h as [|e h IH]; intros m r; simpl; [discriminate|].
  destruct (heappop h) as [[m0 r0]|] eqn:Hpop.
  - destruct (IH m0 r0 eq_refl) as [Hperm Hmin].
    destruct (entry_leb e m0) eqn:Hle; intros [= <- <-].
    + split; [reflexivity|].
      intros e' [->|He']%elem_of_cons; [apply entry_leb_refl|].
      eapply entry_leb_trans; eauto.
    + split.
      * rewrite Hperm. apply perm_swap.
      * intros e' [->|He']%elem_of_cons; auto.
        now apply entry_leb_total.
  - apply heappop_None in Hpop. subst h. intros [= <- <-].
    split; [reflexivity|].
    intros e' [->|He']%elem_of_cons; [apply entry_leb_refl|].
    inversion He'.
Qed.

Lemma heappop_elem (h : list entry) (m : entry) (r : list entry) :
  heappop h = Some (m, r) -> m ∈ h.
Proof.
  intros [Hperm _]%heappop_Some. rewrite Hperm. apply list_elem_of_here.
Qed.

(** *** The [defaultdict] counters and the state census *)

Lemma dd_get_add `{Countable K} (d : gmap K Z) (k k' : K) (n : Z) :
  dd_get (dd_add k n d) k' = dd_get d k' + (if decide (k = k') then n else 0).
Proof.
  unfold dd_add, dd_get. rewrite lookup_insert. case_decide; simpl.
  - subst. reflexivity.
  - lia.
Qed.

Lemma count_state_empty (s : MessageState) : count_state s ∅ = 0.
Proof. unfold count_state. rewrite map_filter_empty, map_size_empty. done. Qed.

Lemma count_state_insert_None (s v : MessageState) (x : string)
    (ms : gmap string MessageState) :
  ms !! x = None ->
  count_state s (<[x := v]> ms)
  = count_state s ms + (if decide (v = s) then 1 else 0).
Proof.
  intros Hx. unfold count_state.
  assert (Hf : filter (fun kv : string * MessageState => kv.2 = s) ms !! x = None).
  { apply map_lookup_filter_None. left. done. }
  destruct (decide (v = s)).
  - rewrite map_filter_insert_True by done.
    rewrite map_size_insert_None by done. lia.
  - rewrite map_filter_insert_False by done.
    rewrite map_filter_delete, delete_id by done. lia.
Qed.

Lemma count_state_insert_Some (s v old : MessageState) (x : string)
    (ms : gmap string MessageState) :
  ms !! x = Some old ->
  count_state s (<[x := v]> ms)
  = count_state s ms - (if decide (old = s) then 1 else 0)
    + (if decide (v = s) then 1 else 0).
Proof.
  intros Hx. unfold count_state.
  set (F := filter (fun kv : string * MessageState => kv.2 = s) ms).
  destruct (decide (old = s)) as [Ho|Ho].
  - assert (Hf : F !! x = Some old).
    { apply map_lookup_filter_Some. done. }
    assert (Hpos : (0 < size F)%nat).
    { destruct (decide (size F = 0%nat)) as [Hz|]; [|lia].
      apply map_size_empty_iff in Hz. rewrite Hz in Hf.
      rewrite lookup_empty in Hf. discriminate. }
    destruct (decide (v = s)).
    + rewrite map_filter_insert_True by done.
      rewrite map_size_insert_Some by eauto. unfold F in *. lia.
    + rewrite map_filter_insert_False by done.
      rewrite map_filter_delete. fold F.
      rewrite map_size_delete_Some by eauto. unfold F in *. lia.
  - assert (Hf : F !! x = None).
    { apply map_lookup_filter_None. right. intros y Hy. simpl. congruence. }
    destruct (decide (v = s)).
    + rewrite map_filter_insert_True by done.
      rewrite map_size_insert_None by done. unfold F in *. lia.
    + rewrite map_filter_insert_False by done.
      rewrite map_filter_delete. fold F.
      rewrite delete_id by done. unfold F in *. lia.
Qed.

(** *** What the loop of [dequeue] does when every waiting identifier is
    tracked *)

Lemma dequeue_loop_spec (ps : list MessagePriority) (now : Z)
    (q : PriorityMessageQueue) :
  all_tracked q ->
  ((forall p, p ∈ ps -> queues q p = []) /\ dequeue_loop ps now q = (None, q))
  \/ exists ps1 p ps2 e rest m,
      ps = ps1 ++ p :: ps2
      /\ (forall p', p' ∈ ps1 -> queues q p' = [])
      /\ heappop (queues q p) = Some (e, rest)
      /\ messages q !! e.2 = Some m
      /\ dequeue_loop ps now q
         = (Some (set_processing_started now m),
            set_message e.2 (set_processing_started now m)
              (_update_message_state e.2 PROCESSING (set_queue p rest q))).
Proof.
  intros Htr. induction ps as [|p ps IH]; simpl.
  - left. split; [|reflexivity]. intros p Hp. inversion Hp.
  - destruct (heappop (queues q p)) as [[[v x] rest]|] eqn:Hpop.
    + right. destruct (Htr p (v, x)) as [m Hm].
      { eapply heappop_elem; eauto. }
      exists [], p, ps, (v, x), rest, m. simpl in *.
      rewrite Hm. repeat split; auto. intros p' Hp'. inversion Hp'.
    + apply heappop_None in Hpop.
      destruct IH as [[Hall Heq]|(ps1 & p0 & ps2 & e & rest & m & -> & Hall & Hp & Hm & Heq)].
      * left. split; [|done].
        intros p' [->|Hp']%elem_of_cons; auto.
      * right. exists (p :: ps1), p0, ps2, e, rest, m.
        repeat split; auto.
        intros p' [->|Hp']%elem_of_cons; auto.
Qed.

(** *** The waiting identifiers *)

Lemma elem_of_queued (q : PriorityMessageQueue) (x : string) :
  x ∈ queued q <-> exists p e, e ∈ queues q p /\ e.2 = x.
Proof.
  unfold queued, all_priorities. simpl. rewrite app_nil_r.
  rewrite !elem_of_app, !list_elem_of_fmap. split.
  - intros [(e & -> & He)|[(e & -> & He)|[(e & -> & He)|(e & -> & He)]]]; eauto.
  - intros ([] & e & He & <-); eauto 6.
Qed.

Lemma queued_put (p : MessagePriority) (e : entry) (q : PriorityMessageQueue) :
  queued (set_queue p (queues q p ++ [e]) q) ≡ₚ e.2 :: queued q.
Proof.
  unfold queued, all_priorities.
  destruct p; simpl; rewrite ?fmap_app; simpl; solve_Permutation.
Qed.

Lemma queued_pop (p : MessagePriority) (e : entry) (rest : list entry)
    (q : PriorityMessageQueue) :
  queues q p ≡ₚ e :: rest ->
  queued q ≡ₚ e.2 :: queued (set_queue p rest q).
Proof.
  intros Hp. unfold queued, all_priorities.
  destruct p; simpl; rewrite Hp; simpl; solve_Permutation.
Qed.


(** *** What each call does to the state *)

Ltac qsimpl :=
  cbn [max_size max_retries processing_timeout batch_size queues messages
       message_states stats set_queue set_message set_stats
       _update_message_state set_states incr_total_processed
       incr_total_failed incr_total_retried record_received
       update_processing_time total_received total_processed total_failed
       total_retried processing_times states priority_counts
       id content priority timestamp retries processing_started
       processing_completed error set_processing_started
       set_processing_completed set_error incr_retries fst snd] in *.

Lemma exec_enqueue mid c p now q q' :
  exec (Enqueue mid c p now) q = Some q' ->
  q' = mkPMQ (max_size q) (max_retries q) (processing_timeout q) (batch_size q)
         (fun p' => if decide (p' = p)
                    then queues q p ++ [(value p, mid)] else queues q p')
         (<[mid := mkQueueMessage mid c p now 0 None None None]> (messages q))
         (<[mid := PENDING]> (message_states q))
         (record_received p (stats q)).
Proof.
  unfold exec, enqueue, put, full, finished. qsimpl.
  destruct (_ && _); simpl; intros [= <-]. reflexivity.
Qed.

Lemma exec_mark_completed mid now q q' :
  exec (MarkCompleted mid now) q = Some q' ->
  (messages q !! mid = None /\ q' = q)
  \/ (exists m, messages q !! mid = Some m /\ processing_started m = None
        /\ q' = set_message mid (set_processing_completed now m) q)
  \/ (exists m started, messages q !! mid = Some m
        /\ processing_started m = Some started
        /\ q' = _update_message_state mid COMPLETED
                (set_stats
                   (incr_total_processed
                      (update_processing_time (now - started) (stats q)))
                   (set_message mid (set_processing_completed now m) q))).
Proof.
  unfold exec, mark_completed, finished.
  destruct (messages q !! mid) as [m|] eqn:Hm.
  - destruct (processing_started m) as [st|] eqn:Hst; qsimpl; rewrite Hst;
      simpl; intros [= <-]; right; [right|left]; eauto 6.
  - simpl. intros [= <-]. auto.
Qed.

Lemma exec_mark_failed mid err q q' :
  exec (MarkFailed mid err) q = Some q' ->
  (messages q !! mid = None /\ q' = q)
  \/ (exists m, messages q !! mid = Some m /\ retries m < max_retries q
        /\ let q3 :=
             set_queue (priority m)
               (queues q (priority m) ++ [(value (priority m), mid)])
               (_update_message_state mid RETRYING
                  (set_message mid (incr_retries (set_error err m)) q)) in
           q' = set_stats (incr_total_retried (stats q3)) q3)
  \/ (exists m, messages q !! mid = Some m /\ max_retries q <= retries m
        /\ let q2 :=
             _update_message_state mid FAILED
               (set_message mid (set_error err m) q) in
           q' = set_stats (incr_total_failed (stats q2)) q2).
Proof.
  unfold exec, mark_failed, finished.
  destruct (messages q !! mid) as [m|] eqn:Hm.
  - qsimpl. destruct (Z.ltb_spec (retries m) (max_retries q)).
    + unfold put, full. qsimpl. destruct (_ && _); simpl; [discriminate|].
      intros [= <-]. right. left. exists m. repeat split; auto.
    + simpl. intros [= <-]. right. right. exists m. repeat split; auto.
  - simpl. intros [= <-]. auto.
Qed.

Lemma exec_dequeue now q q' :
  all_tracked q ->
  exec (Dequeue now) q = Some q' ->
  ((forall p, queues q p = []) /\ q' = q)
  \/ exists p e rest m,
       (forall p', value p' < value p -> queues q p' = [])
       /\ heappop (queues q p) = Some (e, rest)
       /\ messages q !! e.2 = Some m
       /\ dequeue now q = (Some (set_processing_started now m), q')
       /\ q' = set_message e.2 (set_processing_started now m)
                 (_update_message_state e.2 PROCESSING (set_queue p rest q)).
Proof.
  intros Htr Hex. unfold exec in Hex.
  destruct (dequeue_loop_spec all_priorities now q Htr)
    as [[Hall Heq]|(ps1 & p & ps2 & e & rest & m & Hps & Hall & Hpop & Hm & Heq)];
    unfold dequeue in *; rewrite Heq in Hex; injection Hex as <-.
  - left. split; [|reflexivity]. intros p. apply Hall.
    unfold all_priorities. destruct p; set_solver.
  - right. exists p, e, rest, m. repeat split; auto.
    intros p' Hlt. apply Hall.
    unfold all_priorities in Hps.
    destruct ps1 as [|a [|b [|c [|d ps1]]]]; simplify_eq/=;
      destruct p'; simpl in Hlt; try lia; set_solver.
Qed.

(** *** Invariants of call sequences with fresh identifiers *)

Lemma census_update (x : string) (new : MessageState) (q : PriorityMessageQueue) :
  (forall s, dd_get (states (stats q)) s = count_state s (message_states q)) ->
  forall s, dd_get (states (stats (_update_message_state x new q))) s
            = count_state s (message_states (_update_message_state x new q)).
Proof.
  intros Hc s. qsimpl.
  destruct (message_states q !! x) as [old|] eqn:Hx.
  - rewrite (count_state_insert_Some s new old) by done.
    rewrite !dd_get_add, Hc.
    repeat case_decide; try congruence; lia.
  - rewrite count_state_insert_None by done.
    rewrite dd_get_add, Hc. repeat case_decide; try congruence; lia.
Qed.

Lemma wf_all_tracked (q : PriorityMessageQueue) : wf q -> all_tracked q.
Proof.
  intros Hwf p e He. destruct (wf_entry q Hwf p e He) as (_ & m & Hm & _).
  eauto.
Qed.

Lemma wf_init (ms mr pt bs : Z) : wf (init ms mr pt bs).
Proof.
  constructor; simpl.
  - intros p e He. inversion He.
  - intros x m Hm. rewrite lookup_empty in Hm. discriminate.
  - intros x. rewrite !lookup_empty. tauto.
  - intros s. rewrite count_state_empty. reflexivity.
Qed.

Lemma wf_set_message (x : string) (m m' : QueueMessage) (q : PriorityMessageQueue) :
  wf q -> messages q !! x = Some m -> id m' = id m -> priority m' = priority m ->
  wf (set_message x m' q).
Proof.
  intros [He Hi Hd Hc] Hm Hid Hpr. constructor; qsimpl; auto.
  - intros p e Hin. destruct (He p e Hin) as (Hv & m0 & Hm0 & Hp0).
    split; [done|]. destruct (decide (x = e.2)) as [->|Hne].
    + rewrite lookup_insert_eq. exists m'. split; [done|]. congruence.
    + rewrite lookup_insert_ne by done. eauto.
  - intros y m0. rewrite lookup_insert. case_decide.
    + intros [= <-]. subst y. rewrite Hid. eauto.
    + eauto.
  - intros y. rewrite lookup_insert. case_decide.
    + subst y. rewrite <- Hd, Hm. split; discriminate.
    + apply Hd.
Qed.

Lemma wf_update_state (x : string) (new : MessageState) (q : PriorityMessageQueue) :
  wf q -> is_Some (messages q !! x) -> wf (_update_message_state x new q).
Proof.
  intros Hwf [m Hm]. pose proof Hwf as [He Hi Hd Hc].
  constructor; [exact He|exact Hi| |apply census_update, Hc].
  intros y. qsimpl. rewrite lookup_insert. case_decide.
  - subst y. rewrite Hm. split; discriminate.
  - apply Hd.
Qed.

Lemma wf_set_stats (s : QueueStats) (q : PriorityMessageQueue) :
  wf q -> states s = states (stats q) -> wf (set_stats s q).
Proof.
  intros [He Hi Hd Hc] Hs. constructor; qsimpl; auto.
  intros s0. rewrite Hs. apply Hc.
Qed.

Lemma wf_set_queue (p : MessagePriority) (h : list entry) (q : PriorityMessageQueue) :
  wf q ->
  (forall e, e ∈ h -> e.1 = value p /\
     exists m, messages q !! e.2 = Some m /\ priority m = p) ->
  wf (set_queue p h q).
Proof.
  intros [He Hi Hd Hc] Hh. constructor; qsimpl; auto.
  intros p' e. case_decide; [subst p'|]; auto.
Qed.

Lemma wf_step (o : op) (q q' : PriorityMessageQueue) :
  wf q -> step FreshIds o q = Some q' -> wf q'.
Proof.
  intros Hwf Hstep. unfold step in Hstep.
  destruct (allowed FreshIds q o) eqn:Hal; [|discriminate].
  destruct o as [mid c p now|now|mid now|mid err].
  - apply bool_decide_eq_true in Hal.
    apply exec_enqueue in Hstep. subst q'.
    destruct Hwf as [He Hi Hd Hc]. constructor; qsimpl.
    + intros p' e Hin.
      assert (Hcase : e = (value p, mid) /\ p' = p \/ e ∈ queues q p').
      { case_decide; [subst p'|]; auto.
        apply elem_of_app in Hin as [Hin|Hin]; auto.
        apply list_elem_of_singleton in Hin. auto. }
      destruct Hcase as [[-> ->]|Hold].
      * split; [done|]. simpl. rewrite lookup_insert_eq. eauto.
      * destruct (He p' e Hold) as (Hv & m0 & Hm0 & Hp0).
        split; [done|]. rewrite lookup_insert_ne by congruence. eauto.
    + intros y m0. rewrite lookup_insert. case_decide.
      * intros [= <-]. done.
      * eauto.
    + intros y. rewrite !lookup_insert. case_decide; [split; discriminate|].
      apply Hd.
    + intros s. apply Hd in Hal.
      rewrite count_state_insert_None by done.
      rewrite dd_get_add, Hc. repeat case_decide; try congruence; lia.
  - apply exec_dequeue in Hstep; [|by apply wf_all_tracked].
    destruct Hstep as [[_ ->]|(p & e & rest & m & _ & Hpop & Hm & _ & ->)];
      [done|].
    apply heappop_Some in Hpop as [Hperm _].
    apply (wf_set_message e.2 m); [|exact Hm|reflexivity|reflexivity].
    apply wf_update_state; [|qsimpl; eauto].
    apply wf_set_queue; [done|].
    intros e' He'. apply (wf_entry q Hwf p e').
    rewrite Hperm. by apply list_elem_of_further.
  - apply exec_mark_completed in Hstep
      as [[_ ->]|[(m & Hm & _ & ->)|(m & st & Hm & _ & ->)]]; [done| |].
    + eapply wf_set_message; eauto.
    + apply wf_update_state; [|qsimpl; rewrite lookup_insert_eq; eauto].
      apply wf_set_stats; [|reflexivity].
      eapply wf_set_message; eauto.
  - apply exec_mark_failed in Hstep
      as [[_ ->]|[(m & Hm & _ & ->)|(m & Hm & _ & ->)]]; [done| |].
    + apply wf_set_stats; [|reflexivity].
      assert (Hwf2 : wf (_update_message_state mid RETRYING
                (set_message mid (incr_retries (set_error err m)) q))).
      { apply wf_update_state; [|qsimpl; rewrite lookup_insert_eq; eauto].
        eapply wf_set_message; eauto. }
      apply wf_set_queue; [done|]. qsimpl.
      intros e [He|He]%elem_of_app.
      * destruct (wf_entry _ Hwf2 (priority m) e He) as (Hv & m0 & Hm0 & Hp0).
        qsimpl. eauto.
      * apply list_elem_of_singleton in He. subst e. simpl.
        rewrite lookup_insert_eq. eauto.
    + apply wf_set_stats; [|reflexivity].
      apply wf_update_state; [|qsimpl; rewrite lookup_insert_eq; eauto].
      eapply wf_set_message; eauto.
Qed.

Lemma step_weaken (o : op) (q q' : PriorityMessageQueue) :
  step Worker o q = Some q' -> step FreshIds o q = Some q'.
Proof.
  unfold step. destruct o; simpl; auto; destruct (is_processing _ _); done.
Qed.

Lemma reachable_weaken (q : PriorityMessageQueue) :
  reachable Worker q -> reachable FreshIds q.
Proof.
  induction 1; [constructor|].
  econstructor; eauto using step_weaken.
Qed.

Lemma reachable_wf (q : PriorityMessageQueue) : reachable FreshIds q -> wf q.
Proof. induction 1; eauto using wf_init, wf_step. Qed.

(** *** Invariants of call sequences that follow the worker protocol *)

Lemma in_flight_insert_Some (x : string) (old new : MessageState)
    (ms : gmap string MessageState) :
  ms !! x = Some old ->
  count_state PENDING (<[x := new]> ms) + count_state PROCESSING (<[x := new]> ms)
  + count_state RETRYING (<[x := new]> ms)
  = count_state PENDING ms + count_state PROCESSING ms + count_state RETRYING ms
    - (match old with COMPLETED | FAILED => 0 | _ => 1 end)
    + (match new with COMPLETED | FAILED => 0 | _ => 1 end).
Proof.
  intros Hx.
  rewrite !(count_state_insert_Some _ new old) by done.
  destruct old, new; repeat case_decide; try congruence; lia.
Qed.

Lemma wf_worker_init (ms mr pt bs : Z) : wf_worker (init ms mr pt bs).
Proof.
  constructor; simpl.
  - intros x. rewrite elem_of_queued. simpl. rewrite lookup_empty.
    split; [intros (p & e & He & _); inversion He|intros [|]; discriminate].
  - unfold queued. simpl. constructor.
  - intros x m Hm. rewrite lookup_empty in Hm. discriminate.
  - unfold in_flight. simpl. rewrite !count_state_empty. reflexivity.
Qed.

Lemma wf_worker_step (o : op) (q q' : PriorityMessageQueue) :
  wf q -> wf_worker q -> step Worker o q = Some q' -> wf_worker q'.
Proof.
  intros Hwf [Hw Hnd Hst Hbal] Hstep. unfold step in Hstep.
  destruct (allowed Worker q o) eqn:Hal; [|discriminate].
  destruct o as [mid c p now|now|mid now|mid err].
  - apply bool_decide_eq_true in Hal.
    apply exec_enqueue in Hstep.
    assert (Hms : message_states q !! mid = None) by (by apply (wf_dom q Hwf)).
    assert (Hq : queued q' ≡ₚ mid :: queued q).
    { subst q'. apply (queued_put p (value p, mid) q). }
    assert (Hnq : mid ∉ queued q).
    { intros Hin. apply Hw in Hin as [Hin|Hin]; congruence. }
    constructor.
    + intros x. rewrite Hq, elem_of_cons, Hw. subst q'. qsimpl.
      rewrite lookup_insert. case_decide; [subst x|]; intuition congruence.
    + rewrite Hq. by constructor.
    + subst q'. qsimpl. intros x m. rewrite !lookup_insert.
      case_decide; [congruence|]. exact (Hst x m).
    + subst q'. unfold in_flight. qsimpl.
      rewrite !count_state_insert_None by done.
      unfold in_flight in Hbal. repeat case_decide; try congruence; lia.
  - apply exec_dequeue in Hstep; [|by apply wf_all_tracked].
    destruct Hstep as [[_ ->]|(p & e & rest & m & _ & Hpop & Hm & _ & Hq')].
    { by constructor. }
    apply heappop_Some in Hpop as [Hperm _].
    assert (Hq : queued q ≡ₚ e.2 :: queued q').
    { subst q'. apply (queued_pop p e rest q Hperm). }
    assert (Hold : message_states q !! e.2 = Some PENDING
                   \/ message_states q !! e.2 = Some RETRYING).
    { apply Hw. rewrite Hq. apply list_elem_of_here. }
    rewrite Hq in Hnd. apply NoDup_cons in Hnd as [Hnq Hnd'].
    constructor.
    + intros x. specialize (Hw x). rewrite Hq, elem_of_cons in Hw.
      subst q'. qsimpl. rewrite lookup_insert.
      case_decide; [subst x|]; intuition congruence.
    + done.
    + subst q'. qsimpl. intros x m0. rewrite !lookup_insert.
      case_decide; [intros [= <-]; eauto|]. exact (Hst x m0).
    + subst q'. unfold in_flight in *. qsimpl.
      destruct Hold as [Hold|Hold];
        rewrite (in_flight_insert_Some _ _ PROCESSING _ Hold); lia.
  - simpl in Hal. apply bool_decide_eq_true in Hal.
    assert (Hnq : mid ∉ queued q).
    { intros Hin. apply Hw in Hin as [Hin|Hin]; congruence. }
    apply exec_mark_completed in Hstep
      as [[_ ->]|[(m & Hm & Hnone & ->)|(m & st & Hm & Hs & ->)]].
    + by constructor.
    + destruct (Hst mid m Hm) as [st Hs]; congruence.
    + constructor.
      * intros x. rewrite (Hw x). qsimpl. rewrite lookup_insert.
        case_decide; [subst x|]; intuition congruence.
      * done.
      * qsimpl. intros x m0. rewrite !lookup_insert.
        case_decide; [intros [= <-] _; qsimpl; rewrite Hs; eauto|].
        exact (Hst x m0).
      * unfold in_flight in *. qsimpl.
        rewrite (in_flight_insert_Some _ _ COMPLETED _ Hal). lia.
  - simpl in Hal. apply bool_decide_eq_true in Hal.
    assert (Hnq : mid ∉ queued q).
    { intros Hin. apply Hw in Hin as [Hin|Hin]; congruence. }
    apply exec_mark_failed in Hstep
      as [[_ ->]|[(m & Hm & _ & Hq')|(m & Hm & _ & Hq')]]; cbv zeta in *.
    + by constructor.
    + assert (Hq : queued q' ≡ₚ mid :: queued q).
      { subst q'.
        apply (queued_put (priority m) (value (priority m), mid)
                 (_update_message_state mid RETRYING
                    (set_message mid (incr_retries (set_error err m)) q))). }
      constructor.
      * intros x. rewrite Hq, elem_of_cons, Hw. subst q'. qsimpl.
        rewrite lookup_insert. case_decide; [subst x|]; intuition congruence.
      * rewrite Hq. by constructor.
      * subst q'. qsimpl. intros x m0. rewrite !lookup_insert.
        case_decide; [intros [= <-] _; qsimpl|]; [|exact (Hst x m0)].
        apply (Hst mid m Hm). congruence.
      * subst q'. unfold in_flight in *. qsimpl.
        rewrite (in_flight_insert_Some _ _ RETRYING _ Hal). lia.
    + constructor.
      * intros x. subst q'. rewrite (Hw x). qsimpl. rewrite lookup_insert.
        case_decide; [subst x|]; intuition congruence.
      * by subst q'.
      * subst q'. qsimpl. intros x m0. rewrite !lookup_insert.
        case_decide; [intros [= <-] _; qsimpl|]; [|exact (Hst x m0)].
        apply (Hst mid m Hm). congruence.
      * subst q'. unfold in_flight in *. qsimpl.
        rewrite (in_flight_insert_Some _ _ FAILED _ Hal). lia.
Qed.

Lemma reachable_wf_worker (q : PriorityMessageQueue) :
  reachable Worker q -> wf_worker q.
Proof.
  induction 1 as [|q q' o Hr IH Hstep]; [apply wf_worker_init|].
  eapply wf_worker_step; eauto.
  apply reachable_wf, reachable_weaken, Hr.
Qed.

Lemma run_reachable (d : discipline) (ops : list op)
    (q q' : PriorityMessageQueue) :
  reachable d q -> run d ops q = Some q' -> reachable d q'.
Proof.
  revert q. induction ops as [|o ops IH]; intros q Hr; simpl.
  - intros [= <-]. exact Hr.
  - destruct (step d o q) as [q1|] eqn:Hstep; [|discriminate].
    apply IH. econstructor; eauto.
Qed.

Lemma value_inj (p p' : MessagePriority) : value p = value p' -> p = p'.
Proof. destruct p, p'; simpl; intros; congruence || lia. Qed.

(** *** C1: order of delivery *)

(** C1, as amended.  In every state reached with fresh identifiers,
    [dequeue] serves the first non-empty class in the order CRITICAL, HIGH,
    MEDIUM, LOW, whatever the arrival order, and the message it returns has
    that priority.  Within the class it returns the message with the
    smallest identifier in string order (the heap order of the tuples
    [(priority.value, message_id)]), not the one that arrived first. *)
Theorem C1_dequeue_order (q : PriorityMessageQueue) (now : Z)
    (p : MessagePriority) :
  reachable FreshIds q ->
  queues q p <> [] ->
  (forall p', value p' < value p -> queues q p' = []) ->
  exists m q',
    dequeue now q = (Some m, q')
    /\ priority m = p
    /\ (value p, id m) ∈ queues q p
    /\ (forall e, e ∈ queues q p -> String.leb (id m) e.2 = true)
    /\ queues q p ≡ₚ (value p, id m) :: queues q' p
    /\ message_states q' !! id m = Some PROCESSING.
Proof.
  intros Hr Hne Hfirst. pose proof (reachable_wf q Hr) as Hwf.
  destruct (exec_dequeue now q (dequeue now q).2 (wf_all_tracked q Hwf) eq_refl)
    as [[Hall _]|(p0 & e & rest & m0 & Hbefore & Hpop & Hm0 & Hdq & Hq')].
  { destruct Hne. apply Hall. }
  assert (Hp : p0 = p).
  { apply value_inj.
    destruct (Z.lt_trichotomy (value p0) (value p)) as [Hlt|[Heq|Hgt]]; [|done|].
    - rewrite (Hfirst p0 Hlt) in Hpop. discriminate.
    - destruct Hne. by apply Hbefore. }
  subst p0.
  destruct (heappop_Some _ _ _ Hpop) as [Hperm Hmin].
  assert (He : e ∈ queues q p) by (rewrite Hperm; apply list_elem_of_here).
  destruct (wf_entry q Hwf p e He) as (Hv & m1 & Hm1 & Hp1).
  assert (m1 = m0) by congruence. subst m1.
  pose proof (wf_id q Hwf _ _ Hm0) as Hid.
  exists (set_processing_started now m0), (dequeue now q).2.
  qsimpl. rewrite Hid.
  assert (Hee : (value p, e.2) = e) by (destruct e; simpl in *; congruence).
  rewrite Hee. repeat split; auto.
  - intros e' He'. specialize (Hmin e' He').
    destruct (wf_entry q Hwf p e' He') as (Hv' & _).
    unfold entry_leb in Hmin. rewrite Hv, Hv', Z.ltb_irrefl in Hmin. exact Hmin.
  - rewrite Hq'. qsimpl. rewrite decide_True by done. exact Hperm.
  - rewrite Hq'. qsimpl. apply lookup_insert_eq.
Qed.

(** A CRITICAL message that arrived after a LOW one is served first. *)
Lemma C1_dequeue_order_witness :
  exists m q',
    dequeue 2 (after FreshIds low_then_critical init_default) = (Some m, q')
    /\ priority m = CRITICAL
    /\ (value CRITICAL, id m)
         ∈ queues (after FreshIds low_then_critical init_default) CRITICAL
    /\ (forall e,
          e ∈ queues (after FreshIds low_then_critical init_default) CRITICAL ->
          String.leb (id m) e.2 = true)
    /\ queues (after FreshIds low_then_critical init_default) CRITICAL
         ≡ₚ (value CRITICAL, id m) :: queues q' CRITICAL
    /\ message_states q' !! id m = Some PROCESSING.
Proof.
  apply (C1_dequeue_order (after FreshIds low_then_critical init_default) 2
           CRITICAL).
  - apply (run_reachable FreshIds low_then_critical init_default);
      [apply reachable_init|vm_compute; reflexivity].
  - vm_compute. discriminate.
  - intros p' Hp'. destruct p'; simpl in Hp'; lia.
Defined.

(** C1 as stated fails: of two LOW messages the second to arrive leaves the
    queue first, because its identifier is the smaller string. *)
Lemma C1_fifo_counterexample :
  exists q m q',
    run FreshIds two_low init_default = Some q
    /\ queues q LOW = [(3, "7090113732254520430"); (3, "1215047144078695196")]
    /\ dequeue 2 q = (Some m, q')
    /\ id m = "1215047144078695196"
    /\ timestamp m = 1.
Proof.
  eexists _, _, _. split; [vm_compute; reflexivity|].
  split; [reflexivity|]. split; [vm_compute; reflexivity|].
  split; reflexivity.
Qed.

(** *** C10: identifiers the queue does not track *)

(** C10.  On an identifier that is not in the message map, [mark_completed]
    and [mark_failed] return without raising and leave the whole queue
    state as it was. *)
Theorem C10_untracked_is_noop (q : PriorityMessageQueue) (mid err : string)
    (now : Z) :
  messages q !! mid = None ->
  mark_completed mid now q = (Returned tt, q)
  /\ mark_failed mid err q = (Returned tt, q).
Proof.
  intros Hm. unfold mark_completed, mark_failed. rewrite Hm. split; reflexivity.
Qed.

Lemma C10_untracked_is_noop_witness :
  mark_completed "42" 5 (after Worker failed_once init_default)
  = (Returned tt, after Worker failed_once init_default)
  /\ mark_failed "42" "oracle error" (after Worker failed_once init_default)
     = (Returned tt, after Worker failed_once init_default).
Proof.
  apply (C10_untracked_is_noop (after Worker failed_once init_default)
           "42" "oracle error" 5).
  vm_compute. reflexivity.
Defined.

(** *** C5: completing a message twice *)

Lemma completed_have_started_step (o : op) (q q' : PriorityMessageQueue) :
  wf q -> completed_have_started q -> step FreshIds o q = Some q' ->
  completed_have_started q'.
Proof.
  intros Hwf Hcs Hstep. unfold step in Hstep.
  destruct (allowed FreshIds q o) eqn:Hal; [|discriminate].
  assert (Hkeep : forall mid new m m',
             messages q !! mid = Some m ->
             processing_started m' = processing_started m ->
             new <> COMPLETED ->
             forall x,
               <[mid := new]> (message_states q) !! x = Some COMPLETED ->
               exists m0 started,
                 <[mid := m']> (messages q) !! x = Some m0
                 /\ processing_started m0 = Some started).
  { intros mid new m m' Hm Hps Hnew x. rewrite !lookup_insert.
    case_decide; [congruence|]. apply Hcs. }
  destruct o as [mid c p now|now|mid now|mid err].
  - apply exec_enqueue in Hstep. subst q'. intros x. qsimpl.
    rewrite !lookup_insert. case_decide; [discriminate|]. apply Hcs.
  - apply exec_dequeue in Hstep; [|by apply wf_all_tracked].
    destruct Hstep as [[_ ->]|(p & e & rest & m & _ & _ & Hm & _ & ->)];
      [done|].
    intros x. qsimpl. rewrite !lookup_insert.
    case_decide; [discriminate|]. apply Hcs.
  - apply exec_mark_completed in Hstep
      as [[_ ->]|[(m & Hm & Hnone & ->)|(m & st & Hm & Hs & ->)]]; [done| |].
    + intros x. qsimpl. rewrite lookup_insert. case_decide; [subst x|apply Hcs].
      intros Hx. destruct (Hcs mid Hx) as (m0 & st & Hm0 & Hst). congruence.
    + intros x. qsimpl. rewrite !lookup_insert.
      case_decide; [|apply Hcs]. intros _. eexists _, st. split; [done|].
      exact Hs.
  - apply exec_mark_failed in Hstep
      as [[_ ->]|[(m & Hm & _ & ->)|(m & Hm & _ & ->)]]; [done| |];
      intros x; qsimpl; by apply (Hkeep mid _ m).
Qed.

Lemma reachable_completed_have_started (q : PriorityMessageQueue) :
  reachable FreshIds q -> completed_have_started q.
Proof.
  induction 1 as [|q q' o Hr IH Hstep].
  - intros x. simpl. rewrite lookup_empty. discriminate.
  - eapply completed_have_started_step; eauto using reachable_wf.
Qed.

Lemma second_mark_completed (q : PriorityMessageQueue) (mid : string)
    (m : QueueMessage) (started now : Z) :
  messages q !! mid = Some m ->
  processing_started m = Some started ->
  message_states q !! mid = Some COMPLETED ->
  exists q',
    mark_completed mid now q = (Returned tt, q')
    /\ message_states q' = message_states q
    /\ (forall s, dd_get (states (stats q')) s = dd_get (states (stats q)) s)
    /\ queues q' = queues q
    /\ total_received (stats q') = total_received (stats q)
    /\ total_failed (stats q') = total_failed (stats q)
    /\ total_retried (stats q') = total_retried (stats q)
    /\ total_processed (stats q') = total_processed (stats q) + 1
    /\ messages q' = <[mid := set_processing_completed now m]> (messages q)
    /\ processing_times (stats q')
       = processing_times
           (update_processing_time (now - started) (stats q)).
Proof.
  intros Hm Hs Hst. eexists. unfold mark_completed. rewrite Hm. qsimpl.
  rewrite Hs. split; [reflexivity|]. qsimpl. rewrite Hst.
  split; [by apply insert_id|].
  split; [|repeat split; reflexivity].
  intros s. rewrite !dd_get_add. repeat case_decide; try congruence; lia.
Qed.

(** C5, as amended.  [mark_completed] does not look at the state of the
    message.  In every state reached with fresh identifiers, called on a
    message that is already COMPLETED it returns normally; the state map,
    the state buckets, the queues and the counters received, failed and
    retried stay as they are, but [total_processed] is incremented once
    more, the end stamp is overwritten and one more duration enters the
    latency window. *)
Theorem C5_second_mark_completed (q : PriorityMessageQueue) (mid : string)
    (now : Z) :
  reachable FreshIds q ->
  message_states q !! mid = Some COMPLETED ->
  exists m started q',
    messages q !! mid = Some m
    /\ processing_started m = Some started
    /\ mark_completed mid now q = (Returned tt, q')
    /\ message_states q' = message_states q
    /\ (forall s, dd_get (states (stats q')) s = dd_get (states (stats q)) s)
    /\ queues q' = queues q
    /\ total_received (stats q') = total_received (stats q)
    /\ total_failed (stats q') = total_failed (stats q)
    /\ total_retried (stats q') = total_retried (stats q)
    /\ total_processed (stats q') = total_processed (stats q) + 1
    /\ messages q' = <[mid := set_processing_completed now m]> (messages q)
    /\ processing_times (stats q')
       = processing_times
           (update_processing_time (now - started) (stats q)).
Proof.
  intros Hr Hst.
  destruct (reachable_completed_have_started q Hr mid Hst)
    as (m & started & Hm & Hs).
  destruct (second_mark_completed q mid m started now Hm Hs Hst) as (q' & H).
  exists m, started, q'. auto.
Qed.

Lemma C5_second_mark_completed_witness :
  exists m started q',
    messages (after FreshIds completed_once init_default)
      !! "7090113732254520430" = Some m
    /\ processing_started m = Some started
    /\ mark_completed "7090113732254520430" 40
         (after FreshIds completed_once init_default) = (Returned tt, q')
    /\ message_states q'
       = message_states (after FreshIds completed_once init_default)
    /\ (forall s, dd_get (states (stats q')) s
                  = dd_get (states (stats (after FreshIds completed_once
                                             init_default))) s)
    /\ queues q' = queues (after FreshIds completed_once init_default)
    /\ total_received (stats q')
       = total_received (stats (after FreshIds completed_once init_default))
    /\ total_failed (stats q')
       = total_failed (stats (after FreshIds completed_once init_default))
    /\ total_retried (stats q')
       = total_retried (stats (after FreshIds completed_once init_default))
    /\ total_processed (stats q')
       = total_processed (stats (after FreshIds completed_once init_default))
         + 1
    /\ messages q'
       = <["7090113732254520430" := set_processing_completed 40 m]>
           (messages (after FreshIds completed_once init_default))
    /\ processing_times (stats q')
       = processing_times
           (update_processing_time (40 - started)
              (stats (after FreshIds completed_once init_default))).
Proof.
  apply (C5_second_mark_completed (after FreshIds completed_once init_default)
           "7090113732254520430" 40).
  - apply (run_reachable FreshIds completed_once init_default);
      [apply reachable_init|vm_compute; reflexivity].
  - vm_compute. reflexivity.
Defined.

(** C5 as stated fails: the second [mark_completed] on a COMPLETED message
    counts it as processed a second time and moves its end stamp. *)
Lemma C5_double_count_counterexample :
  exists q q' m m',
    run Worker completed_once init_default = Some q
    /\ message_states q !! "7090113732254520430" = Some COMPLETED
    /\ total_processed (stats q) = 1
    /\ messages q !! "7090113732254520430" = Some m
    /\ processing_completed m = Some 25
    /\ mark_completed "7090113732254520430" 40 q = (Returned tt, q')
    /\ total_processed (stats q') = 2
    /\ messages q' !! "7090113732254520430" = Some m'
    /\ processing_completed m' = Some 40
    /\ processing_times (stats q') = [15; 30].
Proof.
  eexists _, _, _, _. split; [vm_compute; reflexivity|].
  repeat split; vm_compute; reflexivity.
Qed.

(** *** C4: the census of states and the balance of the counters *)

Lemma census_total (ms : gmap string MessageState) :
  count_state PENDING ms + count_state PROCESSING ms + count_state COMPLETED ms
  + count_state FAILED ms + count_state RETRYING ms
  = Z.of_nat (size ms).
Proof.
  induction ms as [|x s ms Hx IH] using map_ind.
  - rewrite !count_state_empty, map_size_empty. reflexivity.
  - rewrite !count_state_insert_None by done.
    rewrite map_size_insert_None by done.
    destruct s; repeat case_decide; try congruence; lia.
Qed.

Lemma wf_same_size (q : PriorityMessageQueue) :
  wf q -> size (message_states q) = size (messages q).
Proof.
  intros Hwf. rewrite <- !size_dom. f_equal. apply set_eq. intros x.
  rewrite !elem_of_dom, <- !not_eq_None_Some. by rewrite (wf_dom q Hwf x).
Qed.

(** C4, as amended.  In every state reached by calls of [enqueue] with
    fresh identifiers, of [dequeue], of [mark_completed] and of
    [mark_failed] that have all run to their end (no call is left waiting
    in [put] on a full class): the bucket of each state counts exactly the
    tracked messages in that state, so that the five buckets add up to the
    number of tracked messages.  When, moreover, [mark_completed] and
    [mark_failed] are applied only to messages in state PROCESSING,
    [total_received] equals [total_processed] plus [total_failed] plus the
    number of messages that are pending, processing or retrying. *)
Theorem C4_census_and_balance (q : PriorityMessageQueue) :
  (reachable FreshIds q ->
   (forall s, dd_get (states (stats q)) s = count_state s (message_states q))
   /\ dd_get (states (stats q)) PENDING + dd_get (states (stats q)) PROCESSING
      + dd_get (states (stats q)) COMPLETED + dd_get (states (stats q)) FAILED
      + dd_get (states (stats q)) RETRYING
      = Z.of_nat (size (messages q)))
  /\ (reachable Worker q ->
      total_received (stats q)
      = total_processed (stats q) + total_failed (stats q) + in_flight q).
Proof.
  split.
  - intros Hr. pose proof (reachable_wf q Hr) as Hwf.
    split; [apply (wf_census q Hwf)|].
    rewrite !(wf_census q Hwf), census_total. f_equal. by apply wf_same_size.
  - intros Hr. apply (ww_balance q (reachable_wf_worker q Hr)).
Qed.

Lemma C4_census_and_balance_witness :
  let q := after Worker failed_once init_default in
  ((forall s, dd_get (states (stats q)) s = count_state s (message_states q))
   /\ dd_get (states (stats q)) PENDING + dd_get (states (stats q)) PROCESSING
      + dd_get (states (stats q)) COMPLETED + dd_get (states (stats q)) FAILED
      + dd_get (states (stats q)) RETRYING
      = Z.of_nat (size (messages q)))
  /\ total_received (stats q)
     = total_processed (stats q) + total_failed (stats q) + in_flight q.
Proof.
  intros q.
  assert (Hw : reachable Worker q).
  { apply (run_reachable Worker failed_once init_default);
      [apply reachable_init|vm_compute; reflexivity]. }
  destruct (C4_census_and_balance q) as [Hcensus Hbalance].
  split; [apply Hcensus, reachable_weaken, Hw|apply Hbalance, Hw].
Defined.

(** C4 as stated fails.  With a second [mark_completed] on the same message
    one message was received, two are counted as processed and none is in
    flight.  And while an [enqueue] waits in [put] on a full class, its
    message is tracked as PENDING but not counted yet: two messages are
    PENDING, the PENDING bucket holds one, and one message was received
    with two in flight. *)
Lemma C4_balance_counterexample :
  (exists q,
     run FreshIds (completed_once ++ [MarkCompleted "7090113732254520430" 40])
       init_default = Some q
     /\ total_received (stats q) = 1
     /\ total_processed (stats q) = 2
     /\ total_failed (stats q) = 0
     /\ in_flight q = 0
     /\ total_received (stats q)
        <> total_processed (stats q) + total_failed (stats q) + in_flight q)
  /\ (exists q q',
        run FreshIds [Enqueue "7090113732254520430" ∅ LOW 0] (init 1 3 30 10)
        = Some q
        /\ enqueue "1215047144078695196" ∅ LOW 1 q = (Suspended, q')
        /\ count_state PENDING (message_states q') = 2
        /\ dd_get (states (stats q')) PENDING = 1
        /\ total_received (stats q') = 1
        /\ total_processed (stats q') = 0
        /\ total_failed (stats q') = 0
        /\ in_flight q' = 2).
Proof.
  split.
  - eexists. split; [vm_compute; reflexivity|].
    repeat split; try (vm_compute; reflexivity).
    vm_compute. discriminate.
  - eexists _, _. split; [vm_compute; reflexivity|].
    split; [vm_compute; reflexivity|].
    repeat split; vm_compute; reflexivity.
Qed.

(** *** C2: the lifecycle of a message *)

Lemma worker_step_transition (q q' : PriorityMessageQueue) (o : op)
    (x : string) :
  reachable Worker q ->
  step Worker o q = Some q' ->
  match state_of q x, state_of q' x with
  | None, None => True
  | None, Some s' =>
      s' = PENDING /\ (exists c p now, o = Enqueue x c p now)
      /\ retries_of q' x = Some 0
  | Some s, None => False
  | Some s, Some s' => s = s' \/ worker_transition q q' o x s s'
  end.
Proof.
  intros Hr Hstep.
  pose proof (reachable_wf q (reachable_weaken q Hr)) as Hwf.
  pose proof (reachable_wf_worker q Hr) as [Hw Hnd Hst _].
  assert (Hsame : message_states q' !! x = message_states q !! x ->
                  match state_of q x, state_of q' x with
                  | None, None => True
                  | None, Some s' =>
                      s' = PENDING /\ (exists c p now, o = Enqueue x c p now)
                      /\ retries_of q' x = Some 0
                  | Some s, None => False
                  | Some s, Some s' => s = s' \/ worker_transition q q' o x s s'
                  end).
  { unfold state_of. intros ->. destruct (message_states q !! x); auto. }
  unfold step in Hstep.
  destruct (allowed Worker q o) eqn:Hal; [|discriminate].
  destruct o as [mid c p now|now|mid now|mid err].
  - apply bool_decide_eq_true in Hal. apply exec_enqueue in Hstep.
    destruct (decide (mid = x)) as [->|Hne].
    + apply (wf_dom q Hwf) in Hal. unfold state_of, retries_of.
      subst q'. qsimpl. rewrite Hal, !lookup_insert_eq. simpl. eauto 7.
    + apply Hsame. subst q'. qsimpl. by rewrite lookup_insert_ne.
  - apply exec_dequeue in Hstep; [|by apply wf_all_tracked].
    destruct Hstep as [[_ ->]|(p & e & rest & m & _ & Hpop & Hm & Hdq & Hq')];
      [by apply Hsame|].
    destruct (decide (e.2 = x)) as [<-|Hne].
    + apply heappop_Some in Hpop as [Hperm _].
      assert (Hold : message_states q !! e.2 = Some PENDING
                     \/ message_states q !! e.2 = Some RETRYING).
      { apply Hw, elem_of_queued. exists p, e. split; [|done].
        rewrite Hperm. apply list_elem_of_here. }
      assert (Hgoal : (exists now0 m0, Dequeue now = Dequeue now0
                         /\ (dequeue now0 q).1 = Some m0 /\ id m0 = e.2)
                      /\ retries_of q' e.2 = retries_of q e.2).
      { split.
        - exists now, (set_processing_started now m). rewrite Hdq.
          repeat split. qsimpl. by apply (wf_id q Hwf).
        - unfold retries_of. subst q'. qsimpl.
          by rewrite lookup_insert_eq, Hm. }
      unfold state_of. subst q'. qsimpl. rewrite lookup_insert_eq.
      destruct Hold as [-> | ->]; right; exact Hgoal.
    + apply Hsame. subst q'. qsimpl. by rewrite lookup_insert_ne.
  - simpl in Hal. apply bool_decide_eq_true in Hal.
    apply exec_mark_completed in Hstep
      as [[_ ->]|[(m & Hm & Hnone & ->)|(m & st & Hm & Hs & ->)]].
    + by apply Hsame.
    + by apply Hsame.
    + destruct (decide (mid = x)) as [->|Hne].
      * unfold state_of. qsimpl. rewrite Hal, lookup_insert_eq. right.
        unfold worker_transition, retries_of. qsimpl.
        rewrite lookup_insert_eq, Hm. simpl. eauto.
      * apply Hsame. qsimpl. by rewrite lookup_insert_ne.
  - simpl in Hal. apply bool_decide_eq_true in Hal.
    assert (Hnq : mid ∉ queued q).
    { intros Hin. apply Hw in Hin as [Hin|Hin]; congruence. }
    apply exec_mark_failed in Hstep
      as [[_ ->]|[(m & Hm & Hlt & Hq')|(m & Hm & Hge & Hq')]]; cbv zeta in *.
    + by apply Hsame.
    + destruct (decide (mid = x)) as [->|Hne].
      * assert (Hq : x ∈ queued q').
        { subst q'. apply elem_of_queued.
          exists (priority m), (value (priority m), x). split; [|done].
          qsimpl. rewrite decide_True by done.
          apply elem_of_app. right. apply list_elem_of_here. }
        unfold state_of. rewrite Hal.
        replace (message_states q' !! x) with (Some RETRYING)
          by (subst q'; qsimpl; by rewrite lookup_insert_eq).
        right. split; [eauto|]. exists (retries m).
        unfold retries_of. rewrite Hm. subst q'. qsimpl.
        rewrite lookup_insert_eq. repeat split; auto.
      * apply Hsame. subst q'. qsimpl. by rewrite lookup_insert_ne.
    + destruct (decide (mid = x)) as [->|Hne].
      * unfold state_of. rewrite Hal.
        replace (message_states q' !! x) with (Some FAILED)
          by (subst q'; qsimpl; by rewrite lookup_insert_eq).
        right. split; [eauto|]. exists (retries m).
        unfold retries_of. rewrite Hm. subst q'. qsimpl.
        rewrite lookup_insert_eq. repeat split; auto.
      * apply Hsame. subst q'. qsimpl. by rewrite lookup_insert_ne.
Qed.

Lemma worker_transition_lifecycle (q q' : PriorityMessageQueue) (o : op)
    (x : string) (s s' : MessageState) :
  worker_transition q q' o x s s' -> lifecycle s s'.
Proof. destruct s, s'; simpl; intros H; try done; constructor. Qed.

(** Over a whole call sequence the state of a message follows a path of
    [lifecycle]. *)
Lemma lifecycle_run (ops : list op) (x : string) :
  forall (q q' : PriorityMessageQueue) (s : MessageState),
    reachable Worker q ->
    run Worker ops q = Some q' ->
    state_of q x = Some s ->
    exists s', state_of q' x = Some s' /\ rtc lifecycle s s'.
Proof.
  induction ops as [|o ops IH]; intros q q' s Hr Hrun Hs; simpl in Hrun.
  - injection Hrun as <-. eauto using rtc_refl.
  - destruct (step Worker o q) as [q1|] eqn:Hstep; [|discriminate].
    pose proof (worker_step_transition q q1 o x Hr Hstep) as Ht.
    rewrite Hs in Ht.
    destruct (state_of q1 x) as [s1|] eqn:Hs1; [|done].
    destruct (IH q1 q' s1) as (s' & Hs' & Hpath);
      [econstructor; eauto|done|done|].
    exists s'. split; [done|].
    destruct Ht as [->|Ht]; [done|].
    eapply rtc_l; eauto using worker_transition_lifecycle.
Qed.

(** COMPLETED and FAILED are terminal. *)
Lemma terminal_states_stay (ops : list op) (x : string)
    (q q' : PriorityMessageQueue) (s : MessageState) :
  reachable Worker q ->
  run Worker ops q = Some q' ->
  state_of q x = Some s ->
  s = COMPLETED \/ s = FAILED ->
  state_of q' x = Some s.
Proof.
  intros Hr Hrun Hs Hterm.
  destruct (lifecycle_run ops x q q' s Hr Hrun Hs) as (s' & Hs' & Hpath).
  inversion Hpath as [|? s1 ? Hstep Hrest]; subst; [done|].
  destruct Hterm as [-> | ->]; inversion Hstep.
Qed.

(** C2, as amended.  Under the worker protocol (fresh identifiers, and
    [mark_completed] and [mark_failed] called on messages in state
    PROCESSING) a tracked message stays tracked, a new message starts
    PENDING with retry count 0, and the only changes of state are
    PENDING→PROCESSING and RETRYING→PROCESSING (the message is the one
    [dequeue] returns), PROCESSING→COMPLETED ([mark_completed]),
    PROCESSING→RETRYING ([mark_failed] with retries below [max_retries]; the
    count goes up by one and the message is put back in its queue while its
    state stays RETRYING) and PROCESSING→FAILED ([mark_failed] with retries
    exhausted).  No call moves a message back to PENDING. *)
Theorem C2_worker_transitions (q q' : PriorityMessageQueue) (o : op)
    (x : string) :
  reachable Worker q ->
  step Worker o q = Some q' ->
  match state_of q x, state_of q' x with
  | None, None => True
  | None, Some s' =>
      s' = PENDING /\ (exists c p now, o = Enqueue x c p now)
      /\ retries_of q' x = Some 0
  | Some s, None => False
  | Some s, Some s' => s = s' \/ worker_transition q q' o x s s'
  end.
Proof. apply worker_step_transition. Qed.

Lemma C2_worker_transitions_witness :
  match state_of (after Worker failed_once init_default)
          "7090113732254520430",
        state_of (after Worker (failed_once ++ [Dequeue 20]) init_default)
          "7090113732254520430" with
  | None, None => True
  | None, Some s' =>
      s' = PENDING
      /\ (exists c p now, Dequeue 20 = Enqueue "7090113732254520430" c p now)
      /\ retries_of (after Worker (failed_once ++ [Dequeue 20]) init_default)
           "7090113732254520430" = Some 0
  | Some s, None => False
  | Some s, Some s' =>
      s = s'
      \/ worker_transition (after Worker failed_once init_default)
           (after Worker (failed_once ++ [Dequeue 20]) init_default)
           (Dequeue 20) "7090113732254520430" s s'
  end.
Proof.
  apply (C2_worker_transitions (after Worker failed_once init_default)
           (after Worker (failed_once ++ [Dequeue 20]) init_default)
           (Dequeue 20) "7090113732254520430").
  - apply (run_reachable Worker failed_once init_default);
      [apply reachable_init|vm_compute; reflexivity].
  - vm_compute. reflexivity.
Defined.

(** C2 as stated fails: a retried message goes from RETRYING straight to
    PROCESSING at the next [dequeue]; it is never PENDING again, and
    RETRYING→PROCESSING is not one of the listed transitions. *)
Lemma C2_retrying_to_processing_counterexample :
  exists q q',
    run Worker failed_once init_default = Some q
    /\ step Worker (Dequeue 20) q = Some q'
    /\ state_of q "7090113732254520430" = Some RETRYING
    /\ state_of q' "7090113732254520430" = Some PROCESSING
    /\ spec_transition RETRYING PROCESSING = false.
Proof.
  eexists _, _. split; [vm_compute; reflexivity|].
  split; [vm_compute; reflexivity|].
  repeat split; vm_compute; reflexivity.
Qed.

(** *** C3: the retry bound *)

Lemma step_weaken_of (x : string) (o : op) (q q' : PriorityMessageQueue) :
  step (WorkerOf x) o q = Some q' -> step FreshIds o q = Some q'.
Proof.
  unfold step. destruct o; simpl; auto; case_decide; auto;
    destruct (is_processing _ _); done.
Qed.

Lemma waiting_zero (x : string) (q : PriorityMessageQueue) :
  waiting x q = 0%nat <-> x ∉ queued q.
Proof.
  unfold waiting. rewrite length_zero_iff_nil. split.
  - intros Hnil Hin.
    assert (Hf : x ∈ filter (fun y => y = x) (queued q))
      by (by apply list_elem_of_filter).
    rewrite Hnil in Hf. inversion Hf.
  - intros Hnin. apply elem_of_nil_inv. intros y Hy.
    apply list_elem_of_filter in Hy as [-> Hy]. done.
Qed.

Lemma waiting_perm_cons (x y : string) (q q' : PriorityMessageQueue) :
  queued q' ≡ₚ y :: queued q ->
  waiting x q' = ((if decide (y = x) then 1 else 0) + waiting x q)%nat.
Proof.
  intros Hp. unfold waiting. rewrite Hp, filter_cons.
  case_decide; reflexivity.
Qed.

Lemma tracking_step (x : string) (q q' : PriorityMessageQueue) (o : op) (k : Z) :
  wf q ->
  0 <= max_retries q ->
  tracking x q k ->
  step (WorkerOf x) o q = Some q' ->
  is_mark_completed x o = false ->
  max_retries q' = max_retries q
  /\ tracking x q' (k + (if is_mark_failed x o then 1 else 0))
  /\ (is_mark_failed x o = true ->
        k <= max_retries q
        /\ total_retried (stats q') - total_retried (stats q)
           = (if k <? max_retries q then 1 else 0)
        /\ total_failed (stats q') - total_failed (stats q)
           = (if k <? max_retries q then 0 else 1)).
Proof.
  intros Hwf Hmax (m & Hm & Hk & Htr) Hstep Hnc.
  assert (Hframe : max_retries q' = max_retries q ->
                   messages q' !! x = messages q !! x ->
                   message_states q' !! x = message_states q !! x ->
                   waiting x q' = waiting x q ->
                   is_mark_failed x o = false ->
                   max_retries q' = max_retries q
                   /\ tracking x q' (k + (if is_mark_failed x o then 1 else 0))
                   /\ (is_mark_failed x o = true ->
                         k <= max_retries q
                         /\ total_retried (stats q') - total_retried (stats q)
                            = (if k <? max_retries q then 1 else 0)
                         /\ total_failed (stats q') - total_failed (stats q)
                            = (if k <? max_retries q then 0 else 1))).
  { intros Hc Hmm Hss Hww Hnf. rewrite Hnf. split; [done|]. split; [|done].
    exists m. rewrite Z.add_0_r. unfold tracking. rewrite Hmm, Hss, Hc, Hww.
    auto. }
  unfold step in Hstep.
  destruct (allowed (WorkerOf x) q o) eqn:Hal; [|discriminate].
  destruct o as [mid c p now|now|mid now|mid err].
  - apply bool_decide_eq_true in Hal. apply exec_enqueue in Hstep.
    assert (Hne : mid <> x) by congruence.
    assert (Hq : queued q' ≡ₚ mid :: queued q).
    { subst q'. apply (queued_put p (value p, mid) q). }
    apply Hframe; [by subst q'| | |
                   by rewrite (waiting_perm_cons x mid q q' Hq), decide_False|
                   done];
      subst q'; qsimpl; by rewrite lookup_insert_ne.
  - apply exec_dequeue in Hstep; [|by apply wf_all_tracked].
    destruct Hstep as [[_ ->]|(p & e & rest & m0 & _ & Hpop & Hm0 & _ & Hq')];
      [by apply Hframe|].
    apply heappop_Some in Hpop as [Hperm _].
    assert (Hq : queued q ≡ₚ e.2 :: queued q').
    { subst q'. apply (queued_pop p e rest q Hperm). }
    destruct (decide (e.2 = x)) as [Hex|Hne];
      pose proof (waiting_perm_cons x e.2 q' q Hq) as Hwait;
      [rewrite decide_True in Hwait by done
      |rewrite decide_False in Hwait by done].
    + assert (m0 = m) by congruence. subst m0.
      simpl. rewrite Z.add_0_r.
      split; [by subst q'|]. split; [|discriminate].
      exists (set_processing_started now m).
      assert (Hc : max_retries q' = max_retries q) by (by subst q').
      assert (Hmm : messages q' !! x = Some (set_processing_started now m)).
      { subst q' x. qsimpl. apply lookup_insert_eq. }
      assert (Hss : message_states q' !! x = Some PROCESSING).
      { subst q' x. qsimpl. apply lookup_insert_eq. }
      rewrite Hmm, Hss, Hc. split; [done|]. split; [done|]. qsimpl.
      destruct (message_states q !! x) as [[]|]; try done;
        destruct Htr as (? & ? & ?); lia.
    + apply Hframe; [by subst q'| | |lia|done];
        subst q'; qsimpl; by rewrite lookup_insert_ne.
  - simpl in Hnc. apply bool_decide_eq_false in Hnc.
    apply exec_mark_completed in Hstep
      as [[_ ->]|[(m0 & Hm0 & _ & ->)|(m0 & st & Hm0 & _ & ->)]].
    + by apply Hframe.
    + apply Hframe; qsimpl; auto; by rewrite lookup_insert_ne.
    + apply Hframe; qsimpl; auto; by rewrite lookup_insert_ne.
  - simpl in Hal.
    apply exec_mark_failed in Hstep
      as [[Hnone ->]|[(m0 & Hm0 & Hlt & Hq')|(m0 & Hm0 & Hge & Hq')]];
      cbv zeta in *.
    + apply Hframe; auto. simpl. apply bool_decide_eq_false. congruence.
    + assert (Hq : queued q' ≡ₚ mid :: queued q).
      { subst q'.
        apply (queued_put (priority m0) (value (priority m0), mid)
                 (_update_message_state mid RETRYING
                    (set_message mid (incr_retries (set_error err m0)) q))). }
      destruct (decide (mid = x)) as [->|Hne];
        pose proof (waiting_perm_cons x _ q q' Hq) as Hwait.
      * apply bool_decide_eq_true in Hal.
        assert (m0 = m) by congruence. subst m0.
        rewrite Hal in Htr. destruct Htr as (Hret & Hle & Hw0).
        simpl. rewrite bool_decide_eq_true_2 by done.
        split; [by subst q'|]. split.
        -- exists (incr_retries (set_error err m)).
           assert (Hc : max_retries q' = max_retries q) by (by subst q').
           assert (Hmm : messages q' !! x
                         = Some (incr_retries (set_error err m))).
           { subst q'. qsimpl. apply lookup_insert_eq. }
           assert (Hss : message_states q' !! x = Some RETRYING).
           { subst q'. qsimpl. apply lookup_insert_eq. }
           rewrite Hmm, Hss, Hc. qsimpl. rewrite decide_True in Hwait by done.
           repeat split; lia.
        -- intros _. subst q'. qsimpl.
           destruct (Z.ltb_spec k (max_retries q)); lia.
      * rewrite decide_False in Hwait by done.
        apply Hframe; [by subst q'| | |lia|
                       simpl; by apply bool_decide_eq_false];
          subst q'; qsimpl; by rewrite lookup_insert_ne.
    + destruct (decide (mid = x)) as [->|Hne].
      * apply bool_decide_eq_true in Hal.
        assert (m0 = m) by congruence. subst m0.
        rewrite Hal in Htr. destruct Htr as (Hret & Hle & Hw0).
        simpl. rewrite bool_decide_eq_true_2 by done. subst q'.
        split; [reflexivity|]. split.
        -- exists (set_error err m). unfold tracking. qsimpl.
           rewrite !lookup_insert_eq.
           replace (waiting x _) with (waiting x q) by reflexivity.
           repeat split; lia.
        -- intros _. qsimpl. destruct (Z.ltb_spec k (max_retries q)); lia.
      * subst q'. apply Hframe; qsimpl; auto; try by rewrite lookup_insert_ne.
        simpl. by apply bool_decide_eq_false.
Qed.

Lemma failures_nonneg (x : string) (ops : list op) : 0 <= failures x ops.
Proof.
  induction ops as [|o ops IH]; simpl; [lia|].
  destruct (is_mark_failed x o); lia.
Qed.

Lemma tracking_bound (x : string) (q : PriorityMessageQueue) (k : Z) :
  0 <= max_retries q -> tracking x q k -> 0 <= k <= max_retries q + 1.
Proof.
  intros Hmax (m & _ & Hk & Htr).
  destruct (message_states q !! x) as [[]|]; try done; lia.
Qed.

Lemma tracking_run (x : string) (ops : list op) :
  forall (q q' : PriorityMessageQueue) (k : Z),
    wf q ->
    0 <= max_retries q ->
    tracking x q k ->
    run (WorkerOf x) ops q = Some q' ->
    (forall o, o ∈ ops -> is_mark_completed x o = false) ->
    max_retries q' = max_retries q
    /\ tracking x q' (k + failures x ops)
    /\ charged total_retried x ops q
       = Z.min (k + failures x ops) (max_retries q) - Z.min k (max_retries q)
    /\ charged total_failed x ops q
       = (if k + failures x ops =? max_retries q + 1 then 1 else 0)
         - (if k =? max_retries q + 1 then 1 else 0).
Proof.
  induction ops as [|o ops IH]; intros q q' k Hwf Hmax Htr Hrun Hnc; simpl in *.
  - injection Hrun as <-. rewrite Z.add_0_r.
    repeat split; auto; lia.
  - destruct (step (WorkerOf x) o q) as [q1|] eqn:Hstep; [|discriminate].
    destruct (tracking_step x q q1 o k Hwf Hmax Htr Hstep)
      as (Hc1 & Htr1 & Hdelta).
    { apply Hnc, list_elem_of_here. }
    assert (Hwf1 : wf q1) by (eapply wf_step; eauto using step_weaken_of).
    destruct (IH q1 q' _ Hwf1 ltac:(lia) Htr1 Hrun) as (Hc & Htr' & Hret & Hfail).
    { intros o' Ho'. apply Hnc. by apply list_elem_of_further. }
    pose proof (failures_nonneg x ops) as Hf.
    pose proof (tracking_bound x q k Hmax Htr) as Hb.
    pose proof (tracking_bound x q1 _ ltac:(lia) Htr1) as Hb1.
    rewrite Hc1 in *. rewrite Hret, Hfail.
    destruct (is_mark_failed x o).
    + destruct (Hdelta eq_refl) as (Hle & -> & ->).
      rewrite Z.add_assoc. repeat split; auto.
      * destruct (Z.ltb_spec k (max_retries q)); lia.
      * destruct (Z.ltb_spec k (max_retries q)),
          (Z.eqb_spec (k + 1) (max_retries q + 1)),
          (Z.eqb_spec k (max_retries q + 1)); lia.
    + rewrite Z.add_0_r in *. repeat split; auto.
Qed.

(** C3.  Let the queue be in any state reached with fresh identifiers, let
    a message [x] be enqueued, and let any sequence of calls follow in which
    every call that closes [x] is a [mark_failed] made while [x] is being
    processed (the other messages are handled in any way).  Then at most
    [max_retries + 1] attempts on [x] fail; the retry count of [x] and the
    number of times [mark_failed x] incremented [total_retried] both equal
    the number of failed attempts capped at [max_retries]; [mark_failed x]
    incremented [total_failed] exactly once when attempt [max_retries + 1]
    has failed, and not before; [x] is never COMPLETED; it is FAILED exactly
    after [max_retries + 1] failed attempts, and then it is in no queue;
    until then it is being processed or waits in its queue for the next
    attempt. *)
Theorem C3_retry_bound (q0 q' : PriorityMessageQueue) (x : string)
    (c : Content) (p : MessagePriority) (now : Z) (ops : list op) :
  reachable FreshIds q0 ->
  0 <= max_retries q0 ->
  run (WorkerOf x) (Enqueue x c p now :: ops) q0 = Some q' ->
  (forall o, o ∈ ops -> is_mark_completed x o = false) ->
  failures x ops <= max_retries q0 + 1
  /\ retries_of q' x = Some (Z.min (failures x ops) (max_retries q0))
  /\ charged total_retried x (Enqueue x c p now :: ops) q0
     = Z.min (failures x ops) (max_retries q0)
  /\ charged total_failed x (Enqueue x c p now :: ops) q0
     = (if failures x ops =? max_retries q0 + 1 then 1 else 0)
  /\ state_of q' x <> Some COMPLETED
  /\ (state_of q' x = Some FAILED <-> failures x ops = max_retries q0 + 1)
  /\ (state_of q' x = Some FAILED -> x ∉ queued q')
  /\ (state_of q' x <> Some FAILED ->
        state_of q' x = Some PROCESSING \/ x ∈ queued q').
Proof.
  intros Hr Hmax Hrun Hnc. simpl in Hrun |- *.
  pose proof (reachable_wf q0 Hr) as Hwf0.
  destruct (step (WorkerOf x) (Enqueue x c p now) q0) as [q1|] eqn:Hstep;
    [|discriminate].
  assert (Hwf1 : wf q1) by (eapply wf_step; eauto using step_weaken_of).
  pose proof Hstep as Hstep'. unfold step in Hstep'.
  destruct (allowed (WorkerOf x) q0 (Enqueue x c p now)) eqn:Hal;
    [|discriminate].
  apply bool_decide_eq_true in Hal. apply exec_enqueue in Hstep'.
  assert (Hc1 : max_retries q1 = max_retries q0) by (by subst q1).
  assert (Hnq : waiting x q0 = 0%nat).
  { apply waiting_zero. intros Hin. apply elem_of_queued in Hin
      as (p0 & e & He & <-).
    destruct (wf_entry q0 Hwf0 p0 e He) as (_ & m0 & Hm0 & _). congruence. }
  assert (Htr1 : tracking x q1 0).
  { exists (mkQueueMessage x c p now 0 None None None).
    assert (Hw1 : waiting x q1 = 1%nat).
    { assert (Hq1 : queued q1 ≡ₚ x :: queued q0)
        by (subst q1; apply (queued_put p (value p, x) q0)).
      rewrite (waiting_perm_cons x x q0 q1 Hq1), decide_True, Hnq by done.
      reflexivity. }
    unfold tracking. rewrite Hw1. subst q1. qsimpl. rewrite !lookup_insert_eq.
    repeat split; reflexivity || lia. }
  destruct (tracking_run x ops q1 q' 0 Hwf1 ltac:(lia) Htr1 Hrun Hnc)
    as (Hc & (m & Hm & Hk & Htr) & Hret & Hfail).
  rewrite Z.add_0_l in *. rewrite Hc1 in *. rewrite Hc in Htr.
  unfold state_of, retries_of. rewrite Hm. simpl.
  rewrite (Z.min_l 0) in Hret by lia.
  destruct (Z.eqb_spec 0 (max_retries q0 + 1)) as [|_]; [lia|].
  rewrite Z.sub_0_r in Hret, Hfail. rewrite Hret, Hfail. clear Hret Hfail.
  pose proof (waiting_zero x q') as Hw.
  assert (Hin : waiting x q' = 1%nat -> x ∈ queued q').
  { intros H1. destruct (decide (x ∈ queued q')) as [|Hn]; [done|].
    apply Hw in Hn. lia. }
  destruct (message_states q' !! x) as [[]|] eqn:Hs; try done;
    destruct Htr as (Hx & Hy & Hz);
    (split; [lia|]); (split; [f_equal; lia|]);
    (split; [reflexivity|]); (split; [reflexivity|]);
    (split; [discriminate|]).
  - split; [split; [discriminate|lia]|]. split; [discriminate|auto].
  - split; [split; [discriminate|lia]|]. split; [discriminate|auto].
  - split; [split; [intros _; lia|done]|]. split; [intros _; by apply Hw|done].
  - split; [split; [discriminate|lia]|]. split; [discriminate|auto].
Qed.

Lemma C3_retry_bound_witness :
  failures "7090113732254520430" always_failing <= max_retries init_default + 1
  /\ retries_of
       (after (WorkerOf "7090113732254520430")
          (Enqueue "7090113732254520430" ∅ HIGH 0 :: always_failing)
          init_default) "7090113732254520430"
     = Some (Z.min (failures "7090113732254520430" always_failing)
               (max_retries init_default))
  /\ charged total_retried "7090113732254520430"
       (Enqueue "7090113732254520430" ∅ HIGH 0 :: always_failing) init_default
     = Z.min (failures "7090113732254520430" always_failing)
         (max_retries init_default)
  /\ charged total_failed "7090113732254520430"
       (Enqueue "7090113732254520430" ∅ HIGH 0 :: always_failing) init_default
     = (if failures "7090113732254520430" always_failing
           =? max_retries init_default + 1 then 1 else 0)
  /\ state_of
       (after (WorkerOf "7090113732254520430")
          (Enqueue "7090113732254520430" ∅ HIGH 0 :: always_failing)
          init_default) "7090113732254520430" <> Some COMPLETED
  /\ (state_of
        (after (WorkerOf "7090113732254520430")
           (Enqueue "7090113732254520430" ∅ HIGH 0 :: always_failing)
           init_default) "7090113732254520430" = Some FAILED
      <-> failures "7090113732254520430" always_failing
          = max_retries init_default + 1)
  /\ (state_of
        (after (WorkerOf "7090113732254520430")
           (Enqueue "7090113732254520430" ∅ HIGH 0 :: always_failing)
           init_default) "7090113732254520430" = Some FAILED ->
      "7090113732254520430"
        ∉ queued
            (after (WorkerOf "7090113732254520430")
               (Enqueue "7090113732254520430" ∅ HIGH 0 :: always_failing)
               init_default))
  /\ (state_of
        (after (WorkerOf "7090113732254520430")
           (Enqueue "7090113732254520430" ∅ HIGH 0 :: always_failing)
           init_default) "7090113732254520430" <> Some FAILED ->
      state_of
        (after (WorkerOf "7090113732254520430")
           (Enqueue "7090113732254520430" ∅ HIGH 0 :: always_failing)
           init_default) "7090113732254520430" = Some PROCESSING
      \/ "7090113732254520430"
           ∈ queued
               (after (WorkerOf "7090113732254520430")
                  (Enqueue "7090113732254520430" ∅ HIGH 0 :: always_failing)
                  init_default)).
Proof.
  apply (C3_retry_bound init_default
           (after (WorkerOf "7090113732254520430")
              (Enqueue "7090113732254520430" ∅ HIGH 0 :: always_failing)
              init_default)
           "7090113732254520430" ∅ HIGH 0 always_failing).
  - apply reachable_init.
  - vm_compute. discriminate.
  - vm_compute. reflexivity.
  - intros o Ho. unfold always_failing, failed_attempt in Ho. simpl in Ho.
    repeat (apply elem_of_cons in Ho as [->|Ho]; [reflexivity|]).
    inversion Ho.
Defined.

(** The run of the witness: four failed attempts with [max_retries = 3]
    leave the message FAILED with three retries and one failure counted. *)
Example always_failing_run :
  let q := after (WorkerOf "7090113732254520430")
             (Enqueue "7090113732254520430" ∅ HIGH 0 :: always_failing)
             init_default in
  state_of q "7090113732254520430" = Some FAILED
  /\ retries_of q "7090113732254520430" = Some 3
  /\ total_retried (stats q) = 3
  /\ total_failed (stats q) = 1
  /\ queued q = [].
Proof. repeat split; vm_compute; reflexivity. Qed.

End QueueProofs.

(** ** The validator *)

Module ValidatorProofs.
Import MessageHandler.

Section Rendering.

Variable fmt_age : Z -> string.
Variable fmt_fields : gset string -> string.
Variable fmt_value : pyvalue -> string.

(** The dictionary display of [_validate_constraints] cannot be built: the
    second name it reads is not an attribute. *)
Lemma validate_constraints_raises (message : Message)
    (metadata : MessageMetadata) :
  _validate_constraints_with (getattr fmt_value) message metadata
  = Raised AttributeError.
Proof. reflexivity. Qed.

(** So no call of [validate_message] returns a verdict, and none stores an
    identifier in the cache. *)
Lemma validate_message_always_raises (now : Z) (message : Message)
    (metadata : MessageMetadata) (v : MessageValidator) :
  validate_message fmt_age fmt_fields fmt_value now message metadata v
  = (Raised AttributeError, v).
Proof. reflexivity. Qed.



End Rendering.




(** With the class as it is written the first submission of a well-formed
    position update, fresh and on time, does not succeed:
    [validate_message] raises [AttributeError] and the cache stays empty,
    although each of the checks that are reached passes. *)
Example first_submission_raises (fmt_age : Z -> string)
    (fmt_fields : gset string -> string) (fmt_value : pyvalue -> string) :
  validate_message fmt_age fmt_fields fmt_value 1000000 position_update
    (metadata_at "m-1" 1000000) init_default
  = (Raised AttributeError, init_default)
  /\ _validate_timing fmt_age 1000000 init_default (metadata_at "m-1" 1000000)
     = (true, "")
  /\ _validate_structure fmt_fields position_update POSITION_UPDATE = (true, "")
  /\ _validate_duplicates init_default (metadata_at "m-1" 1000000) = (true, "")
  /\ _validate_position_constraints fmt_value position_update
     = Returned (true, "").
Proof.
  split; [apply validate_message_always_raises|].
  repeat split; vm_compute; reflexivity.
Qed.

(** C7 (the code departs from the claim).  For a message that is both stale
    and without its required fields the timing check and the structure
    check each report their violation, but [validate_message] returns no
    reason at all: it raises [AttributeError] while the list of checks is
    being evaluated. *)
Theorem C7_stale_and_incomplete_raises (fmt_age : Z -> string)
    (fmt_fields : gset string -> string) (fmt_value : pyvalue -> string) :
  validate_message fmt_age fmt_fields fmt_value 9000000 incomplete_update
    (metadata_at "m-2" 1000000) init_default
  = (Raised AttributeError, init_default)
  /\ _validate_timing fmt_age 9000000 init_default (metadata_at "m-2" 1000000)
     = (false, "Message too old: " +:+ fmt_age 8000000 +:+ "ms")
  /\ _validate_structure fmt_fields incomplete_update POSITION_UPDATE
     = (false, "Missing required fields: "
               +:+ fmt_fields {["speed"; "direction"]}).
Proof.
  split; [apply validate_message_always_raises|].
  split; [reflexivity|].
  unfold _validate_structure.
  assert (Hmiss : required_fields POSITION_UPDATE ∖ dom incomplete_update
                  = {["speed"; "direction"]}).
  { apply (bool_decide_unpack _). vm_compute. exact I. }
  rewrite Hmiss. rewrite decide_False; [reflexivity|].
  apply (bool_decide_unpack _). vm_compute. exact I.
Qed.

End ValidatorProofs.

(** ** The result combiner *)

Module GatewayProofs.
Import ApiGateway.

Lemma py_gt_spec (a b : Q) : py_gt a b = true <-> (b < a)%Q.
Proof.
  unfold py_gt. rewrite negb_true_iff, <- not_true_iff_false, Qle_bool_iff.
  split; [apply Qnot_le_lt|apply Qlt_not_le].
Qed.

Lemma py_max_is_max (a b : Q) : (py_max a b == Qmax a b)%Q.
Proof.
  unfold py_max. destruct (py_gt b a) eqn:Hgt.
  - apply py_gt_spec in Hgt. symmetry. apply Q.max_r. by apply Qlt_le_weak.
  - symmetry. apply Q.max_l. apply Qnot_lt_le. intros Hlt.
    apply py_gt_spec in Hlt. congruence.
Qed.

Lemma py_max_is_argument (a b : Q) : py_max a b = a \/ py_max a b = b.
Proof. unfold py_max. destruct (py_gt b a); auto. Qed.

Lemma py_or_is_spec (a b : option string) : py_or a b = spec_threat_type a b.
Proof.
  unfold py_or, spec_threat_type. destruct a as [s|]; [|reflexivity].
  destruct (String.eqb_spec s ""), (decide (s = "")); congruence.
Qed.

Section Pipeline.

Variable detector : V2IMessage -> DetectionResult.
Variable analyzer : DetectionResult -> V2IMessage -> AnalysisResult.
Variable transformer : Sequence -> Dict.

(** C8.  When the detector, the analyzer and the sequence transform have all
    run for a message, [_process_single_message] returns the response built
    from [_combine_results], and the combined result has: threat detected
    exactly when the detector says so or the anomaly score exceeds the
    threat threshold; as confidence the maximum of the detector confidence
    and the anomaly score; as threat type the detector's when it is present
    (a non-empty string) and the analyzer's anomaly type otherwise; as
    evidence the three entries detection, analysis and transform, holding
    what the three stages produced for this message, and nothing else. *)
Theorem C8_combined_result (config : Config) (now : Z) (message : V2IMessage)
    (sessions : gmap string Session) :
  transformer_runs detector analyzer config message = true ->
  let d := detector message in
  let a := analyzer d message in
  let prepared := _prepare_sequence config now (sender_id message) sessions in
  let t := transformer prepared.1 in
  let c := _combine_results config d a t in
  _process_single_message detector analyzer transformer config now message
    sessions
  = (Returned (c, _create_response config now c), prepared.2)
  /\ (c_threat_detected c = true
      <-> spec_threat_detected (threat_detected d) (anomaly_score a)
            (threat_threshold config))
  /\ (c_confidence c == Qmax (confidence d) (anomaly_score a))%Q
  /\ (c_confidence c = confidence d \/ c_confidence c = anomaly_score a)
  /\ c_threat_type c = spec_threat_type (threat_type d) (anomaly_type a)
  /\ (forall k v, c_evidence c !! k = Some v <->
        (k = "detection" /\ v = DetectorEvidence (evidence d))
        \/ (k = "analysis" /\ v = AnalyzerContext (context_analysis a))
        \/ (k = "transform" /\ v = TransformOutput t))
  /\ r_threat_detected (_create_response config now c) = c_threat_detected c
  /\ r_confidence (_create_response config now c) = c_confidence c
  /\ r_threat_type (_create_response config now c) = c_threat_type c.
Proof.
  intros Hruns d a prepared t c.
  unfold transformer_runs, analyzer_runs in Hruns.
  apply andb_true_iff in Hruns as [Ha Ht].
  split.
  { unfold _process_single_message. rewrite Ha, Ht.
    fold prepared. destruct prepared as [sequence sessions']. reflexivity. }
  split.
  { unfold c, _combine_results, spec_threat_detected. simpl.
    rewrite orb_true_iff, py_gt_spec. reflexivity. }
  split; [apply py_max_is_max|]. split; [apply py_max_is_argument|].
  split; [apply py_or_is_spec|]. split; [|repeat split].
  intros k v. unfold c, _combine_results. simpl.
  rewrite !lookup_insert_Some, lookup_singleton_Some. split.
  - intros [[<- <-]|[_ [[<- <-]|[_ [<- <-]]]]]; auto.
  - intros [[-> ->]|[[-> ->]|[-> ->]]]; auto.
    right. split; [done|]. right. split; [done|]. auto.
Qed.

End Pipeline.

(** The escalating scenario of the specification: detector 0.8 above the
    analysis threshold 0.75, analyzer 0.9 above the transform threshold
    0.85. *)
Lemma C8_combined_result_witness :
  transformer_runs scenario_detector scenario_analyzer scenario_config
    scenario_message = true
  /\ exists c response sessions',
      _process_single_message scenario_detector scenario_analyzer
        scenario_transformer scenario_config 7 scenario_message ∅
      = (Returned (c, response), sessions')
      /\ c_threat_detected c = true
      /\ (c_confidence c == Qmax (8 # 10) (9 # 10))%Q
      /\ c_threat_type c = Some "position_spoofing"
      /\ dom (c_evidence c) = {["detection"; "analysis"; "transform"]}.
Proof.
  split; [reflexivity|].
  destruct (C8_combined_result scenario_detector scenario_analyzer
              scenario_transformer scenario_config 7 scenario_message ∅
              eq_refl)
    as (Hrun & _ & Hconf & _ & Htype & _).
  eexists _, _, _. split; [exact Hrun|].
  split; [reflexivity|]. split; [exact Hconf|]. split; [exact Htype|].
  apply (bool_decide_unpack _). vm_compute. exact I.
Defined.

(** When a stage is skipped the method raises instead of answering with the
    detector's verdict. *)
Lemma skipped_stage_raises (detector : V2IMessage -> DetectionResult)
    (analyzer : DetectionResult -> V2IMessage -> AnalysisResult)
    (transformer : Sequence -> Dict) (config : Config) (now : Z)
    (message : V2IMessage) (sessions : gmap string Session) :
  transformer_runs detector analyzer config message = false ->
  _process_single_message detector analyzer transformer config now message
    sessions = (Raised TypeError, sessions).
Proof.
  unfold transformer_runs, analyzer_runs, _process_single_message.
  destruct (py_gt (confidence (detector message)) _); simpl; [|done].
  intros ->. reflexivity.
Qed.

End GatewayProofs.

(** ** The anomaly score *)

Module AnalyzerProofs.
Import Analyzer.

Local Open Scope Q_scope.

Lemma np_clip_is_clipped (x : Q) : np_clip x 0 1 == clipped_to_unit x.
Proof.
  unfold np_clip, np_maximum, np_minimum, clipped_to_unit.
  destruct (Qlt_le_dec x 0) as [Hneg|Hpos].
  - assert (Hle : Qle_bool x 0 = true) by (apply Qle_bool_iff; by apply Qlt_le_weak).
    rewrite Hle. reflexivity.
  - destruct (Qle_bool x 0) eqn:Hle.
    + apply Qle_bool_iff in Hle.
      assert (x == 0) by (by apply Qle_antisym).
      destruct (Qlt_le_dec 1 x) as [Hbig|_].
      * exfalso. apply (Qlt_not_le _ _ Hbig). rewrite H. discriminate.
      * simpl. symmetry. exact H.
    + destruct (Qlt_le_dec 1 x) as [Hbig|Hsmall].
      * assert (Hle1 : Qle_bool x 1 = false).
        { apply not_true_iff_false. rewrite Qle_bool_iff.
          by apply Qlt_not_le. }
        rewrite Hle1. reflexivity.
      * assert (Hle1 : Qle_bool x 1 = true) by (by apply Qle_bool_iff).
        rewrite Hle1. reflexivity.
Qed.

Lemma clipped_in_unit (x : Q) : 0 <= clipped_to_unit x <= 1.
Proof.
  unfold clipped_to_unit.
  destruct (Qlt_le_dec x 0); [split; discriminate|].
  destruct (Qlt_le_dec 1 x); [split; discriminate|]. split; assumption.
Qed.

(** With the lookup of the class, the scores of a dictionary are collected
    only when it holds none of the keys: the first key that is present
    raises. *)
Lemma evaluate_present_getattr {V : Type} (d : gmap string V)
    (entries : list (string * string)) :
  evaluate_present getattr d entries
  = if has_entry d entries then Raised AttributeError else Returned [].
Proof.
  induction entries as [|[key method] entries IH]; [reflexivity|].
  cbn [evaluate_present has_entry existsb fst].
  destruct (d !! key) as [value|] eqn:Hkey.
  - rewrite bool_decide_eq_true_2 by eauto. reflexivity.
  - rewrite bool_decide_eq_false_2 by (intros [? [=]]). exact IH.
Qed.

Section Oracles.

Variable Features : Type.
Variable fit_predict : Features -> Z.
Variable Pattern : Type.
Variable Context : Type.

Lemma temporal_factor_getattr (temporal_patterns : gmap string Pattern) :
  _calculate_temporal_factor Pattern temporal_patterns
  = if has_entry temporal_patterns temporal_methods
    then Raised AttributeError else Returned 0.
Proof.
  unfold _calculate_temporal_factor, _calculate_temporal_factor_with.
  rewrite evaluate_present_getattr. by destruct (has_entry _ _).
Qed.

Lemma context_factor_getattr (context : gmap string Context) :
  _calculate_context_factor Context context
  = if has_entry context context_methods
    then Raised AttributeError else Returned 0.
Proof.
  unfold _calculate_context_factor, _calculate_context_factor_with.
  rewrite evaluate_present_getattr. by destruct (has_entry _ _).
Qed.

(** C9 (the code departs from the claim).  [_calculate_anomaly_score]
    returns a score only for dictionaries that hold none of the three
    pattern keys and none of the four context keys; the temporal and the
    context factor are then 0 and the score is the weighted sum
    0.4 base + 0.3 * 0 + 0.2 spatial + 0.1 * 0 clipped to [0,1].  For every
    other input, and so for every input that [analyze_detection] passes on,
    the call raises [AttributeError] and there is no score: the evaluation
    methods that the factors apply to the entries are defined nowhere. *)
Theorem C9_anomaly_score_raises (features : Features)
    (temporal_patterns : gmap string Pattern)
    (spatial_correlations : gmap string Q)
    (context : gmap string Context) :
  let base := _calculate_feature_based_score Features fit_predict features in
  let spatial := _calculate_spatial_factor spatial_correlations in
  match
    _calculate_anomaly_score Features fit_predict Pattern Context features
      temporal_patterns spatial_correlations context
  with
  | Returned s =>
      has_entry temporal_patterns temporal_methods = false
      /\ has_entry context context_methods = false
      /\ _calculate_temporal_factor Pattern temporal_patterns = Returned 0
      /\ _calculate_context_factor Context context = Returned 0
      /\ s == spec_anomaly_score base 0 spatial 0
      /\ 0 <= s <= 1
  | Raised e =>
      e = AttributeError
      /\ (has_entry temporal_patterns temporal_methods = true
          \/ has_entry context context_methods = true)
  | Suspended => False
  end.
Proof.
  intros base spatial.
  unfold _calculate_anomaly_score, _calculate_anomaly_score_with.
  fold (_calculate_temporal_factor Pattern temporal_patterns).
  fold (_calculate_context_factor Context context).
  rewrite temporal_factor_getattr, context_factor_getattr.
  destruct (has_entry temporal_patterns temporal_methods); [auto|].
  destruct (has_entry context context_methods); [auto|].
  fold base. fold spatial. unfold spec_anomaly_score.
  repeat (split; [reflexivity|]).
  split; [apply np_clip_is_clipped|].
  rewrite np_clip_is_clipped. apply clipped_in_unit.
Qed.

End Oracles.

(** The call that [analyze_detection] makes for a node with history: the
    three patterns and the four context entries are there, and the first
    of them stops the call. *)
Example anomaly_score_run :
  _calculate_anomaly_score unit outlier unit unit tt patterns neighbours
    full_context
  = Raised AttributeError.
Proof. vm_compute. reflexivity. Qed.

(** Without patterns the call gets as far as the context entries and stops
    there. *)
Example anomaly_score_context_only :
  _calculate_anomaly_score unit outlier unit unit tt ∅ neighbours full_context
  = Raised AttributeError.
Proof. vm_compute. reflexivity. Qed.

(** With empty dictionaries the score is 0.4 * 1 for the base score. *)
Example anomaly_score_empty :
  match _calculate_anomaly_score unit outlier unit unit tt ∅ ∅ ∅ with
  | Returned s => Qred s = 2 # 5
  | _ => False
  end.
Proof. vm_compute. reflexivity. Qed.

(** Were the seven methods defined, each answering 1/2, the same call
    would give 0.4 + 0.15 + 0.1 + 0.05 = 0.7. *)
Example anomaly_score_completed :
  match
    _calculate_anomaly_score_with unit outlier unit unit completed completed
      tt patterns neighbours full_context
  with
  | Returned s => Qred s = 7 # 10
  | _ => False
  end.
Proof. vm_compute. reflexivity. Qed.

End AnalyzerProofs.

(** ** The sweeps, the batch and the latency window of the queue *)

Module MaintenanceProofs.
Import MessageQueue QueueProofs QueueMaintenance.

(** *** Taking messages *)

Lemma dequeue_cases (now : Z) (q : PriorityMessageQueue) :
  wf q ->
  ((forall p, queues q p = []) /\ dequeue now q = (None, q))
  \/ exists p e rest m,
       (forall p', value p' < value p -> queues q p' = [])
       /\ queues q p ≡ₚ e :: rest
       /\ messages q !! e.2 = Some m
       /\ priority m = p
       /\ dequeue now q
          = (Some (set_processing_started now m),
             set_message e.2 (set_processing_started now m)
               (_update_message_state e.2 PROCESSING (set_queue p rest q))).
Proof.
  intros Hwf.
  destruct (exec_dequeue now q (dequeue now q).2 (wf_all_tracked q Hwf) eq_refl)
    as [[Hall Heq]|(p & e & rest & m & Hbefore & Hpop & Hm & Hdq & Hq')].
  - left. split; [done|].
    destruct (dequeue_loop_spec all_priorities now q (wf_all_tracked q Hwf))
      as [[_ Hnone]|(ps1 & p & ps2 & e & rest & m & _ & _ & Hpop & _)];
      [exact Hnone|].
    rewrite (Hall p) in Hpop. discriminate.
  - right. exists p, e, rest, m.
    destruct (heappop_Some _ _ _ Hpop) as [Hperm _].
    assert (He : e ∈ queues q p) by (rewrite Hperm; apply list_elem_of_here).
    destruct (wf_entry q Hwf p e He) as (_ & m1 & Hm1 & Hp1).
    repeat split; auto; [congruence|].
    rewrite Hdq. f_equal. exact Hq'.
Qed.

(** X1.  In every state reached with fresh identifiers, [dequeue] answers
    [None] exactly when the four queues are empty, and then it changes
    nothing. *)
Theorem dequeue_none_iff_empty (q : PriorityMessageQueue) (now : Z) :
  reachable FreshIds q ->
  ((dequeue now q).1 = None <-> forall p, queues q p = [])
  /\ ((dequeue now q).1 = None -> (dequeue now q).2 = q).
Proof.
  intros Hr. pose proof (reachable_wf q Hr) as Hwf.
  destruct (dequeue_cases now q Hwf)
    as [[Hall Heq]|(p & e & rest & m & _ & Hperm & _ & _ & Heq)];
    rewrite Heq; simpl.
  - split; [split; auto|auto].
  - split; [|discriminate]. split; [discriminate|].
    intros Hall. rewrite (Hall p) in Hperm.
    apply Permutation_nil_cons in Hperm. done.
Qed.

Lemma dequeue_none_iff_empty_witness :
  (dequeue 5 init_default).1 = None /\ (dequeue 5 init_default).2 = init_default.
Proof.
  destruct (dequeue_none_iff_empty init_default 5) as [[_ H1] H2];
    [apply reachable_init|].
  assert (H : (dequeue 5 init_default).1 = None) by (apply H1; reflexivity).
  split; [exact H|exact (H2 H)].
Defined.

Lemma dequeue_step (now : Z) (q : PriorityMessageQueue) :
  step FreshIds (Dequeue now) q = Some (dequeue now q).2.
Proof. reflexivity. Qed.

Lemma dequeue_keeps_processing (now : Z) (q : PriorityMessageQueue) (x : string) :
  wf q ->
  message_states q !! x = Some PROCESSING ->
  message_states (dequeue now q).2 !! x = Some PROCESSING.
Proof.
  intros Hwf Hx.
  destruct (dequeue_cases now q Hwf)
    as [[_ Heq]|(p & e & rest & m & _ & _ & _ & _ & Heq)]; rewrite Heq; simpl.
  - exact Hx.
  - rewrite lookup_insert. case_decide; [reflexivity|exact Hx].
Qed.

Lemma batch_keeps_processing (fuel : nat) (now : Z) (x : string) :
  forall q, wf q ->
    message_states q !! x = Some PROCESSING ->
    message_states (dequeue_batch_loop fuel now q).2 !! x = Some PROCESSING.
Proof.
  induction fuel as [|fuel IH]; intros q Hwf Hx; simpl; [exact Hx|].
  pose proof (dequeue_keeps_processing now q x Hwf Hx) as Hx1.
  pose proof (wf_step _ _ _ Hwf (dequeue_step now q)) as Hwf1.
  destruct (dequeue now q) as [[m|] q1]; simpl in *; [|exact Hx1].
  specialize (IH q1 Hwf1 Hx1).
  destruct (dequeue_batch_loop fuel now q1) as [batch q2]. exact IH.
Qed.

Lemma batch_loop_spec (fuel : nat) (now : Z) :
  forall (q : PriorityMessageQueue) (lo : Z),
    wf q ->
    (forall p, value p < lo -> queues q p = []) ->
    let batch := (dequeue_batch_loop fuel now q).1 in
    let q' := (dequeue_batch_loop fuel now q).2 in
    length batch = (fuel `min` depth q)%nat
    /\ depth q = (length batch + depth q')%nat
    /\ Forall (fun m => lo <= value (priority m)) batch
    /\ StronglySorted
         (fun a b => value (priority a) <= value (priority b)) batch
    /\ Forall (fun m => message_states q' !! id m = Some PROCESSING) batch.
Proof.
  induction fuel as [|fuel IH]; intros q lo Hwf Hlo; simpl.
  - split; [reflexivity|]. split; [reflexivity|].
    split; [constructor|]. split; constructor.
  - pose proof (wf_step _ _ _ Hwf (dequeue_step now q)) as Hwf1.
    destruct (dequeue_cases now q Hwf)
      as [[Hall Heq]|(p & e & rest & m & Hbefore & Hperm & Hm & Hp & Heq)];
      rewrite Heq in *; simpl in *.
    + assert (Hd : depth q = 0%nat).
      { unfold depth, queued, all_priorities. simpl. by rewrite !Hall. }
      rewrite Hd. split; [lia|]. split; [reflexivity|].
      split; [constructor|]. split; constructor.
    + set (q1 := set_message e.2 (set_processing_started now m)
                   (_update_message_state e.2 PROCESSING (set_queue p rest q)))
        in *.
      assert (Hd : depth q = S (depth q1)).
      { unfold depth. by rewrite (queued_pop p e rest q Hperm). }
      assert (Hple : lo <= value p).
      { destruct (Z.lt_ge_cases (value p) lo) as [Hlt|]; [|done].
        rewrite (Hlo p Hlt) in Hperm.
        apply Permutation_nil_cons in Hperm. done. }
      assert (Hlo1 : forall p', value p' < value p -> queues q1 p' = []).
      { intros p' Hlt. unfold q1. qsimpl.
        rewrite decide_False by (intros ->; lia). by apply Hbefore. }
      destruct (IH q1 (value p) Hwf1 Hlo1) as (Hlen & Hdep & Hall & Hsort & Hproc).
      pose proof (batch_keeps_processing fuel now e.2 q1 Hwf1) as Hkeep.
      destruct (dequeue_batch_loop fuel now q1) as [batch q2]; simpl in *.
      rewrite Hd. split; [lia|]. split; [lia|]. split.
      { constructor; [simpl; rewrite Hp; exact Hple|].
        eapply Forall_impl; [exact Hall|]. simpl. intros; lia. }
      split.
      { constructor; [exact Hsort|]. simpl. rewrite Hp. exact Hall. }
      constructor; [|exact Hproc]. simpl.
      rewrite (wf_id q Hwf _ _ Hm). apply Hkeep.
      unfold q1. qsimpl. apply lookup_insert_eq.
Qed.

(** X2.  In every state reached with fresh identifiers, [dequeue_batch]
    returns as many messages as wait in the queues, up to [batch_size]; the
    queues shrink by that number, and every returned message is in state
    PROCESSING afterwards. *)
Theorem dequeue_batch_size (q : PriorityMessageQueue) (now : Z) :
  reachable FreshIds q ->
  let batch := (dequeue_batch now q).1 in
  let q' := (dequeue_batch now q).2 in
  length batch = (Z.to_nat (batch_size q) `min` depth q)%nat
  /\ depth q = (length batch + depth q')%nat
  /\ Forall (fun m => message_states q' !! id m = Some PROCESSING) batch.
Proof.
  intros Hr. pose proof (reachable_wf q Hr) as Hwf.
  destruct (batch_loop_spec (Z.to_nat (batch_size q)) now q 0 Hwf)
    as (Hlen & Hdep & _ & _ & Hproc).
  { intros p Hp. destruct p; simpl in Hp; lia. }
  auto.
Qed.

Lemma dequeue_batch_size_witness :
  length (dequeue_batch 5 (after FreshIds low_then_critical init_default)).1
  = (Z.to_nat (batch_size (after FreshIds low_then_critical init_default))
     `min` depth (after FreshIds low_then_critical init_default))%nat.
Proof.
  apply (dequeue_batch_size (after FreshIds low_then_critical init_default) 5).
  apply (run_reachable FreshIds low_then_critical init_default);
    [apply reachable_init|vm_compute; reflexivity].
Defined.

(** X3.  In every state reached with fresh identifiers, the messages of a
    batch come in the order of their priority classes: no message of the
    batch is followed by one of a more urgent class. *)
Theorem dequeue_batch_sorted (q : PriorityMessageQueue) (now : Z) :
  reachable FreshIds q ->
  StronglySorted (fun a b => value (priority a) <= value (priority b))
    (dequeue_batch now q).1.
Proof.
  intros Hr. pose proof (reachable_wf q Hr) as Hwf.
  destruct (batch_loop_spec (Z.to_nat (batch_size q)) now q 0 Hwf)
    as (_ & _ & _ & Hsort & _).
  { intros p Hp. destruct p; simpl in Hp; lia. }
  exact Hsort.
Qed.


Lemma dequeue_batch_sorted_witness :
  StronglySorted (fun a b => value (priority a) <= value (priority b))
    (dequeue_batch 5 (after FreshIds low_then_critical init_default)).1.
Proof.
  apply (dequeue_batch_sorted (after FreshIds low_then_critical init_default) 5).
  apply (run_reachable FreshIds low_then_critical init_default);
    [apply reachable_init|vm_compute; reflexivity].
Defined.

(** *** Invariants of the statistics and of the stamps *)

Lemma dequeue_loop_config (ps : list MessagePriority) (now : Z) :
  forall q,
    let q' := (dequeue_loop ps now q).2 in
    max_size q' = max_size q /\ max_retries q' = max_retries q
    /\ processing_timeout q' = processing_timeout q
    /\ batch_size q' = batch_size q
    /\ processing_times (stats q') = processing_times (stats q)
    /\ total_received (stats q') = total_received (stats q)
    /\ priority_counts (stats q') = priority_counts (stats q)
    /\ forall p, (length (queues q' p) <= length (queues q p))%nat.
Proof.
  induction ps as [|p ps IH]; intros q; simpl.
  - repeat split; auto.
  - destruct (heappop (queues q p)) as [[[v x] rest]|] eqn:Hpop; [|apply IH].
    apply heappop_Some in Hpop as [Hperm _].
    assert (Hlen : forall p', (length (queues (set_queue p rest q) p')
                               <= length (queues q p'))%nat).
    { intros p'. qsimpl. case_decide; [subst p'|lia].
      rewrite Hperm. simpl. lia. }
    qsimpl. destruct (messages q !! x) as [m|].
    + qsimpl. repeat split; auto.
    + destruct (IH (set_queue p rest q)) as (?&?&?&?&?&?&?&Hl).
      qsimpl. repeat split; auto. intros p'.
      etransitivity; [apply Hl|apply Hlen].
Qed.

Lemma put_Some (p : MessagePriority) (e : entry) (q q' : PriorityMessageQueue) :
  put p e q = Some q' ->
  (max_size q <= 0 \/ Z.of_nat (length (queues q p)) < max_size q)
  /\ q' = set_queue p (queues q p ++ [e]) q.
Proof.
  unfold put, full. intros H.
  destruct (Z.ltb_spec 0 (max_size q)); simpl in H;
    [destruct (Z.leb_spec (max_size q) (Z.of_nat (length (queues q p))));
       simpl in H|]; simplify_eq; split; auto; lia.
Qed.

Lemma put_room (p : MessagePriority) (e : entry) (q : PriorityMessageQueue) :
  max_size q <= 0 \/ Z.of_nat (length (queues q p)) < max_size q ->
  put p e q = Some (set_queue p (queues q p ++ [e]) q).
Proof.
  unfold put, full. intros H.
  destruct (Z.ltb_spec 0 (max_size q)); simpl; [|reflexivity].
  destruct (Z.leb_spec (max_size q) (Z.of_nat (length (queues q p))));
    simpl; [lia|reflexivity].
Qed.

Lemma update_processing_time_length (d : Z) (s : QueueStats) :
  (length (processing_times s) <= 1000)%nat ->
  (length (processing_times (update_processing_time d s)) <= 1000)%nat.
Proof.
  intros H. unfold update_processing_time. qsimpl.
  destruct (Z.ltb_spec 1000 (Z.of_nat (length (processing_times s ++ [d]))))
    as [Hgt|Hle].
  - destruct (processing_times s ++ [d]) eqn:E; simpl; [lia|].
    apply (f_equal length) in E. rewrite length_app in E. simpl in E. lia.
  - lia.
Qed.

Lemma exec_enqueue_room mid c p now q q' :
  exec (Enqueue mid c p now) q = Some q' ->
  max_size q <= 0 \/ Z.of_nat (length (queues q p)) < max_size q.
Proof.
  unfold exec, enqueue, finished.
  destruct (put p (value p, mid) _) as [q2|] eqn:Hput; simpl; [|discriminate].
  intros _. apply put_Some in Hput as [Hroom _]. exact Hroom.
Qed.

Lemma exec_mark_failed_room mid err q q' m :
  exec (MarkFailed mid err) q = Some q' ->
  messages q !! mid = Some m ->
  retries m < max_retries q ->
  max_size q <= 0
  \/ Z.of_nat (length (queues q (priority m))) < max_size q.
Proof.
  unfold exec, mark_failed, finished. intros H Hm Hr. rewrite Hm in H.
  qsimpl. destruct (Z.ltb_spec (retries m) (max_retries q)); [|lia].
  destruct (put _ _ _) as [q3|] eqn:Hput; simpl in H; [|discriminate].
  apply put_Some in Hput as [Hroom _]. exact Hroom.
Qed.

Lemma sound_init (ms mr pt bs : Z) : sound (init ms mr pt bs).
Proof.
  constructor; simpl.
  - lia.
  - intros H p. simpl in *. lia.
  - intros x m Hm. simpl in Hm. by apply lookup_empty_Some in Hm.
  - reflexivity.
Qed.

Lemma sound_step (o : op) (q q' : PriorityMessageQueue) :
  wf q -> sound q -> step FreshIds o q = Some q' -> sound q'.
Proof.
  intros Hwf [Ht Hc Hs Hp] Hstep. unfold step in Hstep.
  destruct (allowed FreshIds q o) eqn:Hal; [|discriminate].
  destruct o as [mid c p now|now|mid now|mid err].
  - apply bool_decide_eq_true in Hal.
    pose proof (exec_enqueue_room _ _ _ _ _ _ Hstep) as Hroom.
    apply exec_enqueue in Hstep. subst q'. constructor; qsimpl.
    + exact Ht.
    + intros Hpos p'. qsimpl. case_decide; [subst p'|by apply Hc].
      rewrite length_app. simpl. lia.
    + intros x m. qsimpl. rewrite !lookup_insert. case_decide.
      * intros [= <-]. simpl. repeat split; intros; congruence.
      * apply Hs.
    + unfold counted_by_priority, all_priorities in *. qsimpl.
      simpl in *. rewrite !dd_get_add.
      destruct p; repeat case_decide; try congruence; lia.
  - apply exec_dequeue in Hstep; [|by apply wf_all_tracked].
    destruct Hstep as [[_ ->]|(p & e & rest & m & _ & Hpop & Hm & _ & ->)];
      [by constructor|].
    apply heappop_Some in Hpop as [Hperm _].
    constructor; qsimpl; auto.
    + intros Hpos p'. qsimpl. specialize (Hc Hpos p').
      case_decide; [subst p'|done].
      rewrite Hperm in Hc. simpl in Hc. lia.
    + intros x m0. qsimpl. rewrite !lookup_insert. case_decide.
      * intros [= <-]. simpl. repeat split; intros; try congruence; eauto.
      * apply Hs.
  - apply exec_mark_completed in Hstep
      as [[_ ->]|[(m & Hm & Hnone & ->)|(m & st & Hm & Hst & ->)]];
      [by constructor| |].
    + constructor; qsimpl; auto.
      intros x m0. qsimpl. rewrite lookup_insert. case_decide.
      * intros [= <-]. subst x. destruct (Hs mid m Hm) as (H1 & H2 & H3).
        simpl. repeat split; intros Hx; auto.
      * apply Hs.
    + constructor; qsimpl; auto.
      * apply (update_processing_time_length (now - st) (stats q) Ht).
      * intros x m0. qsimpl. rewrite !lookup_insert. case_decide.
        -- intros [= <-]. simpl. repeat split; intros; try congruence; eauto.
        -- apply Hs.
  - pose proof (fun m => exec_mark_failed_room _ _ _ _ m Hstep) as Hroom.
    apply exec_mark_failed in Hstep
      as [[_ ->]|[(m & Hm & Hr & ->)|(m & Hm & Hr & ->)]]; [by constructor| |].
    + specialize (Hroom m Hm Hr). constructor; qsimpl; auto.
      * intros Hpos p'. qsimpl. case_decide; [subst p'|by apply Hc].
        rewrite length_app. simpl. lia.
      * intros x m0. qsimpl. rewrite !lookup_insert. case_decide.
        -- intros [= <-]. simpl. repeat split; intros; congruence.
        -- apply Hs.
    + constructor; qsimpl; auto.
      intros x m0. qsimpl. rewrite !lookup_insert. case_decide.
      * intros [= <-]. simpl. repeat split; intros; congruence.
      * apply Hs.
Qed.

Lemma reachable_sound (q : PriorityMessageQueue) :
  reachable FreshIds q -> sound q.
Proof.
  induction 1 as [|q q' o Hr IH Hstep]; [apply sound_init|].
  eapply sound_step; eauto using reachable_wf.
Qed.

(** *** The latency window *)

Lemma update_processing_time_window (d : Z) (s : QueueStats) :
  (length (processing_times s) <= 1000)%nat ->
  processing_times (update_processing_time d s)
  = drop (length (processing_times s ++ [d]) - 1000) (processing_times s ++ [d]).
Proof.
  intros H. unfold update_processing_time. qsimpl.
  rewrite length_app. simpl.
  destruct (Z.ltb_spec 1000 (Z.of_nat (length (processing_times s) + 1)))
    as [Hgt|Hle].
  - replace (length (processing_times s) + 1 - 1000)%nat with 1%nat by lia.
    by destruct (processing_times s ++ [d]).
  - replace (length (processing_times s) + 1 - 1000)%nat with 0%nat by lia.
    reflexivity.
Qed.

(** X4.  In every state reached with fresh identifiers the statistics hold
    at most 1000 processing times. *)
Theorem processing_times_bounded (q : PriorityMessageQueue) :
  reachable FreshIds q ->
  (length (processing_times (stats q)) <= 1000)%nat.
Proof. intros Hr. apply (sound_times q (reachable_sound q Hr)). Qed.

Lemma processing_times_bounded_witness :
  reachable FreshIds (after Worker completed_once init_default)
  /\ (length (processing_times
                (stats (after Worker completed_once init_default))) <= 1000)%nat.
Proof.
  assert (H : reachable FreshIds (after Worker completed_once init_default)).
  { apply reachable_weaken.
    apply (run_reachable Worker completed_once init_default);
      [apply reachable_init|vm_compute; reflexivity]. }
  split; [exact H|]. apply (processing_times_bounded _ H).
Defined.

Lemma window_slides (n : nat) (l ds : list Z) :
  drop (length (drop (length l - n) l ++ ds) - n) (drop (length l - n) l ++ ds)
  = drop (length (l ++ ds) - n) (l ++ ds).
Proof.
  rewrite <- (drop_app_le l ds (length l - n)) by lia.
  rewrite drop_drop, length_drop, length_app. f_equal. lia.
Qed.

(** X5.  The statistics keep a sliding window: after any sequence of calls
    of [update_processing_time] on a window of at most 1000 samples, the
    window holds the last 1000 of all samples, oldest first. *)
Theorem processing_times_window (durations : list Z) (s : QueueStats) :
  (length (processing_times s) <= 1000)%nat ->
  processing_times (record_times durations s)
  = drop (length (processing_times s ++ durations) - 1000)
      (processing_times s ++ durations).
Proof.
  revert s. induction durations as [|d ds IH]; intros s H.
  - cbn [record_times foldl]. rewrite app_nil_r.
    replace (length (processing_times s) - 1000)%nat with 0%nat by lia.
    reflexivity.
  - unfold record_times in *. cbn [foldl].
    rewrite IH by (by apply update_processing_time_length).
    rewrite (update_processing_time_window d s H).
    rewrite window_slides. by rewrite <- app_assoc.
Qed.

Lemma processing_times_window_witness :
  processing_times (record_times [3; 4] (record_times [1; 2] QueueStats_init))
  = [1; 2; 3; 4].
Proof.
  apply (processing_times_window [3; 4] (record_times [1; 2] QueueStats_init)).
  simpl. lia.
Defined.

(** *** Capacity and the counters of [enqueue] *)

(** X7.  In every state reached with fresh identifiers, a bounded queue
    ([max_size] positive) never holds more than [max_size] entries in any
    priority class. *)
Theorem queues_within_capacity (q : PriorityMessageQueue) (p : MessagePriority) :
  reachable FreshIds q ->
  0 < max_size q ->
  Z.of_nat (length (queues q p)) <= max_size q.
Proof.
  intros Hr Hpos. apply (sound_capacity q (reachable_sound q Hr) Hpos).
Qed.

Lemma queues_within_capacity_witness :
  Z.of_nat (length (queues one_slot_taken LOW)) <= max_size one_slot_taken.
Proof.
  apply queues_within_capacity.
  - apply (run_reachable FreshIds [Enqueue "7090113732254520430" ∅ LOW 0]
             (init 1 3 30 10));
      [apply reachable_init|vm_compute; reflexivity].
  - vm_compute. reflexivity.
Defined.

(** X8.  In every state reached with fresh identifiers, the per-priority
    counters add up to [total_received]. *)
Theorem priority_counts_add_up (q : PriorityMessageQueue) :
  reachable FreshIds q ->
  dd_get (priority_counts (stats q)) CRITICAL
  + dd_get (priority_counts (stats q)) HIGH
  + dd_get (priority_counts (stats q)) MEDIUM
  + dd_get (priority_counts (stats q)) LOW
  = total_received (stats q).
Proof.
  intros Hr. pose proof (sound_priorities q (reachable_sound q Hr)) as H.
  unfold counted_by_priority, all_priorities in H. simpl in H. lia.
Qed.

Lemma priority_counts_add_up_witness :
  let q := after FreshIds low_then_critical init_default in
  dd_get (priority_counts (stats q)) CRITICAL
  + dd_get (priority_counts (stats q)) HIGH
  + dd_get (priority_counts (stats q)) MEDIUM
  + dd_get (priority_counts (stats q)) LOW
  = total_received (stats q).
Proof.
  apply priority_counts_add_up.
  apply (run_reachable FreshIds low_then_critical init_default);
    [apply reachable_init|vm_compute; reflexivity].
Defined.

(** X9.  [enqueue] on a class that is full suspends in [put] after the
    message has been stored: in a state reached with fresh identifiers, the
    message is then tracked as PENDING, no queue holds it, and the
    statistics have not counted it, so that the PENDING counter is one
    short of the number of PENDING messages. *)
Theorem enqueue_on_full_class (q : PriorityMessageQueue) (mid : string)
    (c : Content) (p : MessagePriority) (now : Z) :
  reachable FreshIds q ->
  messages q !! mid = None ->
  full q p = true ->
  let r := enqueue mid c p now q in
  r.1 = Suspended
  /\ message_states r.2 !! mid = Some PENDING
  /\ (mid ∉ queued (r.2))
  /\ stats r.2 = stats q
  /\ dd_get (states (stats r.2)) PENDING
     = count_state PENDING (message_states r.2) - 1.
Proof.
  intros Hr Hfresh Hfull. pose proof (reachable_wf q Hr) as Hwf.
  unfold enqueue, put, full in *. qsimpl. rewrite Hfull. simpl.
  split; [reflexivity|]. split; [apply lookup_insert_eq|].
  split; [|split; [reflexivity|]].
  - intros (p' & e & He & <-)%elem_of_queued. qsimpl.
    destruct (wf_entry q Hwf p' e He) as (_ & m & Hm & _). congruence.
  - rewrite count_state_insert_None by (by apply (wf_dom q Hwf)).
    rewrite (wf_census q Hwf). case_decide; [lia|congruence].
Qed.

Lemma enqueue_on_full_class_witness :
  (enqueue "1215047144078695196" ∅ LOW 1 one_slot_taken).1 = Suspended
  /\ message_states (enqueue "1215047144078695196" ∅ LOW 1 one_slot_taken).2
       !! "1215047144078695196" = Some PENDING.
Proof.
  destruct (enqueue_on_full_class one_slot_taken "1215047144078695196" ∅ LOW 1)
    as (H1 & H2 & _).
  - apply (run_reachable FreshIds [Enqueue "7090113732254520430" ∅ LOW 0]
             (init 1 3 30 10));
      [apply reachable_init|vm_compute; reflexivity].
  - vm_compute. reflexivity.
  - vm_compute. reflexivity.
  - split; [exact H1|exact H2].
Defined.

(** X10.  [mark_completed] on a message that has never been dequeued: in a
    state reached with fresh identifiers, a call on a PENDING message
    raises [TypeError]; the message stays PENDING, the statistics are
    untouched, and the message carries an end stamp from then on. *)
Theorem mark_completed_pending_raises (q : PriorityMessageQueue)
    (mid : string) (now : Z) :
  reachable FreshIds q ->
  message_states q !! mid = Some PENDING ->
  let r := mark_completed mid now q in
  r.1 = Raised TypeError
  /\ message_states r.2 = message_states q
  /\ stats r.2 = stats q
  /\ queues r.2 = queues q
  /\ (processing_completed <$> messages r.2 !! mid) = Some (Some now).
Proof.
  intros Hr Hst. pose proof (reachable_wf q Hr) as Hwf.
  pose proof (sound_stamps q (reachable_sound q Hr)) as Hs.
  destruct (messages q !! mid) as [m|] eqn:Hm;
    [|apply (wf_dom q Hwf) in Hm; congruence].
  destruct (Hs mid m Hm) as (_ & _ & Hnone). specialize (Hnone Hst).
  unfold mark_completed. rewrite Hm. qsimpl. rewrite Hnone. qsimpl.
  repeat split; auto. by rewrite lookup_insert_eq.
Qed.

Lemma mark_completed_pending_raises_witness :
  (mark_completed "7090113732254520430" 5
     (after FreshIds two_low init_default)).1 = Raised TypeError.
Proof.
  apply mark_completed_pending_raises.
  - apply (run_reachable FreshIds two_low init_default);
      [apply reachable_init|vm_compute; reflexivity].
  - vm_compute. reflexivity.
Defined.

(** *** The sweeps of [_cleanup_loop] *)

Lemma reachable_tidy (q : PriorityMessageQueue) :
  reachable FreshIds q -> tracked_agree q /\ stamps_agree q.
Proof.
  intros Hr. split.
  - exact (wf_dom q (reachable_wf q Hr)).
  - exact (sound_stamps q (reachable_sound q Hr)).
Qed.

Lemma items_spec (order : list string) (ms : gmap string MessageState) :
  NoDup order ->
  NoDup (items order ms).*1
  /\ forall x s, (x, s) ∈ items order ms <-> x ∈ order /\ ms !! x = Some s.
Proof.
  unfold items. induction 1 as [|k order Hk Hnd [IH1 IH2]]; simpl.
  - split; [constructor|]. intros x s. split.
    + intros H. inversion H.
    + intros [H _]. inversion H.
  - destruct (ms !! k) as [s0|] eqn:Hmk; simpl.
    + split.
      * constructor; [|exact IH1].
        intros ([y s] & Hy & Hin)%list_elem_of_fmap. simpl in Hy. subst y.
        apply IH2 in Hin as [Hin _]. done.
      * intros x s. rewrite elem_of_cons, IH2, elem_of_cons. split.
        -- intros [[= -> ->]|[? ?]]; auto.
        -- intros [[->|Hin] Hs]; [left; congruence|auto].
    + split; [exact IH1|]. intros x s. rewrite IH2, elem_of_cons. split.
      * intros [? ?]; auto.
      * intros [[->|Hin] Hs]; [congruence|auto].
Qed.

Lemma items_keys (order : list string) (q : PriorityMessageQueue) (x : string) :
  lists_keys order q ->
  x ∈ (items order (message_states q)).*1 <-> is_Some (message_states q !! x).
Proof.
  intros [Hnd Hcov]. destruct (items_spec order (message_states q) Hnd) as [_ H].
  rewrite list_elem_of_fmap. split.
  - intros ([y s] & -> & Hin). apply H in Hin as [_ Hs]. simpl. eauto.
  - intros [s Hs]. exists (x, s). split; [done|]. apply H. split; [|done].
    assert (Hd : x ∈ dom (message_states q)) by (apply elem_of_dom; eauto).
    apply Hcov in Hd. by apply elem_of_list_to_set in Hd.
Qed.

Lemma items_length (order : list string) (ms : gmap string MessageState) :
  (length (items order ms) <= length order)%nat.
Proof.
  unfold items. induction order as [|k order IH]; simpl in *; [lia|].
  destruct (ms !! k); simpl in *; unfold omap in *; lia.
Qed.

Lemma room_le (n n' : nat) (q : PriorityMessageQueue) :
  (n' <= n)%nat -> room n q -> room n' q.
Proof.
  intros Hle [H|H]; [by left|right]. intros p. specialize (H p). lia.
Qed.

Lemma expired_delete (cutoff : Z) (x y : string) (q q' : PriorityMessageQueue) :
  y <> x ->
  messages q' = delete x (messages q) ->
  message_states q' = delete x (message_states q) ->
  expired cutoff q' y = expired cutoff q y.
Proof.
  intros Hne Hm Hs. unfold expired. rewrite Hm, Hs.
  by rewrite !lookup_delete_ne.
Qed.

Lemma keys_cons (y x : string) (s : MessageState)
    (snapshot : list (string * MessageState)) :
  bool_decide (y ∈ ((x, s) :: snapshot).*1)
  = if decide (y = x) then true else bool_decide (y ∈ snapshot.*1).
Proof.
  simpl. case_decide.
  - apply bool_decide_eq_true_2. subst. apply list_elem_of_here.
  - apply bool_decide_ext. rewrite elem_of_cons. intuition congruence.
Qed.

Lemma purge_completed_spec (cutoff : Z) (snapshot : list (string * MessageState)) :
  forall q,
    NoDup snapshot.*1 ->
    (forall x s, (x, s) ∈ snapshot -> message_states q !! x = Some s) ->
    tracked_agree q -> stamps_agree q ->
    exists q',
      purge_completed snapshot cutoff q = (Returned tt, q')
      /\ queues q' = queues q /\ stats q' = stats q
      /\ max_size q' = max_size q /\ processing_timeout q' = processing_timeout q
      /\ max_retries q' = max_retries q
      /\ (forall x,
            messages q' !! x
            = if bool_decide (x ∈ snapshot.*1) && expired cutoff q x
              then None else messages q !! x)
      /\ (forall x,
            message_states q' !! x
            = if bool_decide (x ∈ snapshot.*1) && expired cutoff q x
              then None else message_states q !! x).
Proof.
  induction snapshot as [|[x s] snapshot IH]; intros q Hnd Hag Htr Hst.
  - exists q. simpl. repeat split; auto.
  - simpl in Hnd. apply NoDup_cons in Hnd as [Hx Hnd].
    assert (Hxs : message_states q !! x = Some s)
      by (apply Hag, list_elem_of_here).
    assert (Hag' : forall y s', (y, s') ∈ snapshot ->
                     message_states q !! y = Some s')
      by (intros; by apply Hag, list_elem_of_further).
    assert (Hkeep : expired cutoff q x = false ->
      exists q', purge_completed snapshot cutoff q = (Returned tt, q')
      /\ queues q' = queues q /\ stats q' = stats q
      /\ max_size q' = max_size q /\ processing_timeout q' = processing_timeout q
      /\ max_retries q' = max_retries q
      /\ (forall y, messages q' !! y
            = if bool_decide (y ∈ ((x, s) :: snapshot).*1) && expired cutoff q y
              then None else messages q !! y)
      /\ (forall y, message_states q' !! y
            = if bool_decide (y ∈ ((x, s) :: snapshot).*1) && expired cutoff q y
              then None else message_states q !! y)).
    { intros Hnot.
      destruct (IH q Hnd Hag' Htr Hst)
        as (q' & Heq & Hq & Hs & Hc1 & Hc2 & Hc3 & Hm & Hms).
      exists q'. repeat split; auto; intros y;
        rewrite keys_cons; [rewrite Hm|rewrite Hms];
        (destruct (decide (y = x)) as [->|Hne];
          [rewrite Hnot, !andb_false_r; reflexivity|reflexivity]). }
    cbn [purge_completed]. destruct (decide (s = COMPLETED)) as [->|Hs].
    + destruct (messages q !! x) as [m|] eqn:Hm;
        [|apply Htr in Hm; congruence].
      destruct (Hst x m Hm) as ([t Ht] & _ & _); [done|]. rewrite Ht.
      destruct (Z.ltb_spec t cutoff) as [Hlt|Hge].
      * unfold forget. rewrite Hm. qsimpl. rewrite Hxs.
        set (q1 := mkPMQ _ _ _ _ _ _ _ _).
        assert (Hm1 : messages q1 = delete x (messages q)) by reflexivity.
        assert (Hs1 : message_states q1 = delete x (message_states q))
          by reflexivity.
        destruct (IH q1) as (q' & Heq & Hq & Hs & Hc1 & Hc2 & Hc3 & Hmq & Hmsq).
        -- exact Hnd.
        -- intros y s' Hin. rewrite Hs1, lookup_delete_ne; [by apply Hag'|].
           intros ->. apply Hx. apply list_elem_of_fmap. by exists (y, s').
        -- intros y. rewrite Hm1, Hs1.
           destruct (decide (y = x)) as [->|Hne].
           ++ by rewrite !lookup_delete_eq.
           ++ rewrite !lookup_delete_ne by done. apply Htr.
        -- intros y m0. rewrite Hm1, Hs1.
           destruct (decide (y = x)) as [->|Hne].
           ++ rewrite lookup_delete_eq. discriminate.
           ++ rewrite !lookup_delete_ne by done. apply Hst.
        -- assert (Hexp : expired cutoff q x = true).
           { unfold expired. rewrite Hxs, Hm, Ht. by apply Z.ltb_lt. }
           exists q'. rewrite Heq. repeat split; auto; intros y;
             rewrite keys_cons; [rewrite Hmq, Hm1|rewrite Hmsq, Hs1];
             (destruct (decide (y = x)) as [->|Hne];
              [rewrite bool_decide_eq_false_2 by done;
               rewrite Hexp; simpl; by rewrite lookup_delete_eq|]);
             rewrite (expired_delete cutoff x y q q1 Hne Hm1 Hs1);
             rewrite lookup_delete_ne by done;
             reflexivity.
      * apply Hkeep. unfold expired. rewrite Hxs, Hm, Ht.
        by apply Z.ltb_ge.
    + apply Hkeep. unfold expired. rewrite Hxs.
      destruct s; try reflexivity. congruence.
Qed.

Lemma stuck_ext (cutoff : Z) (y : string) (q q' : PriorityMessageQueue) :
  messages q' !! y = messages q !! y ->
  message_states q' !! y = message_states q !! y ->
  stuck cutoff q' y = stuck cutoff q y.
Proof. intros Hm Hs. unfold stuck. by rewrite Hm, Hs. Qed.

Lemma timeouts_ext (cutoff : Z) (q q' : PriorityMessageQueue)
    (snapshot : list (string * MessageState)) :
  (forall y, y ∈ snapshot.*1 -> stuck cutoff q' y = stuck cutoff q y) ->
  timeouts cutoff q' snapshot = timeouts cutoff q snapshot.
Proof.
  unfold timeouts. intros H. f_equal.
  induction (snapshot.*1) as [|y l IH]; [reflexivity|].
  rewrite !filter_cons, H by apply list_elem_of_here.
  rewrite IH by (intros; by apply H, list_elem_of_further).
  reflexivity.
Qed.

(** What a returning [mark_failed] leaves of the other messages. *)
Lemma mark_failed_others (x err : string) (q q' : PriorityMessageQueue) :
  exec (MarkFailed x err) q = Some q' ->
  max_size q' = max_size q /\ max_retries q' = max_retries q
  /\ processing_timeout q' = processing_timeout q
  /\ (forall p, (length (queues q' p) <= S (length (queues q p)))%nat)
  /\ forall y, y <> x ->
       messages q' !! y = messages q !! y
       /\ message_states q' !! y = message_states q !! y.
Proof.
  intros H. apply exec_mark_failed in H
    as [[_ ->]|[(m & Hm & _ & ->)|(m & Hm & _ & ->)]]; qsimpl.
  - repeat split; auto.
  - repeat split; auto.
    + intros p. qsimpl. case_decide; [subst p|lia].
      rewrite length_app. simpl. lia.
    + by rewrite lookup_insert_ne.
    + by rewrite lookup_insert_ne.
  - repeat split; auto.
    + by rewrite lookup_insert_ne.
    + by rewrite lookup_insert_ne.
Qed.

Lemma mark_failed_tidy (x err : string) (q q' : PriorityMessageQueue) :
  tracked_agree q -> stamps_agree q ->
  exec (MarkFailed x err) q = Some q' ->
  tracked_agree q' /\ stamps_agree q'.
Proof.
  intros Htr Hst H. apply exec_mark_failed in H
    as [[_ ->]|[(m & Hm & _ & ->)|(m & Hm & _ & ->)]]; [done| |].
  - split.
    + intros y. qsimpl. rewrite !lookup_insert. case_decide; [done|apply Htr].
    + intros y m0. qsimpl. rewrite !lookup_insert. case_decide.
      * intros [= <-]. repeat split; intros; congruence.
      * apply Hst.
  - split.
    + intros y. qsimpl. rewrite !lookup_insert. case_decide; [done|apply Htr].
    + intros y m0. qsimpl. rewrite !lookup_insert. case_decide.
      * intros [= <-]. repeat split; intros; congruence.
      * apply Hst.
Qed.

(** A stuck message is failed by [mark_failed]: it is RETRYING or FAILED
    afterwards. *)
Lemma mark_failed_unsticks (x err : string) (q q' : PriorityMessageQueue) :
  is_Some (messages q !! x) ->
  exec (MarkFailed x err) q = Some q' ->
  failed_or_retrying q' x.
Proof.
  intros [m0 Hm0] H. apply exec_mark_failed in H
    as [[Hno ->]|[(m & Hm & _ & ->)|(m & Hm & _ & ->)]]; [congruence| |];
    unfold failed_or_retrying; qsimpl; rewrite lookup_insert_eq; auto.
Qed.

Lemma failed_or_retrying_not_stuck (cutoff : Z) (q : PriorityMessageQueue)
    (x : string) :
  failed_or_retrying q x -> stuck cutoff q x = false.
Proof. unfold stuck. by intros [-> | ->]. Qed.

Lemma mark_failed_returns (x err : string) (q : PriorityMessageQueue) :
  room 1 q ->
  exists q', mark_failed x err q = (Returned tt, q').
Proof.
  intros Hroom. unfold mark_failed.
  destruct (messages q !! x) as [m|]; [|eauto]. qsimpl.
  destruct (retries m <? max_retries q); [|eauto].
  rewrite put_room; [eauto|]. qsimpl.
  destruct Hroom as [H|H]; [by left|right].
  specialize (H (priority m)). lia.
Qed.

Lemma fail_stuck_spec (cutoff : Z) (snapshot : list (string * MessageState)) :
  forall q,
    NoDup snapshot.*1 ->
    (forall x s, (x, s) ∈ snapshot -> message_states q !! x = Some s) ->
    tracked_agree q -> stamps_agree q ->
    room (length snapshot) q ->
    exists q',
      fail_stuck snapshot cutoff q = (Returned tt, q')
      /\ run Worker (timeouts cutoff q snapshot) q = Some q'
      /\ tracked_agree q' /\ stamps_agree q'
      /\ (forall y, y ∈ snapshot.*1 -> stuck cutoff q y = true ->
            failed_or_retrying q' y)
      /\ (forall y, y ∉ snapshot.*1 \/ stuck cutoff q y = false ->
            messages q' !! y = messages q !! y
            /\ message_states q' !! y = message_states q !! y).
Proof.
  induction snapshot as [|[x s] snapshot IH]; intros q Hnd Hag Htr Hst Hroom.
  - exists q. split; [reflexivity|]. split; [reflexivity|].
    split; [exact Htr|]. split; [exact Hst|].
    split; [intros y Hy; inversion Hy|auto].
  - simpl in Hnd. apply NoDup_cons in Hnd as [Hx Hnd].
    assert (Hxs : message_states q !! x = Some s)
      by (apply Hag, list_elem_of_here).
    assert (Hag' : forall y s', (y, s') ∈ snapshot ->
                     message_states q !! y = Some s')
      by (intros; by apply Hag, list_elem_of_further).
    assert (Hroom' : room (length snapshot) q).
    { destruct Hroom as [H|H]; [by left|right].
      intros p. specialize (H p). simpl in H. lia. }
    assert (Hkeep : stuck cutoff q x = false ->
      exists q',
        fail_stuck snapshot cutoff q = (Returned tt, q')
        /\ run Worker (timeouts cutoff q ((x, s) :: snapshot)) q = Some q'
        /\ tracked_agree q' /\ stamps_agree q'
        /\ (forall y, y ∈ ((x, s) :: snapshot).*1 -> stuck cutoff q y = true ->
              failed_or_retrying q' y)
        /\ (forall y, y ∉ ((x, s) :: snapshot).*1 \/ stuck cutoff q y = false ->
              messages q' !! y = messages q !! y
              /\ message_states q' !! y = message_states q !! y)).
    { intros Hnot.
      destruct (IH q Hnd Hag' Htr Hst Hroom')
        as (q' & Heq & Hrun & Htr' & Hst' & Hdone & Hsame).
      exists q'. split; [exact Heq|]. split.
      { unfold timeouts in *. simpl. rewrite filter_cons.
        rewrite decide_False by (rewrite Hnot; discriminate). exact Hrun. }
      split; [exact Htr'|]. split; [exact Hst'|]. split.
      - intros y Hy. simpl in Hy.
        apply elem_of_cons in Hy as [->|Hy]; [congruence|by apply Hdone].
      - intros y [Hy|Hy]; apply Hsame; [left|by right].
        intros Hin. apply Hy. simpl. by apply list_elem_of_further. }
    cbn [fail_stuck]. destruct (decide (s = PROCESSING)) as [->|Hs].
    + destruct (messages q !! x) as [m|] eqn:Hm;
        [|apply Htr in Hm; congruence].
      destruct (Hst x m Hm) as (_ & [t Ht] & _); [done|]. rewrite Ht.
      destruct (Z.ltb_spec t cutoff) as [Hlt|Hge].
      * assert (Hstuck : stuck cutoff q x = true).
        { unfold stuck. rewrite Hxs, Hm, Ht. by apply Z.ltb_lt. }
        destruct (mark_failed_returns x "Processing timeout" q) as [q1 Hq1].
        { destruct Hroom as [H|H]; [by left|right].
          intros p. specialize (H p). simpl in H. lia. }
        rewrite Hq1.
        assert (Hex : exec (MarkFailed x "Processing timeout") q = Some q1).
        { unfold exec, finished. by rewrite Hq1. }
        assert (Hstep : step Worker (MarkFailed x "Processing timeout") q
                        = Some q1).
        { unfold step, allowed, is_processing.
          rewrite bool_decide_eq_true_2 by done. exact Hex. }
        destruct (mark_failed_others _ _ _ _ Hex)
          as (Hc1 & Hc2 & Hc3 & Hlen & Hoth).
        destruct (mark_failed_tidy _ _ _ _ Htr Hst Hex) as [Htr1 Hst1].
        assert (Hxn : forall y, y ∈ snapshot.*1 -> y <> x)
          by (intros y Hy ->; done).
        destruct (IH q1) as (q' & Heq & Hrun & Htr' & Hst' & Hdone & Hsame).
        -- exact Hnd.
        -- intros y s' Hin.
           destruct (Hoth y) as [_ ->]; [|by apply Hag'].
           apply Hxn. apply list_elem_of_fmap. by exists (y, s').
        -- exact Htr1.
        -- exact Hst1.
        -- destruct Hroom as [H|H]; [left; lia|right].
           intros p. specialize (H p). specialize (Hlen p).
           simpl in H. rewrite Hc1. lia.
        -- exists q'. split; [exact Heq|]. split.
           { rewrite (timeouts_ext cutoff q q1) in Hrun.
             - unfold timeouts in *. simpl. rewrite filter_cons.
               rewrite decide_True by done. simpl. rewrite Hstep. exact Hrun.
             - intros y Hy. destruct (Hoth y (Hxn y Hy)) as [H1 H2].
               by apply stuck_ext. }
           split; [exact Htr'|]. split; [exact Hst'|]. split.
           ++ intros y Hy Hy'. simpl in Hy.
              apply elem_of_cons in Hy as [->|Hy].
              ** destruct (Hsame x (or_introl Hx)) as [H1 H2].
                 unfold failed_or_retrying. rewrite H2.
                 eapply mark_failed_unsticks; eauto.
              ** apply Hdone; [exact Hy|]. rewrite <- Hy'.
                 destruct (Hoth y (Hxn y Hy)) as [H1 H2]. by apply stuck_ext.
           ++ intros y Hy.
              assert (Hne : y <> x).
              { intros ->. destruct Hy as [Hy|Hy]; [|congruence].
                apply Hy. apply list_elem_of_here. }
              destruct (Hoth y Hne) as [H1 H2]. rewrite <- H1, <- H2.
              apply Hsame. destruct Hy as [Hy|Hy].
              ** left. intros Hin. apply Hy. by apply list_elem_of_further.
              ** right. rewrite <- Hy. by apply stuck_ext.
      * apply Hkeep. unfold stuck. rewrite Hxs, Hm, Ht. by apply Z.ltb_ge.
    + apply Hkeep. unfold stuck. rewrite Hxs.
      destruct s; try reflexivity. congruence.
Qed.

(** X11.  The retention sweep (first loop of [_cleanup_loop]) returns, and
    it forgets exactly the COMPLETED messages whose end stamp is before the
    cutoff.  It touches neither the queues nor the statistics, so the
    COMPLETED counter keeps counting the forgotten messages. *)
Theorem retention_sweep (order : list string) (cutoff : Z)
    (q : PriorityMessageQueue) :
  tracked_agree q -> stamps_agree q -> lists_keys order q ->
  exists q',
    purge_completed (items order (message_states q)) cutoff q = (Returned tt, q')
    /\ queues q' = queues q /\ stats q' = stats q
    /\ (forall x, messages q' !! x
                  = if expired cutoff q x then None else messages q !! x)
    /\ (forall x, message_states q' !! x
                  = if expired cutoff q x then None else message_states q !! x).
Proof.
  intros Htr Hst Hkeys.
  destruct (items_spec order (message_states q) (proj1 Hkeys)) as [Hnd Hin].
  destruct (purge_completed_spec cutoff (items order (message_states q)) q)
    as (q' & Heq & Hq & Hs & _ & _ & _ & Hm & Hms); auto.
  { intros x s Hx. by apply Hin in Hx as [_ Hx]. }
  assert (Hexp : forall x, expired cutoff q x = true ->
            bool_decide (x ∈ (items order (message_states q)).*1) = true).
  { intros x Hx. apply bool_decide_eq_true_2. apply (items_keys order q x Hkeys).
    unfold expired in Hx. destruct (message_states q !! x); [eauto|done]. }
  exists q'. repeat split; auto; intros x; [rewrite Hm|rewrite Hms];
    (destruct (expired cutoff q x) eqn:Hx;
     [by rewrite (Hexp x Hx)|by rewrite andb_false_r]).
Qed.

Lemma lists_keys_closed (order : list string) (q : PriorityMessageQueue) :
  bool_decide (NoDup order) = true ->
  bool_decide (dom (message_states q) ⊆ (list_to_set order : gset string))
  = true ->
  lists_keys order q.
Proof. intros H1%bool_decide_eq_true H2%bool_decide_eq_true. by split. Qed.

Lemma retention_sweep_witness :
  exists q',
    purge_completed
      (items ["7090113732254520430"]
         (message_states (after FreshIds completed_once init_default)))
      3600000026 (after FreshIds completed_once init_default)
    = (Returned tt, q')
    /\ messages q' !! "7090113732254520430" = None
    /\ stats q' = stats (after FreshIds completed_once init_default).
Proof.
  destruct (retention_sweep ["7090113732254520430"] 3600000026
              (after FreshIds completed_once init_default))
    as (q' & Heq & _ & Hs & Hm & _).
  - apply reachable_tidy.
    apply (run_reachable FreshIds completed_once init_default);
      [apply reachable_init|vm_compute; reflexivity].
  - apply reachable_tidy.
    apply (run_reachable FreshIds completed_once init_default);
      [apply reachable_init|vm_compute; reflexivity].
  - apply lists_keys_closed; vm_compute; reflexivity.
  - exists q'. split; [exact Heq|]. split; [|exact Hs].
    rewrite Hm. vm_compute. reflexivity.
Defined.

(** X12.  The timeout sweep (second loop of [_cleanup_loop]) acts as a worker
    that reports every stuck message as failed: when the queues have room,
    it returns in the state that the calls [mark_failed] on the stuck
    messages lead to under the worker protocol, no message is stuck any
    more, each stuck message is RETRYING or FAILED, and the other messages
    are as they were. *)
Theorem timeout_sweep (order : list string) (cutoff : Z)
    (q : PriorityMessageQueue) :
  tracked_agree q -> stamps_agree q -> lists_keys order q ->
  room (length order) q ->
  exists q',
    fail_stuck (items order (message_states q)) cutoff q = (Returned tt, q')
    /\ run Worker (timeouts cutoff q (items order (message_states q))) q
       = Some q'
    /\ (forall x, stuck cutoff q' x = false)
    /\ (forall x, stuck cutoff q x = true -> failed_or_retrying q' x)
    /\ (forall x, stuck cutoff q x = false ->
          messages q' !! x = messages q !! x
          /\ message_states q' !! x = message_states q !! x).
Proof.
  intros Htr Hst Hkeys Hroom.
  destruct (items_spec order (message_states q) (proj1 Hkeys)) as [Hnd Hin].
  destruct (fail_stuck_spec cutoff (items order (message_states q)) q)
    as (q' & Heq & Hrun & _ & _ & Hdone & Hsame); auto.
  { intros x s Hx. by apply Hin in Hx as [_ Hx]. }
  { eapply room_le; [apply items_length|exact Hroom]. }
  assert (Hcov : forall x, stuck cutoff q x = true ->
            x ∈ (items order (message_states q)).*1).
  { intros x Hx. apply (items_keys order q x Hkeys).
    unfold stuck in Hx. destruct (message_states q !! x); [eauto|done]. }
  exists q'. split; [exact Heq|]. split; [exact Hrun|]. split; [|split].
  - intros x. destruct (stuck cutoff q x) eqn:Hx.
    + apply failed_or_retrying_not_stuck. apply Hdone; auto.
    + destruct (Hsame x (or_intror Hx)) as [H1 H2].
      by rewrite (stuck_ext cutoff x q q' H1 H2).
  - intros x Hx. apply Hdone; auto.
  - intros x Hx. apply Hsame. by right.
Qed.

Lemma two_taken_reachable : reachable Worker two_taken.
Proof.
  apply (run_reachable Worker
           [Enqueue "7090113732254520430" ∅ MEDIUM 0;
            Enqueue "1215047144078695196" ∅ HIGH 1;
            Dequeue 10;
            Dequeue 40000000] init_default);
    [apply reachable_init|vm_compute; reflexivity].
Qed.

Lemma room_default (n : nat) (q : PriorityMessageQueue) :
  (forall p, (Z.of_nat (length (queues q p) + n) <=? max_size q) = true) ->
  room n q.
Proof. intros H. right. intros p. apply Z.leb_le, H. Qed.

Lemma timeout_sweep_witness :
  exists q',
    fail_stuck
      (items ["7090113732254520430"; "1215047144078695196"]
         (message_states two_taken))
      15000000 two_taken
    = (Returned tt, q')
    /\ message_states q' !! "1215047144078695196" = Some RETRYING
    /\ message_states q' !! "7090113732254520430" = Some PROCESSING.
Proof.
  destruct (timeout_sweep ["7090113732254520430"; "1215047144078695196"]
              15000000 two_taken)
    as (q' & Heq & Hrun & _).
  - apply reachable_tidy, reachable_weaken, two_taken_reachable.
  - apply reachable_tidy, reachable_weaken, two_taken_reachable.
  - apply lists_keys_closed; vm_compute; reflexivity.
  - apply room_default. intros []; vm_compute; reflexivity.
  - exists q'. split; [exact Heq|].
    vm_compute in Hrun. injection Hrun as <-.
    split; vm_compute; reflexivity.
Defined.

Lemma expired_ext (cutoff : Z) (y : string) (q q' : PriorityMessageQueue) :
  messages q' !! y = messages q !! y ->
  message_states q' !! y = message_states q !! y ->
  expired cutoff q' y = expired cutoff q y.
Proof. intros Hm Hs. unfold expired. by rewrite Hm, Hs. Qed.

(** X13.  One pass of [_cleanup_loop] over a queue in which every class
    has a free place for each key of the dictionaries returns: no message
    is expired or stuck afterwards, the forgotten messages are gone from
    both dictionaries, the two dictionaries still have the same keys, the
    stamps still agree with the states, and [order] still lists the keys.
    The free places are not given back: a message that is retried takes
    one, so that nothing is said on a second pass. *)
Theorem cleanup_pass_returns (order : list string) (now : Z)
    (q : PriorityMessageQueue) :
  tracked_agree q -> stamps_agree q -> lists_keys order q ->
  room (length order) q ->
  exists q',
    cleanup_pass order now q = (Returned tt, q')
    /\ tracked_agree q' /\ stamps_agree q' /\ lists_keys order q'
    /\ (forall x, expired (now - one_hour) q' x = false)
    /\ (forall x, stuck (now - 1000000 * processing_timeout q) q' x = false)
    /\ (forall x, expired (now - one_hour) q x = true ->
          messages q' !! x = None /\ message_states q' !! x = None).
Proof.
  intros Htr Hst Hkeys Hroom. unfold cleanup_pass.
  destruct (items_spec order (message_states q) (proj1 Hkeys)) as [Hnd Hin].
  destruct (purge_completed_spec (now - one_hour)
              (items order (message_states q)) q)
    as (q1 & Heq & Hq & Hs & Hc1 & Hc2 & _ & Hm & Hms); auto.
  { intros x s Hx. by apply Hin in Hx as [_ Hx]. }
  rewrite Heq.
  assert (Hexp : forall x, expired (now - one_hour) q x = true ->
            bool_decide (x ∈ (items order (message_states q)).*1) = true).
  { intros x Hx. apply bool_decide_eq_true_2. apply (items_keys order q x Hkeys).
    unfold expired in Hx. destruct (message_states q !! x); [eauto|done]. }
  assert (Hm1 : forall x, messages q1 !! x
                 = if expired (now - one_hour) q x then None
                   else messages q !! x).
  { intros x. rewrite Hm. destruct (expired (now - one_hour) q x) eqn:Hx;
      [by rewrite (Hexp x Hx)|by rewrite andb_false_r]. }
  assert (Hms1 : forall x, message_states q1 !! x
                  = if expired (now - one_hour) q x then None
                    else message_states q !! x).
  { intros x. rewrite Hms. destruct (expired (now - one_hour) q x) eqn:Hx;
      [by rewrite (Hexp x Hx)|by rewrite andb_false_r]. }
  assert (Htr1 : tracked_agree q1).
  { intros x. rewrite Hm1, Hms1.
    destruct (expired (now - one_hour) q x); [done|apply Htr]. }
  assert (Hst1 : stamps_agree q1).
  { intros x m. rewrite Hm1, Hms1.
    destruct (expired (now - one_hour) q x); [discriminate|apply Hst]. }
  assert (Hkeys1 : lists_keys order q1).
  { split; [exact (proj1 Hkeys)|]. intros x Hx. apply (proj2 Hkeys).
    apply elem_of_dom in Hx. apply elem_of_dom. rewrite Hms1 in Hx.
    destruct (expired (now - one_hour) q x); [by destruct Hx|exact Hx]. }
  assert (Hroom1 : room (length order) q1).
  { destruct Hroom as [H|H]; [left; by rewrite Hc1|right].
    intros p. rewrite Hq, Hc1. apply H. }
  assert (Hexp1 : forall x, expired (now - one_hour) q1 x = false).
  { intros x. destruct (expired (now - one_hour) q x) eqn:Hx.
    - unfold expired. rewrite Hms1, Hx. reflexivity.
    - rewrite <- Hx. apply expired_ext; [rewrite Hm1|rewrite Hms1];
        by rewrite Hx. }
  destruct (items_spec order (message_states q1) (proj1 Hkeys1)) as [Hnd1 Hin1].
  destruct (fail_stuck_spec (now - 1000000 * processing_timeout q1)
              (items order (message_states q1)) q1)
    as (q' & Heq' & _ & Htr' & Hst' & Hdone & Hsame); auto.
  { intros x s Hx. by apply Hin1 in Hx as [_ Hx]. }
  { eapply room_le; [apply items_length|exact Hroom1]. }
  rewrite Hc2 in *. set (cut := now - 1000000 * processing_timeout q) in *.
  assert (Hcov : forall x, stuck cut q1 x = true ->
            x ∈ (items order (message_states q1)).*1).
  { intros x Hx. apply (items_keys order q1 x Hkeys1).
    unfold stuck in Hx. destruct (message_states q1 !! x); [eauto|done]. }
  assert (Hcase : forall x,
            failed_or_retrying q' x
            \/ (messages q' !! x = messages q1 !! x
                /\ message_states q' !! x = message_states q1 !! x
                /\ stuck cut q1 x = false)).
  { intros x. destruct (stuck cut q1 x) eqn:Hx.
    - left. apply Hdone; auto.
    - right. destruct (Hsame x (or_intror Hx)). auto. }
  exists q'. split; [exact Heq'|]. split; [exact Htr'|]. split; [exact Hst'|].
  split; [|split; [|split]].
  - split; [exact (proj1 Hkeys)|]. intros x Hx. apply (proj2 Hkeys1).
    apply elem_of_dom in Hx. apply elem_of_dom.
    destruct (Hcase x) as [Hfr|(_ & H2 & _)]; [|by rewrite <- H2].
    destruct (stuck cut q1 x) eqn:Hs1.
    + unfold stuck in Hs1. destruct (message_states q1 !! x); [eauto|done].
    + destruct (Hsame x (or_intror Hs1)) as [_ H2]. by rewrite <- H2.
  - intros x. destruct (Hcase x) as [[H|H]|(H1 & H2 & _)].
    + unfold expired. by rewrite H.
    + unfold expired. by rewrite H.
    + rewrite (expired_ext _ x q1 q' H1 H2). apply Hexp1.
  - intros x. destruct (Hcase x) as [H|(H1 & H2 & H3)].
    + by apply failed_or_retrying_not_stuck.
    + by rewrite (stuck_ext _ x q1 q' H1 H2).
  - intros x Hx.
    assert (Hn1 : message_states q1 !! x = None) by (by rewrite Hms1, Hx).
    assert (Hs1 : stuck cut q1 x = false) by (unfold stuck; by rewrite Hn1).
    destruct (Hsame x (or_intror Hs1)) as [H1 H2].
    rewrite H1, H2, Hm1, Hms1, Hx. done.
Qed.

Lemma cleanup_pass_returns_witness :
  exists q',
    cleanup_pass ["7090113732254520430"; "1215047144078695196"] 45000000
      two_taken
    = (Returned tt, q')
    /\ stuck (45000000 - 1000000 * processing_timeout two_taken) q'
         "1215047144078695196" = false.
Proof.
  destruct (cleanup_pass_returns
              ["7090113732254520430"; "1215047144078695196"] 45000000
              two_taken)
    as (q' & Heq & _ & _ & _ & _ & Hstuck & _).
  - apply reachable_tidy, reachable_weaken, two_taken_reachable.
  - apply reachable_tidy, reachable_weaken, two_taken_reachable.
  - apply lists_keys_closed; vm_compute; reflexivity.
  - apply room_default. intros []; vm_compute; reflexivity.
  - exists q'. split; [exact Heq|apply Hstuck].
Defined.

(** *** Entries of forgotten messages *)

(** X14.  When the entry that [dequeue] pops designates a message that is no
    longer tracked, the entry is dropped and the search goes on with the
    next priority class: the rest of the class is not looked at.  If the
    later classes are empty, [dequeue] answers [None] although messages
    wait in the class. *)
Theorem dequeue_after_stale_entry (q : PriorityMessageQueue)
    (p : MessagePriority) (e : entry) (rest : list entry) (now : Z) :
  (forall p', value p' < value p -> queues q p' = []) ->
  heappop (queues q p) = Some (e, rest) ->
  messages q !! e.2 = None ->
  dequeue now q = dequeue_loop (classes_after p) now (set_queue p rest q)
  /\ ((forall p', value p < value p' -> queues q p' = []) ->
        dequeue now q = (None, set_queue p rest q)).
Proof.
  intros Hbefore Hpop Hm.
  assert (Heq : dequeue now q
                = dequeue_loop (classes_after p) now (set_queue p rest q)).
  { unfold dequeue, all_priorities, classes_after, all_priorities.
    destruct e as [v x]. simpl in Hm.
    destruct p; simpl;
      rewrite ?(Hbefore CRITICAL), ?(Hbefore HIGH), ?(Hbefore MEDIUM)
        by (simpl; lia);
      simpl; rewrite Hpop; simpl; rewrite Hm; reflexivity. }
  split; [exact Heq|]. intros Hafter. rewrite Heq.
  unfold classes_after, all_priorities.
  destruct p; simpl;
    rewrite ?(Hafter HIGH), ?(Hafter MEDIUM), ?(Hafter LOW) by (simpl; lia);
    reflexivity.
Qed.

Lemma dequeue_after_stale_entry_witness :
  message_states stale_then_fresh !! "8215047144078695196" = Some PENDING
  /\ "8215047144078695196" ∈ queued stale_then_fresh
  /\ dequeue 7200000002 stale_then_fresh
     = (None, set_queue MEDIUM [(2, "8215047144078695196")] stale_then_fresh).
Proof.
  split; [vm_compute; reflexivity|]. split.
  { apply (bool_decide_unpack _). vm_compute. exact I. }
  apply (dequeue_after_stale_entry stale_then_fresh MEDIUM
           (2, "7090113732254520430") [(2, "8215047144078695196")]
           7200000002).
  - intros []; simpl; try lia; intros _; vm_compute; reflexivity.
  - vm_compute. reflexivity.
  - vm_compute. reflexivity.
  - intros []; simpl; try lia; intros _; vm_compute; reflexivity.
Defined.

End MaintenanceProofs.

(** ** The validator checks, the security validator and the processor *)

Module RoutingProofs.
Import MessageHandler MessageRouting.

Lemma between_cases (lo hi : Q) (x : pyvalue) :
  (exists n, x = PyNum n /\ ((lo <= n)%Q /\ (n <= hi)%Q)
             /\ between lo hi x = Returned true)
  \/ (exists n, x = PyNum n /\ ~ ((lo <= n)%Q /\ (n <= hi)%Q)
                /\ between lo hi x = Returned false)
  \/ ((forall n, x <> PyNum n) /\ between lo hi x = Raised TypeError).
Proof.
  destruct x as [n| |]; simpl; [|by right; right..].
  destruct (Qle_bool lo n) eqn:H1, (Qle_bool n hi) eqn:H2; simpl.
  - left. exists n. rewrite <- !Qle_bool_iff. auto.
  - right. left. exists n. rewrite <- !Qle_bool_iff. intuition congruence.
  - right. left. exists n. rewrite <- !Qle_bool_iff. intuition congruence.
  - right. left. exists n. rewrite <- !Qle_bool_iff. intuition congruence.
Qed.

(** X15.  [_validate_position_constraints] accepts exactly when the speed
    and the direction, each 0 when absent, are numbers within [0, 200] and
    [0, 360]; it raises [TypeError] exactly when the speed is not a number,
    or the speed is in range and the direction is not a number.  A message
    with neither field is accepted. *)
Theorem position_constraints_cases (fmt_value : pyvalue -> string)
    (message : Message) :
  let speed := default (PyNum 0) (message !! "speed") in
  let direction := default (PyNum 0) (message !! "direction") in
  (_validate_position_constraints fmt_value message = Returned (true, "")
   <-> exists s d, speed = PyNum s /\ direction = PyNum d
                   /\ (0 <= s)%Q /\ (s <= 200)%Q /\ (0 <= d)%Q /\ (d <= 360)%Q)
  /\ (_validate_position_constraints fmt_value message = Raised TypeError
      <-> (forall s, speed <> PyNum s)
          \/ (exists s, speed = PyNum s /\ (0 <= s)%Q /\ (s <= 200)%Q
                        /\ forall d, direction <> PyNum d))
  /\ (message !! "speed" = None -> message !! "direction" = None ->
      _validate_position_constraints fmt_value message = Returned (true, "")).
Proof.
  intros speed direction. unfold _validate_position_constraints.
  fold speed. fold direction.
  split; [|split].
  - destruct (between_cases 0 200 speed)
      as [(s & Hs & Hsr & ->)|[(s & Hs & Hsr & ->)|(Hs & ->)]];
      [|split; [discriminate|intros (s' & d' & ? & _ & ? & ? & _);
                              destruct Hsr; split; congruence]
       |split; [discriminate|intros (s' & d' & ? & _); by destruct (Hs s')]].
    destruct (between_cases 0 360 direction)
      as [(d & Hd & Hdr & ->)|[(d & Hd & Hdr & ->)|(Hd & ->)]].
    + split; [intros _|done]. exists s, d. tauto.
    + split; [discriminate|]. intros (s' & d' & _ & ? & _ & _ & ? & ?).
      destruct Hdr. split; congruence.
    + split; [discriminate|]. intros (s' & d' & _ & ? & _). by destruct (Hd d').
  - destruct (between_cases 0 200 speed)
      as [(s & Hs & Hsr & ->)|[(s & Hs & Hsr & ->)|(Hs & ->)]].
    + destruct (between_cases 0 360 direction)
        as [(d & Hd & Hdr & ->)|[(d & Hd & Hdr & ->)|(Hd & ->)]].
      * split; [discriminate|]. intros [H|(s' & _ & _ & _ & H)].
        -- by destruct (H s).
        -- by destruct (H d).
      * split; [discriminate|]. intros [H|(s' & _ & _ & _ & H)].
        -- by destruct (H s).
        -- by destruct (H d).
      * split; [intros _|done]. right. exists s. tauto.
    + split; [discriminate|]. intros [H|(s' & ? & ? & ? & _)].
      * by destruct (H s).
      * destruct Hsr. split; congruence.
    + split; [intros _|done]. by left.
  - intros Hns Hnd. subst speed direction. rewrite Hns, Hnd. reflexivity.
Qed.

Lemma timing_cases (fmt_age : Z -> string) (now : Z) (v : MessageValidator)
    (md : MessageMetadata) :
  ((timestamp md <= now /\ now <= timestamp md + 1000 * max_message_age v)
   /\ _validate_timing fmt_age now v md = (true, ""))
  \/ (~ (timestamp md <= now /\ now <= timestamp md + 1000 * max_message_age v)
      /\ (_validate_timing fmt_age now v md).1 = false).
Proof.
  unfold _validate_timing.
  destruct (Z.ltb_spec (1000 * max_message_age v) (now - timestamp md));
    [right; simpl; split; [lia|done]|].
  destruct (Z.ltb_spec now (timestamp md));
    [right; simpl; split; [lia|done]|].
  left. split; [lia|done].
Qed.

Lemma structure_cases (fmt_fields : gset string -> string)
    (message : Message) (t : MessageType) :
  (required_fields t ⊆ dom message
   /\ _validate_structure fmt_fields message t = (true, ""))
  \/ (~ required_fields t ⊆ dom message
      /\ (_validate_structure fmt_fields message t).1 = false).
Proof.
  unfold _validate_structure.
  destruct (decide (required_fields t ∖ dom message = ∅)) as [H|H];
    [left|right]; (split; [|done]).
  - set_solver.
  - intros Hsub. apply H. apply set_eq. intros x.
    rewrite elem_of_difference. split.
    + intros [Hx Hn]. destruct Hn. by apply Hsub.
    + intros Hx. by apply not_elem_of_empty in Hx.
Qed.

Lemma duplicates_cases (v : MessageValidator) (md : MessageMetadata) :
  ((forall cached, message_cache v !! message_id md = Some cached ->
      cached + 1000000 <= timestamp md)
   /\ _validate_duplicates v md = (true, ""))
  \/ ((exists cached, message_cache v !! message_id md = Some cached
                      /\ timestamp md < cached + 1000000)
      /\ (_validate_duplicates v md).1 = false).
Proof.
  unfold _validate_duplicates.
  destruct (message_cache v !! message_id md) as [cached|] eqn:Hc.
  - destruct (Z.ltb_spec (timestamp md - cached) 1000000).
    + right. split; [|done]. exists cached. split; [done|lia].
    + left. split; [|done]. intros c [= <-]. lia.
  - left. split; [|done]. intros c [=].
Qed.

(** X16.  With an attribute lookup under which the constraint check passes,
    and for a message whose age is a millisecond or more away from
    [max_message_age] (nearer to the bound the verdict of the source
    depends on the rounding of the float age, and nothing is stated),
    [validate_message] accepts the message exactly when its timestamp is
    not in the future and less than [max_message_age] milliseconds old,
    every required field of its type is a key, and its identifier is not
    cached with a time less than one second before its timestamp.  An
    accepted message is cached with its timestamp; a refused one leaves
    the cache as it is. *)
Theorem validate_message_with_verdict (fmt_age : Z -> string)
    (fmt_fields : gset string -> string)
    (lookup : string -> option validator) (now : Z) (message : Message) (md : MessageMetadata)
    (v : MessageValidator) :
  _validate_constraints_with lookup message md = Returned (true, "") ->
  1000 <= Z.abs (now - timestamp md - 1000 * max_message_age v) ->
  let r := validate_message_with fmt_age fmt_fields lookup now message md v in
  (acceptable now v message md ->
     r = (Returned (true, "Message valid"), remember md v))
  /\ (~ acceptable now v message md ->
        r.2 = v /\ exists reason, r.1 = Returned (false, reason)).
Proof.
  intros Hcons _. unfold validate_message_with, acceptable. rewrite Hcons.
  destruct (timing_cases fmt_age now v md) as [[Ht ->]|[Ht Ht']];
    [|destruct (_validate_timing fmt_age now v md) as [[] r1];
      [discriminate|]; split; [tauto|intros _];
      destruct (_validate_structure _ _ _) as [[] ?],
               (_validate_duplicates _ _) as [[] ?]; simpl; eauto].
  destruct (structure_cases fmt_fields message (message_type md)) as [[Hs ->]|[Hs Hs']];
    [|destruct (_validate_structure _ _ _) as [[] r2];
      [discriminate|]; split; [tauto|intros _];
      destruct (_validate_duplicates _ _) as [[] ?]; simpl; eauto].
  destruct (duplicates_cases v md) as [[Hd ->]|[(c & Hc & Hlt) Hd']].
  - simpl. split; [done|]. intros H. destruct H. auto.
  - destruct (_validate_duplicates _ _) as [[] r3]; [discriminate|].
    split; [|simpl; eauto].
    intros (_ & _ & H). specialize (H c Hc). lia.
Qed.

Lemma validate_message_with_verdict_witness :
  validate_message_with silent silent (lenient_lookup silent) 1000000
    position_update (metadata_at "m-1" 1000000) init_default
  = (Returned (true, "Message valid"),
     remember (metadata_at "m-1" 1000000) init_default).
Proof.
  apply (validate_message_with_verdict silent silent (lenient_lookup silent)
           1000000 position_update (metadata_at "m-1" 1000000) init_default).
  - vm_compute. reflexivity.
  - simpl. lia.
  - split; [simpl; lia|]. split.
    + apply (bool_decide_unpack _). vm_compute. exact I.
    + intros cached H. vm_compute in H. discriminate.
Defined.

(** *** The constraint functions of the module *)

Lemma above_upto_cases (lo hi : Q) (x : pyvalue) :
  (exists n, x = PyNum n /\ ((lo < n)%Q /\ (n <= hi)%Q)
             /\ above_upto lo hi x = Returned true)
  \/ (exists n, x = PyNum n /\ ~ ((lo < n)%Q /\ (n <= hi)%Q)
                /\ above_upto lo hi x = Returned false)
  \/ ((forall n, x <> PyNum n) /\ above_upto lo hi x = Raised TypeError).
Proof.
  destruct x as [n| |]; simpl; [|by right; right..].
  destruct (Qle_bool n lo) eqn:H1, (Qle_bool n hi) eqn:H2; simpl.
  - right. left. exists n. split; [done|]. split; [|done].
    apply Qle_bool_iff in H1. intros [Hlt _]. by apply Qlt_not_le in Hlt.
  - right. left. exists n. split; [done|]. split; [|done].
    apply Qle_bool_iff in H1. intros [Hlt _]. by apply Qlt_not_le in Hlt.
  - left. exists n. split; [done|]. split; [|done]. split.
    + apply Qnot_le_lt. rewrite <- Qle_bool_iff. congruence.
    + by apply Qle_bool_iff.
  - right. left. exists n. split; [done|]. split; [|done].
    intros [_ Hle]. apply Qle_bool_iff in Hle. congruence.
Qed.

Lemma subscript_Some {V : Type} (message : gmap string V) (key : string)
    (v : V) :
  message !! key = Some v -> subscript message key = Returned v.
Proof. unfold subscript. by intros ->. Qed.

Lemma subscript_None {V : Type} (message : gmap string V) (key : string) :
  message !! key = None -> subscript message key = Raised KeyError.
Proof. unfold subscript. by intros ->. Qed.

(** X17.  [_validate_traffic_constraints] accepts exactly when the
    congestion level is a number in [0, 100], the average speed a number in
    [0, 200] and the segment length, when present, a number in (0, 10000]:
    a segment of length 0 is refused.  It raises [KeyError] exactly when
    the congestion level is missing, or is in range while the average
    speed is missing. *)
Theorem traffic_constraints_cases (fmt_value : pyvalue -> string)
    (message : Message) :
  (_validate_traffic_constraints fmt_value message = Returned (true, "")
   <-> exists c a,
         message !! "congestion_level" = Some (PyNum c)
         /\ ((0 <= c)%Q /\ (c <= 100)%Q)
         /\ message !! "average_speed" = Some (PyNum a)
         /\ ((0 <= a)%Q /\ (a <= 200)%Q)
         /\ (message !! "segment_length" = None
             \/ exists l, message !! "segment_length" = Some (PyNum l)
                          /\ (0 < l)%Q /\ (l <= 10000)%Q))
  /\ (_validate_traffic_constraints fmt_value message = Raised KeyError
      <-> message !! "congestion_level" = None
          \/ exists c, message !! "congestion_level" = Some (PyNum c)
                       /\ ((0 <= c)%Q /\ (c <= 100)%Q)
                       /\ message !! "average_speed" = None).
Proof.
  unfold _validate_traffic_constraints.
  destruct (message !! "congestion_level") as [cl|] eqn:Hcl;
    [rewrite (subscript_Some _ _ _ Hcl)|rewrite (subscript_None _ _ Hcl)]; cbn;
    [|split; [split; [discriminate|intros (? & ? & [=] & _)]
             |split; [by left|done]]].
  destruct (between_cases 0 100 cl)
    as [(c & -> & Hc & ->)|[(c & -> & Hc & ->)|(Hc & ->)]]; cbn;
    [|split; (split; [discriminate|]);
        [intros (? & ? & [= <-] & ? & _); by destruct Hc
        |intros [[=]|(? & [= <-] & ? & _)]; by destruct Hc]
     |split; (split; [discriminate|]);
        [intros (c' & ? & [= ->] & _); by destruct (Hc c')
        |intros [[=]|(c' & [= ->] & _)]; by destruct (Hc c')]].
  destruct (message !! "average_speed") as [av|] eqn:Hav;
    [rewrite (subscript_Some _ _ _ Hav)|rewrite (subscript_None _ _ Hav)]; cbn;
    [|split; [split; [discriminate|intros (? & ? & _ & _ & [=] & _)]
             |split; [intros _; right; eauto|done]]].
  destruct (between_cases 0 200 av)
    as [(a & -> & Ha & ->)|[(a & -> & Ha & ->)|(Ha & ->)]]; cbn;
    [|split; (split; [discriminate|]);
        [intros (? & ? & _ & _ & [= <-] & ? & _); by destruct Ha
        |intros [[=]|(? & _ & _ & [=])]]
     |split; (split; [discriminate|]);
        [intros (? & a' & _ & _ & [= ->] & _); by destruct (Ha a')
        |intros [[=]|(? & _ & _ & [=])]]].
  destruct (message !! "segment_length") as [sl|] eqn:Hsl; cbn;
    [|split; [split; [intros _; exists c, a; auto 10|done]
             |split; [discriminate|intros [[=]|(? & _ & _ & [=])]]]].
  destruct (above_upto_cases 0 10000 sl)
    as [(l & -> & Hl & ->)|[(l & -> & Hl & ->)|(Hl & ->)]]; cbn.
  - split; [split; [intros _; exists c, a|done]
           |split; [discriminate|intros [[=]|(? & _ & _ & [=])]]].
    repeat split; try tauto. right. exists l. tauto.
  - split; (split; [discriminate|]).
    + intros (? & ? & _ & _ & _ & _ & [[=]|(l' & [= <-] & ? & ?)]).
      by destruct Hl.
    + intros [[=]|(? & _ & _ & [=])].
  - split; (split; [discriminate|]).
    + intros (? & ? & _ & _ & _ & _ & [[=]|(l' & [= ->] & _)]).
      by destruct (Hl l').
    + intros [[=]|(? & _ & _ & [=])].
Qed.

Lemma check_parameter_accepts (fmt_optional : option pyvalue -> string)
    (params : field) (key : string) (f lo hi : Q) (label : string) :
  ~ ((lo <= f)%Q /\ (f <= hi)%Q) ->
  check_parameter fmt_optional params key (PyNum f) lo hi label
  = Returned (true, "")
  <-> exists d x, params = Mapping d /\ d !! key = Some (PyNum x)
                  /\ (lo <= x)%Q /\ (x <= hi)%Q.
Proof.
  intros Hf. unfold check_parameter, get, get_optional.
  destruct params as [v|d];
    [split; [discriminate|intros (? & ? & [=] & _)]|].
  destruct (d !! key) as [x|] eqn:Hx; cbn.
  - destruct (between_cases lo hi x)
      as [(n & -> & Hn & ->)|[(n & -> & Hn & ->)|(Hn & ->)]].
    + split; [intros _|done]. exists d, n. tauto.
    + split; [discriminate|].
      intros (? & ? & [= <-] & Hx' & ? & ?). rewrite Hx in Hx'.
      injection Hx' as <-. by destruct Hn.
    + split; [discriminate|].
      intros (? & x' & [= <-] & Hx' & _). rewrite Hx in Hx'.
      injection Hx' as ->. by destruct (Hn x').
  - destruct (Qle_bool lo f && Qle_bool f hi) eqn:E.
    + apply andb_true_iff in E as [E1 E2]. apply Qle_bool_iff in E1, E2.
      by destruct Hf.
    + split; [discriminate|].
      intros (? & ? & [= <-] & Hx' & _). congruence.
Qed.

Lemma is_valid_command_spec (x : field) :
  is_valid_command x = true
  <-> exists c, x = Scalar (PyStr c) /\ c ∈ valid_commands.
Proof.
  unfold is_valid_command, valid_commands. split.
  - intros (s & Hs & Hx)%existsb_exists.
    destruct x as [[n|c|]|d]; simpl in Hx; try discriminate.
    apply String.eqb_eq in Hx. subst s. exists c. split; [done|].
    by apply list_elem_of_In.
  - intros (c & -> & Hc). apply existsb_exists. exists c.
    split; [by apply list_elem_of_In|]. simpl. apply String.eqb_refl.
Qed.

(** X18.  [_validate_control_constraints] accepts exactly the commands whose
    type is one of the four command strings, that carry parameters, and
    whose parameters, for SPEED_LIMIT, hold a numeric speed in [0, 130] and,
    for LANE_CHANGE, a numeric lane offset in [-3, 3]: for ROUTE_CHANGE and
    STOP the parameters are not looked at, and a speed limit without a
    speed is refused.  A command of a valid type without parameters raises
    [KeyError], also when the type is ROUTE_CHANGE or STOP. *)
Theorem control_constraints_cases (fmt_field : field -> string)
    (fmt_optional : option pyvalue -> string) (message : Command) :
  (_validate_control_constraints fmt_field fmt_optional message
   = Returned (true, "")
   <-> exists c params,
         message !! "command_type" = Some (Scalar (PyStr c))
         /\ c ∈ valid_commands
         /\ message !! "parameters" = Some params
         /\ (c = "SPEED_LIMIT" ->
               exists d s, params = Mapping d /\ d !! "speed" = Some (PyNum s)
                           /\ (0 <= s)%Q /\ (s <= 130)%Q)
         /\ (c = "LANE_CHANGE" ->
               exists d o, params = Mapping d
                           /\ d !! "lane_offset" = Some (PyNum o)
                           /\ (-3 <= o)%Q /\ (o <= 3)%Q))
  /\ (forall c, message !! "command_type" = Some (Scalar (PyStr c)) ->
        c ∈ valid_commands -> message !! "parameters" = None ->
        _validate_control_constraints fmt_field fmt_optional message
        = Raised KeyError).
Proof.
  unfold _validate_control_constraints. split.
  - destruct (message !! "command_type") as [ct|] eqn:Hct;
      [rewrite (subscript_Some _ _ _ Hct)|rewrite (subscript_None _ _ Hct)];
      cbn -[is_valid_command is_string check_parameter];
      [|split; [discriminate|intros (? & ? & [=] & _)]].
    destruct (is_valid_command ct) eqn:Hv;
      cbn -[is_valid_command is_string check_parameter].
    + apply is_valid_command_spec in Hv as (c & -> & Hc).
      destruct (message !! "parameters") as [params|] eqn:Hp;
        [rewrite (subscript_Some _ _ _ Hp)|rewrite (subscript_None _ _ Hp)];
        cbn -[is_valid_command is_string check_parameter];
        [|split; [discriminate|intros (? & ? & _ & _ & [=] & _)]].
      cbn [is_string].
      destruct (String.eqb_spec c "SPEED_LIMIT") as [->|Hn1].
      * rewrite check_parameter_accepts
          by (intros [H _]; by apply Qle_bool_iff in H).
        split.
        -- intros (d & s & -> & Hs & ? & ?). exists "SPEED_LIMIT", (Mapping d).
           repeat split; auto; [eauto 10|discriminate].
        -- intros (c & params' & [= <-] & _ & [= <-] & H & _).
           destruct (H eq_refl) as (d & s & ? & ? & ? & ?). eauto 10.
      * destruct (String.eqb_spec c "LANE_CHANGE") as [->|Hn2].
        -- rewrite check_parameter_accepts
             by (intros [H _]; by apply Qle_bool_iff in H).
           split.
           ++ intros (d & o & -> & Ho & ? & ?).
              exists "LANE_CHANGE", (Mapping d).
              repeat split; auto; [discriminate|eauto 10].
           ++ intros (c & params' & [= <-] & _ & [= <-] & _ & H).
              destruct (H eq_refl) as (d & o & ? & ? & ? & ?). eauto 10.
        -- split; [intros _|done]. exists c, params.
           repeat split; auto; intros; congruence.
    + split; [discriminate|]. intros (c & params & [= ->] & Hc & _).
      assert (is_valid_command (Scalar (PyStr c)) = true)
        by (apply is_valid_command_spec; eauto).
      congruence.
  - intros c Hct Hc Hp. rewrite (subscript_Some _ _ _ Hct).
    cbn -[is_valid_command is_string check_parameter].
    assert (Hv : is_valid_command (Scalar (PyStr c)) = true)
      by (apply is_valid_command_spec; eauto).
    rewrite Hv. cbn -[is_valid_command is_string check_parameter].
    by rewrite (subscript_None _ _ Hp).
Qed.

(** *** The checks are evaluated before any verdict is read *)

(** X19.  If the constraint methods were attributes of the validator and the
    traffic check were the function of the module, a traffic report
    without its congestion level would not be refused for the missing
    field: the structure check notes it, but the traffic check raises
    [KeyError] while the list of checks is being evaluated, and
    [validate_message] returns no verdict. *)
Theorem missing_level_raises (fmt_age : Z -> string)
    (fmt_fields : gset string -> string) (fmt_value : pyvalue -> string)
    (lookup : string -> option validator) (now : Z) (message : Message)
    (md : MessageMetadata) (v : MessageValidator) :
  (forall name, name ∈ constraint_methods.*2 -> is_Some (lookup name)) ->
  lookup "_validate_traffic_constraints"
  = Some (_validate_traffic_constraints fmt_value) ->
  message_type md = TRAFFIC_INFO ->
  message !! "congestion_level" = None ->
  validate_message_with fmt_age fmt_fields lookup now message md v
  = (Raised KeyError, v)
  /\ (_validate_structure fmt_fields message (message_type md)).1 = false.
Proof.
  intros Hall Htraffic Htype Hmissing. split.
  - unfold validate_message_with, _validate_constraints_with.
    unfold constraint_methods in *. cbn [build_constraints].
    destruct (Hall "_validate_position_constraints") as [f1 ->];
      [set_solver|].
    destruct (Hall "_validate_emergency_constraints") as [f2 ->];
      [set_solver|].
    rewrite Htraffic.
    destruct (Hall "_validate_infrastructure_constraints") as [f4 ->];
      [set_solver|].
    destruct (Hall "_validate_safety_constraints") as [f5 ->];
      [set_solver|].
    destruct (Hall "_validate_control_constraints") as [f6 ->];
      [set_solver|].
    rewrite Htype. cbn [table_lookup].
    rewrite !decide_False by discriminate.
    rewrite decide_True by reflexivity.
    unfold _validate_traffic_constraints.
    rewrite (subscript_None _ _ Hmissing). reflexivity.
  - rewrite Htype.
    destruct (structure_cases fmt_fields message TRAFFIC_INFO)
      as [[Hsub _]|[_ H]]; [|exact H].
    assert (Hin : "congestion_level" ∈ dom message).
    { apply Hsub. simpl. set_solver. }
    by apply not_elem_of_dom in Hmissing.
Qed.

Lemma missing_level_raises_witness :
  validate_message_with silent silent (traffic_lookup silent) 1000000
    traffic_report_without_level (traffic_metadata "t-1" 1000000) init_default
  = (Raised KeyError, init_default)
  /\ (_validate_structure silent traffic_report_without_level
        (message_type (traffic_metadata "t-1" 1000000))).1 = false.
Proof.
  apply (missing_level_raises silent silent silent (traffic_lookup silent)).
  - intros name _. unfold traffic_lookup. destruct (String.eqb _ _); eauto.
  - reflexivity.
  - reflexivity.
  - vm_compute. reflexivity.
Defined.

(** *** The security validator *)

Lemma authentication_spec (sv : SecurityValidator) (md : MessageMetadata) :
  _validate_authentication sv md = true
  <-> (sender_id md ∉ revocation_list sv)
      /\ is_Some (trusted_keys sv !! sender_id md)
      /\ exists s, signature md = Some s /\ s <> "".
Proof.
  unfold _validate_authentication, truthy.
  destruct (decide (sender_id md ∈ revocation_list sv)) as [Hr|Hr];
    [split; [discriminate|tauto]|].
  destruct (decide (trusted_keys sv !! sender_id md = None)) as [Ht|Ht].
  { split; [discriminate|]. intros (_ & [k Hk] & _). congruence. }
  destruct (signature md) as [s|]; simpl.
  - destruct (String.eqb_spec s "") as [->|Hs]; simpl.
    + split; [discriminate|]. intros (_ & _ & s & [= <-] & Hs). done.
    + split; [intros _|done]. split; [done|]. split; [|eauto].
      destruct (trusted_keys sv !! sender_id md); [eauto|done].
  - split; [discriminate|]. intros (_ & _ & s & [=] & _).
Qed.

(** X20.  [validate_security] has one negative verdict only, the failed
    authentication: a sender that is revoked, not trusted, or whose
    signature is missing or empty.  For an authenticated message the
    content of the signature is not examined; the result is the positive
    verdict when no threat pattern is registered and the message can be
    serialized, [AttributeError] for the missing [_match_pattern] when a
    pattern is registered, and the exception of [json.dumps] otherwise.
    The reasons "Integrity check failed", "Suspicious message pattern
    detected" and "Rate limit exceeded" are never returned. *)
Theorem validate_security_verdicts (dumps : Message -> outcome string)
    (sv : SecurityValidator) (message : Message) (md : MessageMetadata) :
  (_validate_authentication sv md = true
   <-> (sender_id md ∉ revocation_list sv)
       /\ is_Some (trusted_keys sv !! sender_id md)
       /\ exists s, signature md = Some s /\ s <> "")
  /\ validate_security dumps sv message md
     = (if _validate_authentication sv md then
          match dumps message with
          | Returned _ =>
              match threat_patterns sv with
              | [] => Returned (true, "")
              | _ :: _ => Raised AttributeError
              end
          | Raised e => Raised e
          | Suspended => Suspended
          end
        else Returned (false, "Authentication failed"))
  /\ (forall reason,
        validate_security dumps sv message md = Returned (false, reason) ->
        reason = "Authentication failed"
        /\ _validate_authentication sv md = false).
Proof.
  split; [apply authentication_spec|].
  assert (H : validate_security dumps sv message md
     = (if _validate_authentication sv md then
          match dumps message with
          | Returned _ =>
              match threat_patterns sv with
              | [] => Returned (true, "")
              | _ :: _ => Raised AttributeError
              end
          | Raised e => Raised e
          | Suspended => Suspended
          end
        else Returned (false, "Authentication failed"))).
  { unfold validate_security, _validate_integrity, _check_attack_patterns.
    destruct (_validate_authentication sv md); [|reflexivity]. cbn.
    destruct (dumps message); [|reflexivity..]. cbn.
    destruct (threat_patterns sv); reflexivity. }
  split; [exact H|]. intros reason. rewrite H.
  destruct (_validate_authentication sv md).
  - destruct (dumps message); [|discriminate..].
    destruct (threat_patterns sv); discriminate.
  - intros [= <-]. done.
Qed.

(** *** The processor *)

(** X21.  With the validator class as it is written, [process_message]
    returns no response: whatever the message, the metadata, the registered
    handlers and the security validator are, it raises [AttributeError]
    and leaves the processor as it was. *)
Theorem process_message_raises (dumps : Message -> outcome string)
    (fmt_age : Z -> string) (fmt_fields : gset string -> string)
    (fmt_value : pyvalue -> string) (fmt_exn : exn -> string)
    (now : Z) (message : Message) (md : MessageMetadata)
    (p : MessageProcessor) :
  process_message dumps fmt_age fmt_fields fmt_value fmt_exn now message md p
  = (Raised AttributeError, p).
Proof.
  unfold process_message, process_message_with.
  change (validate_message_with fmt_age fmt_fields (getattr fmt_value) now
            message md (message_validator p))
    with (validate_message fmt_age fmt_fields fmt_value now message md
            (message_validator p)).
  rewrite ValidatorProofs.validate_message_always_raises.
  by destruct p.
Qed.

Lemma validate_message_with_true (fmt_age : Z -> string)
    (fmt_fields : gset string -> string)
    (lookup : string -> option validator) (now : Z) (message : Message)
    (md : MessageMetadata) (v v' : MessageValidator) (reason : string) :
  validate_message_with fmt_age fmt_fields lookup now message md v
  = (Returned (true, reason), v') ->
  reason = "Message valid" /\ v' = remember md v.
Proof.
  unfold validate_message_with.
  destruct (_validate_constraints_with lookup message md) as [r5| |];
    try discriminate.
  destruct (map snd _); [|discriminate]. by intros [= <- <-].
Qed.

(** X22.  Whatever the attribute lookup of the validator is,
    [process_message] reports success only when the message validator has
    accepted the message and cached it, the security validator has
    accepted it, and a handler registered for its type has returned. *)
Theorem process_message_success (dumps : Message -> outcome string)
    (fmt_age : Z -> string) (fmt_fields : gset string -> string)
    (fmt_exn : exn -> string) (lookup : string -> option validator)
    (now : Z) (message : Message) (md : MessageMetadata)
    (p p' : MessageProcessor) (reason : string) :
  process_message_with dumps fmt_age fmt_fields fmt_exn lookup now message md p
  = (Returned (true, reason), p') ->
  reason = "Message processed successfully"
  /\ validate_message_with fmt_age fmt_fields lookup now message md
       (message_validator p)
     = (Returned (true, "Message valid"), message_validator p')
  /\ message_cache (message_validator p') !! message_id md
     = Some (timestamp md)
  /\ validate_security dumps (security_validator p) message md
     = Returned (true, "")
  /\ exists handle,
       message_handlers p (message_type md) = Some handle
       /\ handle message md = Returned tt.
Proof.
  unfold process_message_with.
  destruct (validate_message_with fmt_age fmt_fields lookup now message md
              (message_validator p)) as [[[valid r]| |] v'] eqn:Hv;
    cbn [fst snd]; try discriminate.
  destruct valid; cbn [negb]; [|discriminate].
  apply validate_message_with_true in Hv as Henv. destruct Henv as [-> ->].
  destruct (validate_security dumps (security_validator p) message md)
    as [[secure r']| |] eqn:Hs; try discriminate.
  destruct secure; cbn [negb]; [|discriminate].
  assert (r' = "") as ->.
  { destruct (validate_security_verdicts dumps (security_validator p)
                message md) as (_ & Heq & _).
    rewrite Heq in Hs.
    destruct (_validate_authentication _ _); [|discriminate].
    destruct (dumps message); try discriminate.
    destruct (threat_patterns _); [|discriminate]. by injection Hs as <-. }
  destruct (message_handlers p (message_type md)) as [handle|] eqn:Hh;
    [|discriminate].
  destruct (handle message md) as [[]| |] eqn:Hr; try discriminate.
  intros [= <- <-]. cbn.
  repeat split; auto; [apply lookup_insert_eq|eauto].
Qed.

Lemma process_message_success_witness :
  exists handle,
    message_handlers routing POSITION_UPDATE = Some handle
    /\ handle position_update (signed_metadata "m-1" 1000000) = Returned tt.
Proof.
  destruct (process_message_success (fun _ => Returned "{}") silent silent
              silent (lenient_lookup silent) 1000000 position_update
              (signed_metadata "m-1" 1000000) routing
              (mkMessageProcessor
                 (remember (signed_metadata "m-1" 1000000) init_default)
                 trusting (message_handlers routing))
              "Message processed successfully")
    as (_ & _ & _ & _ & H).
  - vm_compute. reflexivity.
  - exact H.
Defined.

End RoutingProofs.

(** ** The request handler and the sessions *)

Module ServiceProofs.
Import ApiGateway GatewayProofs GatewayService.

(** *** Sessions *)

Lemma prepare_sequence_no_history (config : Config) (now : Z)
    (sender : string) (sessions : gmap string Session) :
  no_history sessions ->
  (_prepare_sequence config now sender sessions).1 = mkSequence [] sender now
  /\ no_history (_prepare_sequence config now sender sessions).2.
Proof.
  intros Hno. unfold _prepare_sequence.
  assert (Hs : session_messages
                 (default (mkSession [] now) (sessions !! sender)) = []).
  { destruct (sessions !! sender) as [s|] eqn:E; [|reflexivity].
    simpl. by apply (Hno sender). }
  rewrite Hs. simpl. destruct (_ <? _); simpl; (split; [reflexivity|]);
    intros x s; rewrite lookup_insert; case_decide;
    try (intros [= <-]; reflexivity); apply Hno.
Qed.

Lemma process_single_message_no_history
    (detector : V2IMessage -> DetectionResult)
    (analyzer : DetectionResult -> V2IMessage -> AnalysisResult)
    (transformer : Sequence -> Dict) (config : Config) (now : Z)
    (message : V2IMessage) (sessions : gmap string Session) :
  no_history sessions ->
  no_history (_process_single_message detector analyzer transformer config now
                message sessions).2.
Proof.
  intros Hno. unfold _process_single_message.
  destruct (py_gt _ _); [|exact Hno]. destruct (py_gt _ _); [|exact Hno].
  destruct (prepare_sequence_no_history config now (sender_id message)
              sessions Hno) as [_ H].
  by destruct (_prepare_sequence _ _ _ _).
Qed.

Lemma serve_no_history (detector : V2IMessage -> DetectionResult)
    (analyzer : DetectionResult -> V2IMessage -> AnalysisResult)
    (transformer : Sequence -> Dict) (config : Config)
    (requests : list (Z * V2IMessage)) :
  forall sessions, no_history sessions ->
    no_history (serve detector analyzer transformer config requests sessions).
Proof.
  induction requests as [|[now message] requests IH]; intros sessions Hno;
    [exact Hno|].
  simpl. apply IH. by apply process_single_message_no_history.
Qed.

(** X23.  Nothing in the gateway appends to the messages of a session: the
    only writer is the [pop(0)] of [_prepare_sequence].  So after any
    series of requests on a gateway that started without sessions, the
    sequence handed to the transformer for an escalated message holds no
    message, and its session start is the time of the call. *)
Theorem transformer_sees_no_history
    (detector : V2IMessage -> DetectionResult)
    (analyzer : DetectionResult -> V2IMessage -> AnalysisResult)
    (transformer : Sequence -> Dict) (config : Config)
    (requests : list (Z * V2IMessage)) (now : Z) (message : V2IMessage) :
  transformer_runs detector analyzer config message = true ->
  let sessions := serve detector analyzer transformer config requests ∅ in
  let c :=
    _combine_results config (detector message)
      (analyzer (detector message) message)
      (transformer (mkSequence [] (sender_id message) now)) in
  (_process_single_message detector analyzer transformer config now message
     sessions).1
  = Returned (c, _create_response config now c).
Proof.
  intros Hruns sessions c.
  assert (Hno : no_history sessions).
  { apply serve_no_history. intros x s Hx. by apply lookup_empty_Some in Hx. }
  unfold transformer_runs, analyzer_runs in Hruns.
  apply andb_true_iff in Hruns as [Ha Ht].
  unfold _process_single_message. rewrite Ha, Ht.
  destruct (prepare_sequence_no_history config now (sender_id message)
              sessions Hno) as [Hseq _].
  destruct (_prepare_sequence _ _ _ _) as [sequence sessions'].
  simpl in Hseq. subst sequence. reflexivity.
Qed.

Lemma transformer_sees_no_history_witness :
  exists c,
    (_process_single_message scenario_detector scenario_analyzer
       scenario_transformer scenario_config 9 scenario_message
       (serve scenario_detector scenario_analyzer scenario_transformer
          scenario_config [(7, scenario_message); (8, scenario_message)] ∅)).1
    = Returned (c, _create_response scenario_config 9 c).
Proof.
  eexists.
  apply (transformer_sees_no_history scenario_detector scenario_analyzer
           scenario_transformer scenario_config
           [(7, scenario_message); (8, scenario_message)] 9 scenario_message).
  reflexivity.
Defined.

(** X24.  Every response that [_process_single_message] returns carries a
    confidence above both the analysis threshold and the transform
    threshold, the status "success" and the time of the call; when the
    threat threshold is not above the transform threshold, it reports a
    threat. *)
Theorem returned_response_bounds
    (detector : V2IMessage -> DetectionResult)
    (analyzer : DetectionResult -> V2IMessage -> AnalysisResult)
    (transformer : Sequence -> Dict) (config : Config) (now : Z)
    (message : V2IMessage) (sessions sessions' : gmap string Session)
    (c : Combined) (response : DetectionResponse) :
  _process_single_message detector analyzer transformer config now message
    sessions = (Returned (c, response), sessions') ->
  (analysis_threshold config < r_confidence response)%Q
  /\ (transform_threshold config < r_confidence response)%Q
  /\ status response = "success"
  /\ r_timestamp response = now
  /\ ((threat_threshold config <= transform_threshold config)%Q ->
      r_threat_detected response = true).
Proof.
  unfold _process_single_message.
  destruct (py_gt (confidence (detector message)) _) eqn:Ha; [|discriminate].
  destruct (py_gt (anomaly_score _) _) eqn:Ht; [|discriminate].
  destruct (_prepare_sequence _ _ _ _) as [sequence s']. intros [= <- <- <-].
  apply py_gt_spec in Ha, Ht. cbn.
  set (d := detector message) in *. set (a := analyzer d message) in *.
  pose proof (py_max_is_max (confidence d) (anomaly_score a)) as Hmax.
  split; [|split; [|split; [done|split; [done|]]]].
  - rewrite Hmax. eapply Qlt_le_trans; [exact Ha|apply Q.le_max_l].
  - rewrite Hmax. eapply Qlt_le_trans; [exact Ht|apply Q.le_max_r].
  - intros Hle. apply orb_true_iff. right. apply py_gt_spec.
    eapply Qle_lt_trans; eauto.
Qed.

Lemma returned_response_bounds_witness :
  exists response,
    (analysis_threshold scenario_config < r_confidence response)%Q
    /\ r_threat_detected response = true.
Proof.
  destruct (_process_single_message scenario_detector scenario_analyzer
              scenario_transformer scenario_config 7 scenario_message ∅)
    as [[[c response]| |] sessions'] eqn:E; try discriminate.
  exists response.
  destruct (returned_response_bounds scenario_detector scenario_analyzer
              scenario_transformer scenario_config 7 scenario_message ∅
              sessions' c response E) as (H1 & _ & _ & _ & H2).
  split; [exact H1|]. apply H2. vm_compute. discriminate.
Defined.

(** *** Requests *)

(** X25.  [handle_message] never fails with a status other than 500: every
    exception of the request, the 401 of [_validate_message] included, is
    caught by [except Exception] and raised again as [HTTPException(500)].
    A message whose signature the decoder rejects is answered 500 and is
    not queued; a message that passes the signature check but does not
    reach the transformer is queued and answered 500; a response is
    returned only for a message that reaches the transformer. *)
Theorem handle_message_outcomes
    (detector : V2IMessage -> DetectionResult)
    (analyzer : DetectionResult -> V2IMessage -> AnalysisResult)
    (transformer : Sequence -> Dict) (jwt_decode : string -> option raised)
    (update_message_processed : option raised) (str : raised -> string)
    (config : Config) (now : Z) (message : V2IMessage) (g : Gateway) :
  let r :=
    handle_message detector analyzer transformer jwt_decode
      update_message_processed str config now message g in
  (forall e, r.1 = Failed e -> exists detail, e = HTTPException 500 detail)
  /\ r.1 <> Waiting
  /\ (forall s, has_signature message = Some s ->
        jwt_decode s = Some InvalidTokenError ->
        r = (Failed (HTTPException 500
                       (str (HTTPException 401 "Invalid message signature"))),
             g))
  /\ (_validate_message jwt_decode message = Answered tt ->
      transformer_runs detector analyzer config message = false ->
      r = (Failed (HTTPException 500 (str (PythonError TypeError))),
           mkGateway (active_sessions g) (message_queue g ++ [message])))
  /\ (forall response, r.1 = Answered response ->
        transformer_runs detector analyzer config message = true
        /\ update_message_processed = None
        /\ message_queue r.2 = message_queue g ++ [message]).
Proof.
  intros r. subst r. unfold handle_message, internal_error.
  split; [|split; [|split; [|split]]].
  - destruct (_validate_message jwt_decode message) as [[]|e|] eqn:Hv;
      cbn [fst]; [| |unfold _validate_message in Hv;
                     destruct (has_signature message);
                     [destruct (jwt_decode _) as [[]|]|]; discriminate].
    + destruct (_process_single_message _ _ _ _ _ _ _) as [[[c resp]|e|] s'];
        cbn [fst snd].
      * destruct update_message_processed; cbn [fst]; [|discriminate].
        intros e [= <-]. eauto.
      * intros e' [= <-]. eauto.
      * discriminate.
    + intros e' [= <-]. eauto.
  - destruct (_validate_message jwt_decode message) as [[]|e|] eqn:Hv;
      cbn [fst]; [|discriminate|unfold _validate_message in Hv;
                     destruct (has_signature message);
                     [destruct (jwt_decode _) as [[]|]|]; discriminate].
    destruct (_process_single_message _ _ _ _ _ _ _) as [[[c resp]|e|] s']
      eqn:Hp; cbn [fst snd];
      [destruct update_message_processed; discriminate|discriminate|].
    unfold _process_single_message in Hp.
    destruct (py_gt _ _); [|discriminate].
    destruct (py_gt _ _); [|discriminate].
    by destruct (_prepare_sequence _ _ _ _).
  - intros s Hs Hj. unfold _validate_message. by rewrite Hs, Hj.
  - intros Hv Hruns. rewrite Hv. cbn [active_sessions message_queue].
    by rewrite (skipped_stage_raises _ _ _ _ _ _ _ Hruns).
  - intros response.
    destruct (_validate_message jwt_decode message) as [[]|e|];
      cbn [fst]; [|discriminate..].
    destruct (transformer_runs detector analyzer config message) eqn:Hruns.
    + destruct (_process_single_message _ _ _ _ _ _ _) as [[[c resp]|e|] s'];
        cbn [fst snd]; [|discriminate..].
      destruct update_message_processed; [discriminate|]. intros _. done.
    + cbn [active_sessions message_queue].
      rewrite (skipped_stage_raises _ _ _ _ _ _ _ Hruns). discriminate.
Qed.

Lemma handle_message_outcomes_witness :
  handle_message calm_detector scenario_analyzer scenario_transformer
    rejecting None render scenario_config 7 signed_message Gateway_init
  = (Failed (HTTPException 500 "Invalid message signature"), Gateway_init)
  /\ handle_message calm_detector scenario_analyzer scenario_transformer
       rejecting None render scenario_config 7 scenario_message Gateway_init
     = (Failed (HTTPException 500 "error"),
        mkGateway ∅ [scenario_message]).
Proof.
  split.
  - destruct (handle_message_outcomes calm_detector scenario_analyzer
                scenario_transformer rejecting None render scenario_config 7
                signed_message Gateway_init) as (_ & _ & H & _).
    apply (H "token"); reflexivity.
  - destruct (handle_message_outcomes calm_detector scenario_analyzer
                scenario_transformer rejecting None render scenario_config 7
                scenario_message Gateway_init) as (_ & _ & _ & H & _).
    apply H; reflexivity.
Defined.

End ServiceProofs.

(** ** The factors of the anomaly score *)

Module FactorProofs.
Import Analyzer AnalyzerProofs.

Local Open Scope Q_scope.

Lemma Qsum_bounds (lo hi : Q) (l : list Q) :
  Forall (fun x => lo <= x <= hi) l ->
  lo * inject_Z (Z.of_nat (length l)) <= Qsum l
  /\ Qsum l <= hi * inject_Z (Z.of_nat (length l)).
Proof.
  induction 1 as [|x l [Hx1 Hx2] _ [IH1 IH2]].
  - cbn [length Qsum fold_right].
    replace (inject_Z (Z.of_nat 0)) with 0 by reflexivity. split; lra.
  - cbn [length Qsum fold_right]. fold (Qsum l).
    rewrite Nat2Z.inj_succ, <- Z.add_1_r, inject_Z_plus.
    change (inject_Z 1) with 1. split; lra.
Qed.

Lemma np_mean_bounds (lo hi : Q) (l : list Q) :
  l <> [] ->
  Forall (fun x => lo <= x <= hi) l ->
  lo <= np_mean l <= hi.
Proof.
  intros Hne Hall. destruct (Qsum_bounds lo hi l Hall) as [H1 H2].
  assert (Hn : 0 < inject_Z (Z.of_nat (length l))).
  { destruct l; [done|]. unfold Qlt. simpl. lia. }
  unfold np_mean. split.
  - by apply Qle_shift_div_l.
  - by apply Qle_shift_div_r.
Qed.

Lemma np_clip_unit (x : Q) : 0 <= np_clip x 0 1 <= 1.
Proof. rewrite np_clip_is_clipped. apply clipped_in_unit. Qed.

Lemma np_clip_inside (x : Q) : 0 <= x <= 1 -> np_clip x 0 1 == x.
Proof.
  intros [H0 H1]. rewrite np_clip_is_clipped. unfold clipped_to_unit.
  destruct (Qlt_le_dec x 0); [lra|]. destruct (Qlt_le_dec 1 x); lra.
Qed.

Ltac solve_has :=
  repeat match goal with
         | |- is_Some (Some _) => eexists; reflexivity
         | |- ~ is_Some None => intros [? [=]]
         | H : is_Some None |- _ => destruct H as [? [=]]
         | H : ~ is_Some (Some _) |- _ => destruct H; eexists; reflexivity
         end.

(** A lookup that defines the methods of a list finds each of them. *)
Lemma defines_cons {V : Type} (lookup : string -> option (V -> Q))
    (key method : string) (entries : list (string * string)) :
  defines lookup ((key, method) :: entries) = true ->
  (exists evaluate, lookup method = Some evaluate)
  /\ defines lookup entries = true.
Proof.
  unfold defines. cbn [forallb snd]. intros H.
  apply andb_true_iff in H as [H1 H2]. apply bool_decide_eq_true in H1.
  split; [exact H1|exact H2].
Qed.

(** With its methods defined, the collection of the scores returns, and
    the scores are answers of the methods. *)
Lemma evaluate_present_defined {V : Type} (lookup : string -> option (V -> Q))
    (d : gmap string V) (entries : list (string * string)) :
  defines lookup entries = true ->
  exists scores,
    evaluate_present lookup d entries = Returned scores
    /\ Forall (fun score =>
                 exists method evaluate value,
                   lookup method = Some evaluate /\ score = evaluate value)
         scores
    /\ (scores = [] <-> has_entry d entries = false).
Proof.
  induction entries as [|[key method] entries IH]; intros Hdef.
  - exists []. by repeat split.
  - apply defines_cons in Hdef as [[evaluate He] Hdef].
    destruct (IH Hdef) as (scores & Hs & Hall & Hnil).
    cbn [evaluate_present has_entry existsb fst].
    destruct (d !! key) as [value|] eqn:Hkey.
    + rewrite He, Hs. exists (evaluate value :: scores).
      split; [reflexivity|]. split; [constructor; eauto|].
      rewrite bool_decide_eq_true_2 by eauto. by split.
    + rewrite Hs. exists scores. split; [reflexivity|]. split; [exact Hall|].
      rewrite bool_decide_eq_false_2 by (intros [? [=]]). exact Hnil.
Qed.

Section Oracles.

Variable Features : Type.
Variable fit_predict : Features -> Z.
Variable Pattern : Type.
Variable Context : Type.
Variable pattern_lookup : string -> option (Pattern -> Q).
Variable context_lookup : string -> option (Context -> Q).

Lemma temporal_factor_defined (temporal_patterns : gmap string Pattern) :
  defines pattern_lookup temporal_methods = true ->
  exists temporal,
    _calculate_temporal_factor_with Pattern pattern_lookup temporal_patterns
    = Returned temporal
    /\ ((forall method evaluate value,
           pattern_lookup method = Some evaluate -> 0 <= evaluate value <= 1) ->
        0 <= temporal <= 1).
Proof.
  intros Hdef.
  destruct (evaluate_present_defined pattern_lookup temporal_patterns
              temporal_methods Hdef) as (scores & Hs & Hall & _).
  unfold _calculate_temporal_factor_with. rewrite Hs.
  destruct scores as [|score scores].
  - eexists. split; [reflexivity|]. intros _. split; lra.
  - eexists. split; [reflexivity|]. intros Hunit.
    apply np_mean_bounds; [discriminate|].
    eapply Forall_impl; [exact Hall|].
    intros x (method & evaluate & value & Hm & ->). simpl. eauto.
Qed.

(** X26.  Were the seven evaluation methods attributes of the analyzer
    (they are defined nowhere: as the class is written, an entry under one
    of their keys makes the call raise [AttributeError]),
    [_calculate_anomaly_score] would return a score exactly when the
    context dictionary holds all four of the entries
    environmental_factors, network_state, threat_context and
    historical_context, or none of them; with one, two or three of them
    the four weights do not fit the factors and the call would raise
    [TypeError]. *)
Theorem anomaly_score_returns_iff (features : Features)
    (temporal_patterns : gmap string Pattern)
    (spatial_correlations : gmap string Q) (context : gmap string Context) :
  defines pattern_lookup temporal_methods = true ->
  defines context_lookup context_methods = true ->
  let score :=
    _calculate_anomaly_score_with Features fit_predict Pattern Context
      pattern_lookup context_lookup features temporal_patterns
      spatial_correlations context in
  let has k := is_Some (context !! k) in
  let all_four :=
    has "environmental_factors" /\ has "network_state"
    /\ has "threat_context" /\ has "historical_context" in
  let none :=
    ~ has "environmental_factors" /\ ~ has "network_state"
    /\ ~ has "threat_context" /\ ~ has "historical_context" in
  ((exists s, score = Returned s) <-> all_four \/ none)
  /\ (~ (all_four \/ none) -> score = Raised TypeError).
Proof.
  intros Hp Hc score has all_four none. subst score has all_four none.
  destruct (temporal_factor_defined temporal_patterns Hp) as (t & Ht & _).
  unfold _calculate_anomaly_score_with. rewrite Ht. clear Ht.
  unfold context_methods in Hc.
  apply defines_cons in Hc as [[f1 H1] Hc].
  apply defines_cons in Hc as [[f2 H2] Hc].
  apply defines_cons in Hc as [[f3 H3] Hc].
  apply defines_cons in Hc as [[f4 H4] _].
  unfold _calculate_context_factor_with, context_methods.
  cbn [evaluate_present]. rewrite H1, H2, H3, H4.
  destruct (context !! "environmental_factors") as [e|],
           (context !! "network_state") as [n|],
           (context !! "threat_context") as [th|],
           (context !! "historical_context") as [h|];
    cbn [np_average length Nat.eqb];
    (split; [split|]);
    solve
      [ intros [s [=]]
      | intros [(G1 & G2 & G3 & G4)|(G1 & G2 & G3 & G4)]; solve_has
      | intros _; reflexivity
      | intros _; eexists; reflexivity
      | intros _; left; repeat split; solve_has
      | intros _; right; repeat split; solve_has
      | intros H; destruct H; left; repeat split; solve_has
      | intros H; destruct H; right; repeat split; solve_has ].
Qed.

(** X27.  Were the seven evaluation methods attributes of the analyzer
    (they are defined nowhere), each answering within [0, 1], then for a
    sample that the isolation forest labels 1 or -1 and a context
    dictionary that holds all four of its entries or none of them, each
    of the four factors would lie in [0, 1] (the base score is 0 or 1) and
    the anomaly score would be the weighted sum itself: the final clip
    would change nothing. *)
Theorem anomaly_score_unclipped (features : Features)
    (temporal_patterns : gmap string Pattern)
    (spatial_correlations : gmap string Q) (context : gmap string Context) :
  defines pattern_lookup temporal_methods = true ->
  defines context_lookup context_methods = true ->
  (forall method evaluate value,
     pattern_lookup method = Some evaluate -> 0 <= evaluate value <= 1) ->
  (forall method evaluate value,
     context_lookup method = Some evaluate -> 0 <= evaluate value <= 1) ->
  (fit_predict features = 1%Z \/ fit_predict features = (-1)%Z) ->
  (Forall (fun entry => is_Some (context !! entry.1)) context_methods
   \/ has_entry context context_methods = false) ->
  let base := _calculate_feature_based_score Features fit_predict features in
  let spatial := _calculate_spatial_factor spatial_correlations in
  exists temporal context_factor s,
    _calculate_temporal_factor_with Pattern pattern_lookup temporal_patterns
    = Returned temporal
    /\ _calculate_context_factor_with Context context_lookup context
       = Returned context_factor
    /\ _calculate_anomaly_score_with Features fit_predict Pattern Context
         pattern_lookup context_lookup features temporal_patterns
         spatial_correlations context = Returned s
    /\ (base == 0 \/ base == 1)
    /\ 0 <= temporal <= 1
    /\ 0 <= spatial <= 1
    /\ 0 <= context_factor <= 1
    /\ s == (4 # 10) * base + (3 # 10) * temporal + (2 # 10) * spatial
            + (1 # 10) * context_factor.
Proof.
  intros Hp Hc Hpu Hcu Hlabel Hctx base spatial.
  destruct (temporal_factor_defined temporal_patterns Hp)
    as (temporal & Ht & Htemporal).
  specialize (Htemporal Hpu).
  assert (Hbase : base == 0 \/ base == 1).
  { unfold base, _calculate_feature_based_score.
    destruct Hlabel as [-> | ->]; [left|right]; reflexivity. }
  assert (Hspatial : 0 <= spatial <= 1).
  { unfold spatial, _calculate_spatial_factor.
    destruct ((map_to_list spatial_correlations).*2); [split; lra|].
    apply np_clip_unit. }
  assert (Hcontext : exists context_factor,
            _calculate_context_factor_with Context context_lookup context
            = Returned context_factor /\ 0 <= context_factor <= 1).
  { unfold context_methods in Hc.
    apply defines_cons in Hc as [[f1 H1] Hc].
    apply defines_cons in Hc as [[f2 H2] Hc].
    apply defines_cons in Hc as [[f3 H3] Hc].
    apply defines_cons in Hc as [[f4 H4] _].
    unfold _calculate_context_factor_with, context_methods.
    cbn [evaluate_present]. rewrite H1, H2, H3, H4.
    destruct Hctx as [Hall|Hnone].
    - unfold context_methods in Hall.
      apply Forall_cons in Hall as [[e He] Hall].
      apply Forall_cons in Hall as [[n Hn] Hall].
      apply Forall_cons in Hall as [[th Hth] Hall].
      apply Forall_cons in Hall as [[h Hh] _].
      cbn [fst] in He, Hn, Hth, Hh. rewrite He, Hn, Hth, Hh.
      cbn [np_average length Nat.eqb].
      eexists. split; [reflexivity|].
      pose proof (Hcu _ _ e H1). pose proof (Hcu _ _ n H2).
      pose proof (Hcu _ _ th H3). pose proof (Hcu _ _ h H4).
      assert (Hw : 0 < Qsum [3 # 10; 2 # 10; 3 # 10; 2 # 10]) by reflexivity.
      split.
      + apply Qle_shift_div_l; [exact Hw|].
        cbn [dot Qsum fold_right]. lra.
      + apply Qle_shift_div_r; [exact Hw|].
        cbn [dot Qsum fold_right]. lra.
    - unfold has_entry, context_methods in Hnone.
      cbn [existsb fst] in Hnone.
      repeat (apply orb_false_iff in Hnone as [?%bool_decide_eq_false Hnone]).
      destruct (context !! "environmental_factors"); [solve_has|].
      destruct (context !! "network_state"); [solve_has|].
      destruct (context !! "threat_context"); [solve_has|].
      destruct (context !! "historical_context"); [solve_has|].
      eexists. split; [reflexivity|]. split; lra. }
  destruct Hcontext as (cf & Hcf & Hcfu).
  exists temporal, cf.
  unfold _calculate_anomaly_score_with. rewrite Ht, Hcf.
  fold base. fold spatial.
  eexists. split; [reflexivity|]. split; [reflexivity|].
  split; [reflexivity|]. repeat (split; [assumption|]).
  apply np_clip_inside.
  destruct Hbase as [Hb|Hb]; rewrite Hb; split; lra.
Qed.

End Oracles.

Lemma anomaly_score_returns_iff_witness :
  exists s,
    _calculate_anomaly_score_with unit outlier unit unit completed completed
      tt patterns neighbours full_context = Returned s.
Proof.
  apply (anomaly_score_returns_iff unit outlier unit unit completed completed
           tt patterns neighbours full_context); [reflexivity|reflexivity|].
  left. repeat split; eexists; reflexivity.
Defined.

Lemma anomaly_score_unclipped_witness :
  exists s,
    _calculate_anomaly_score_with unit outlier unit unit completed completed
      tt patterns neighbours full_context = Returned s
    /\ s == 7 # 10.
Proof.
  destruct (anomaly_score_unclipped unit outlier unit unit completed completed
              tt patterns neighbours full_context)
    as (temporal & cf & s & Ht & Hc & Hs & _ & _ & _ & _ & Hsum).
  - reflexivity.
  - reflexivity.
  - intros method evaluate value [= <-]. split; discriminate.
  - intros method evaluate value [= <-]. split; discriminate.
  - right. reflexivity.
  - left. repeat constructor; eexists; reflexivity.
  - exists s. split; [exact Hs|].
    vm_compute in Hs. injection Hs as <-. reflexivity.
Defined.

End FactorProofs.

(** ** The detector: buffers, feature rows and recommendation *)

Module DetectorProofs.
Import MessageHandler Detector.

Lemma gt_spec (a b : Q) : gt a b = true <-> (b < a)%Q.
Proof.
  unfold gt. rewrite negb_true_iff, <- not_true_iff_false, Qle_bool_iff.
  split; [apply Qnot_le_lt|apply Qlt_not_le].
Qed.

Lemma gt_false (a b : Q) : gt a b = false <-> (a <= b)%Q.
Proof. unfold gt. by rewrite negb_false_iff, Qle_bool_iff. Qed.

Lemma Qlt_div (a b c : Q) : (0 < c -> a < b / c -> a * c < b)%Q.
Proof.
  intros Hc H. apply (Qmult_lt_r _ _ c Hc) in H.
  assert (E : (b / c * c == b)%Q).
  { field. intros E. rewrite E in Hc. revert Hc. apply Qlt_irrefl. }
  rewrite E in H. exact H.
Qed.

Lemma Qdiv_lt (a b c : Q) : (0 < c -> a / c < b -> a < b * c)%Q.
Proof.
  intros Hc H. apply (Qmult_lt_r _ _ c Hc) in H.
  assert (E : (a / c * c == a)%Q).
  { field. intros E. rewrite E in Hc. revert Hc. apply Qlt_irrefl. }
  rewrite E in H. exact H.
Qed.

(** *** The buffers *)

Section Buffers.

Variable Msg : Type.
Variable Row : Type.
Variable zeros : Row.




(** X29.  [_check_message_flooding] reports a positive likelihood only for
    a buffer of ten entries or more whose last entry is later than the
    first, by at most a twentieth of a second for each entry of the
    buffer; a buffer of fewer than ten entries gives 0, so that a detector
    whose buffers are within a [sequence_length] below ten reports no
    flooding. *)
Theorem flooding_needs_ten_messages (d : IntrusionDetector Msg)
    (sender : string) :
  let recent := buffer Msg d sender in
  ((0 < _check_message_flooding Msg sender d)%Q ->
     10 <= Z.of_nat (length recent)
     /\ exists first final,
          head recent = Some first /\ last recent = Some final
          /\ 0 < b_timestamp Msg final - b_timestamp Msg first
          /\ 20 * (b_timestamp Msg final - b_timestamp Msg first)
             <= 1000000 * Z.of_nat (length recent))
  /\ (Z.of_nat (length recent) < 10 ->
      _check_message_flooding Msg sender d = 0%Q)
  /\ (Z.of_nat (length recent) <= Z.max 0 (sequence_length Msg d) ->
      sequence_length Msg d < 10 ->
      _check_message_flooding Msg sender d = 0%Q).
Proof.
  intros recent.
  unfold _check_message_flooding. fold recent.
  destruct (Z.ltb_spec (Z.of_nat (length recent)) 10) as [Hlt|Hge].
  { split; [intros H; by apply Qlt_irrefl in H|done]. }
  split; [|split; intros; lia].
  destruct (head recent) as [first|] eqn:Hh;
    [|intros H; by apply Qlt_irrefl in H].
  destruct (last recent) as [final|] eqn:Hl;
    [|intros H; by apply Qlt_irrefl in H].
  set (delta := b_timestamp Msg final - b_timestamp Msg first).
  set (n := Z.of_nat (length recent)) in *.
  set (tw := (inject_Z delta / 1000000)%Q).
  assert (Hfreq : forall f : Q,
            (if gt tw 0 then (inject_Z n / tw)%Q else 0%Q) = f ->
            (20 < f)%Q -> 0 < delta /\ 20 * delta < 1000000 * n).
  { intros f Hf H20. destruct (gt tw 0) eqn:Htw.
    - apply gt_spec in Htw. subst f.
      apply (Qlt_div _ _ _ Htw) in H20.
      unfold tw in Htw, H20.
      apply (Qlt_div 0 _ 1000000) in Htw; [|reflexivity].
      assert (E : (20 * (inject_Z delta / 1000000)
                   == 20 * inject_Z delta / 1000000)%Q)
        by (field; discriminate).
      rewrite E in H20. apply Qdiv_lt in H20; [|reflexivity].
      split.
      + rewrite Zlt_Qlt. change (inject_Z 0) with 0%Q. lra.
      + rewrite Zlt_Qlt, !inject_Z_mult.
        change (inject_Z 20) with 20%Q.
        change (inject_Z 1000000) with 1000000%Q. lra.
    - subst f. exfalso. revert H20. apply Qle_not_lt. discriminate. }
  intros Hpos.
  assert (H20 : (20 < (if gt tw 0 then (inject_Z n / tw)%Q else 0%Q))%Q).
  { revert Hpos.
    destruct (gt _ 100) eqn:H100.
    - intros _. apply gt_spec in H100. eapply Qlt_trans; [|exact H100].
      reflexivity.
    - destruct (gt _ 50) eqn:H50.
      + intros _. apply gt_spec in H50. eapply Qlt_trans; [|exact H50].
        reflexivity.
      + destruct (gt _ 20) eqn:H20; [intros _; by apply gt_spec|].
        intros H. by apply Qlt_irrefl in H. }
  destruct (Hfreq _ eq_refl H20) as [Hd1 Hd2].
  split; [lia|]. exists first, final. repeat split; [done|lia].
Qed.

End Buffers.


Lemma flooding_needs_ten_messages_witness :
  _check_message_flooding unit "VEH_1" flooded = float_0_9
  /\ 10 <= Z.of_nat (length (buffer unit flooded "VEH_1")).
Proof.
  split; [vm_compute; reflexivity|].
  destruct (flooding_needs_ten_messages unit flooded "VEH_1") as [H _].
  destruct H as [H _]; [vm_compute; reflexivity|exact H].
Defined.

(** *** The recommendation *)

Lemma recommendations_known (t : string) :
  t ∈ threat_types ->
  exists r1 r2 r3, recommendations t = Some [r1; r2; r3].
Proof.
  unfold threat_types. intros Ht.
  repeat (apply elem_of_cons in Ht as [->|Ht]);
    [..|by apply elem_of_nil in Ht]; cbn; eauto.
Qed.

Lemma recommendations_unknown (t : string) :
  t ∉ threat_types -> recommendations t = None.
Proof.
  unfold threat_types, recommendations. intros Ht.
  repeat match goal with
         | |- context [String.eqb t ?k] =>
             destruct (String.eqb_spec t k) as [->|_];
             [exfalso; apply Ht; repeat constructor|]
         end.
  reflexivity.
Qed.

(** X30.  [_generate_recommendation] without a threat returns the sentence
    on normal monitoring and does not read the evidence.  For a threat it
    reads [evidence['risk_assessment']['severity']]: it raises [KeyError]
    when one of the two keys is missing and [TypeError] when the risk
    assessment is not a dictionary or the severity is not a number.
    Otherwise it returns the entries joined with [" | "]: the three
    entries of the threat type, or the single entry "Initiate general
    security measures" when the type is [None] or not one of the five of
    the table, followed by the line on node isolation for a severity above
    0.8, by the line on monitoring for a severity above 0.6 and not above
    0.8, and by nothing for a lower one (0.8 and 0.6 being the floats). *)
Theorem generate_recommendation_cases (threat_type : option string)
    (evidence : Evidence) :
  let base :=
    default ["Initiate general security measures"]
      (threat_type ≫= recommendations) in
  _generate_recommendation false threat_type evidence
  = Returned "No immediate action required. Continue normal monitoring."
  /\ (match threat_type with
      | Some t =>
          (t ∈ threat_types /\
           exists r1 r2 r3,
             recommendations t = Some [r1; r2; r3] /\ base = [r1; r2; r3])
          \/ ((t ∉ threat_types)
              /\ base = ["Initiate general security measures"])
      | None => base = ["Initiate general security measures"]
      end)
  /\ match evidence !! "risk_assessment" with
     | None =>
         _generate_recommendation true threat_type evidence = Raised KeyError
     | Some (MessageRouting.Scalar _) =>
         _generate_recommendation true threat_type evidence = Raised TypeError
     | Some (MessageRouting.Mapping risk_assessment) =>
         match risk_assessment !! "severity" with
         | None =>
             _generate_recommendation true threat_type evidence
             = Raised KeyError
         | Some (PyNum severity) =>
             exists extra,
               _generate_recommendation true threat_type evidence
               = Returned (MessageHandler.join (base ++ extra))
               /\ ((float_0_8 < severity)%Q
                   /\ extra = ["URGENT: Consider immediate node isolation"]
                   \/ (float_0_6 < severity)%Q /\ (severity <= float_0_8)%Q
                      /\ extra = ["Increase monitoring frequency"]
                   \/ (severity <= float_0_6)%Q /\ extra = [])
         | Some _ =>
             _generate_recommendation true threat_type evidence
             = Raised TypeError
         end
     end.
Proof.
  intros base. split; [reflexivity|]. split.
  - subst base. destruct threat_type as [t|]; [|reflexivity].
    cbn [mbind option_bind].
    destruct (decide (t ∈ threat_types)) as [Ht|Ht].
    + left. split; [exact Ht|].
      destruct (recommendations_known t Ht) as (r1 & r2 & r3 & Hrec).
      exists r1, r2, r3. by rewrite Hrec.
    + right. split; [exact Ht|]. by rewrite (recommendations_unknown t Ht).
  - unfold _generate_recommendation, severity_of, MessageRouting.subscript.
    unfold Evidence in *. cbn [negb]. fold base.
    destruct (evidence !! "risk_assessment") as [[v|risk_assessment]|];
      [reflexivity| |reflexivity].
    destruct (risk_assessment !! "severity") as [[severity|s|]|];
      [|reflexivity..].
    cbn [exceeds].
    destruct (gt severity float_0_8) eqn:H8.
    + apply gt_spec in H8. eexists. split; [reflexivity|]. left. by split.
    + apply gt_false in H8. destruct (gt severity float_0_6) eqn:H6.
      * apply gt_spec in H6. eexists. split; [reflexivity|].
        right. left. by repeat split.
      * apply gt_false in H6. exists []. rewrite app_nil_r.
        split; [reflexivity|]. right. right. by split.
Qed.

(** A replay attack with a severity of 0.7: the three entries for replay
    attacks and the line on monitoring. *)
Example replay_recommendation :
  _generate_recommendation true (Some "replay_attack") grave
  = Returned
      ("Refresh session keys | Enhance timestamp validation | "
       +:+ "Monitor message sequence numbers | Increase monitoring frequency").
Proof. vm_compute. reflexivity. Qed.

(** Without a risk assessment in the evidence the call raises. *)
Example recommendation_without_assessment :
  _generate_recommendation true (Some "replay_attack") ∅ = Raised KeyError.
Proof. vm_compute. reflexivity. Qed.

End DetectorProofs.
